(** * Bookmark-PDF-app: the bookmark tree and its page-ordered outline

    A shallow embedding of the bookmark-tree logic of the application:

    - [JS]: the fragment of the JavaScript built-ins the code relies on
      ([String.prototype.trim], [parseInt], [Number], [Array.prototype.sort],
      [Array.prototype.join], template-literal number printing);
    - [Serializer]: [sortBookmarksByPage], [buildPrintedOutline] and the
      outline part of the [/api/process] handler (backend server);
    - [Store]: [createNode], [findAndOperate], [saveModal], [removeNode],
      [destToPageNumber] and [mapOutline] (frontend [App.jsx]);
    - [Heap]: the serializer once more, over an explicit store of arrays and
      objects, to account for aliasing and in-place mutation;
    - [Editor]: the dialogs ([openAddRoot], [openAddChild], [openEdit]), the
      page navigation, [onDocumentLoadSuccess], [makeBookmarkedName] and
      [formatExtractedText] (frontend [App.jsx]);
    - [Server]: [safeUnlink], the handlers of [/api/upload] and
      [/api/process] and [sweepUploadsDirectory], over a file system that
      maps paths to files and directories (backend server).

    Modelling conventions.  A string is a sequence of code units, restricted
    to the range 0..255 (Rocq's [ascii]).  A JavaScript number is an exact
    rational, an infinity or NaN: rounding to binary64 is not modelled, and
    numeric page fields are integers (a JSON number with a fraction is outside
    the model, because printing it is a floating-point algorithm).  What is
    stated about the code through the value of a number is therefore stated
    for the integers that a number holds exactly ([JS.safeInteger]). *)

From Stdlib Require Import ZArith QArith String Ascii List Lia Bool.
From Stdlib Require Import Permutation Sorted DecimalString Lqa.
From Stdlib Require DecimalZ.
From stdpp Require Import base list.
Import ListNotations.

Set Warnings "-register-all".
Set Default Proof Using "Type".

(* ================================================================== *)
(** ** The JavaScript built-ins used by the code *)
(* ================================================================== *)

Module JS.

Local Open Scope string_scope.

(** [WhiteSpace] and [LineTerminator] code units below 256: TAB, LF, VT, FF,
    CR, SP and NBSP.  [trim], [parseInt] and [Number] all skip this set. *)
Definition isWhiteSpace (c : ascii) : bool :=
  let n := nat_of_ascii c in
  (n =? 9)%nat || (n =? 10)%nat || (n =? 11)%nat || (n =? 12)%nat
  || (n =? 13)%nat || (n =? 32)%nat || (n =? 160)%nat.

Fixpoint trimStart (s : string) : string :=
  match s with
  | String c s' => if isWhiteSpace c then trimStart s' else s
  | EmptyString => EmptyString
  end.

Fixpoint trimEnd (s : string) : string :=
  match s with
  | EmptyString => EmptyString
  | String c s' =>
      match trimEnd s' with
      | EmptyString => if isWhiteSpace c then EmptyString else String c EmptyString
      | t => String c t
      end
  end.

(** [String.prototype.trim]. *)
Definition trim (s : string) : string := trimEnd (trimStart s).

(** [s.replace(/\n/g, ' ')]: every LINE FEED becomes one space. *)
Fixpoint replaceNewlines (s : string) : string :=
  match s with
  | EmptyString => EmptyString
  | String c s' =>
      String (if (nat_of_ascii c =? 10)%nat then " "%char else c) (replaceNewlines s')
  end.

(** ['-'.repeat(n)]. *)
Fixpoint repeatDash (n : nat) : string :=
  match n with
  | O => EmptyString
  | S k => String "-" (repeatDash k)
  end.

(** [lines.join(sep)]. *)
Definition join (sep : string) (lines : list string) : string :=
  String.concat sep lines.

(** The value of a digit of the given radix, if the code unit is one. *)
Definition digitValue (radix : Z) (c : ascii) : option Z :=
  let n := Z.of_nat (nat_of_ascii c) in
  let v :=
    if (48 <=? n)%Z && (n <=? 57)%Z then Some (n - 48)%Z
    else if (97 <=? n)%Z && (n <=? 102)%Z then Some (n - 87)%Z
    else if (65 <=? n)%Z && (n <=? 70)%Z then Some (n - 55)%Z
    else None in
  match v with
  | Some d => if (d <? radix)%Z then Some d else None
  | None => None
  end.

(** Reads the longest run of digits at the start of [s]: the value
    accumulated on top of [acc], the number of digits read, and the rest. *)
Fixpoint readDigits (radix : Z) (s : string) (acc : Z) (count : nat)
  : Z * nat * string :=
  match s with
  | String c s' =>
      match digitValue radix c with
      | Some d => readDigits radix s' (radix * acc + d)%Z (S count)
      | None => (acc, count, s)
      end
  | EmptyString => (acc, count, s)
  end.

(** An optional sign: [true] for a minus. *)
Definition readSign (s : string) : bool * string :=
  match s with
  | String "-" r => (true, r)
  | String "+" r => (false, r)
  | _ => (false, s)
  end.

(** The integers that a JavaScript number holds exactly, one and all:
    those of magnitude up to 2^53.  On them printing a number, [parseInt]
    and [Number] of a numeral are exact.  Beyond them the code rounds to
    binary64, and from 10^21 on it prints a number with an exponent; the
    definitions below do neither, so what is proved of the code about
    numbers is stated within this range. *)
Definition safeInteger (z : Z) : Prop := (- 2 ^ 53 <= z <= 2 ^ 53)%Z.

(** [parseInt(s, 10)] on a string: leading white space is skipped, then an
    optional sign, then the longest run of decimal digits; whatever follows
    is ignored.  [None] is NaN.  The value is the exact integer of the
    digits, which is the value of the code while it is a [safeInteger]. *)
Definition parseInt (s : string) : option Z :=
  let '(neg, body) := readSign (trimStart s) in
  let '(v, n, _) := readDigits 10 body 0 0 in
  match n with
  | O => None
  | S _ => Some (if neg then (- v)%Z else v)
  end.

(** The string of an integer-valued number, as a template literal and
    [parseInt]'s [ToString] step print it: the plain decimal numeral, which
    is what the code prints for a [safeInteger] (and for every integer that
    a number holds below 10^21). *)
Definition ToString (z : Z) : string := NilZero.string_of_int (Z.to_int z).

(** Numbers, as far as the sort comparator needs them. *)
Inductive jsnum : Type :=
| NaN
| NegInf
| Fin (q : Q)
| PosInf.

Definition ofZ (z : Z) : jsnum := Fin (inject_Z z).

(** [10^k] for any integer [k]. *)
Definition pow10 (k : Z) : Q :=
  if (0 <=? k)%Z then inject_Z (10 ^ k) else 1 # Z.to_pos (10 ^ (- k)).

(** [StrDecimalLiteral] without its sign: [Infinity], or digits with an
    optional fraction and an optional exponent, and nothing after. *)
Definition strUnsignedDecimalLiteral (s : string) : jsnum :=
  if String.eqb s "Infinity" then PosInf
  else
    let '(m1, n1, r1) := readDigits 10 s 0 0 in
    let '(m, n2, r2) :=
      match r1 with
      | String "." r => readDigits 10 r m1 0
      | _ => (m1, O, r1)
      end in
    if ((n1 + n2)%nat =? 0)%nat then NaN
    else
      match r2 with
      | EmptyString => Fin (Qred (inject_Z m * pow10 (- Z.of_nat n2)))
      | String c r =>
          if Ascii.eqb c "e" || Ascii.eqb c "E" then
            let '(eneg, ebody) := readSign r in
            let '(e, en, r3) := readDigits 10 ebody 0 0 in
            match en, r3 with
            | S _, EmptyString =>
                let e' := if eneg then (- e)%Z else e in
                Fin (Qred (inject_Z m * pow10 (e' - Z.of_nat n2)))
            | _, _ => NaN
            end
          else NaN
      end.

(** [0x], [0o] and [0b] literals: digits of the radix up to the end. *)
Definition nonDecimalIntegerLiteral (radix : Z) (digits : string) : jsnum :=
  let '(v, n, r) := readDigits radix digits 0 0 in
  match n, r with
  | S _, EmptyString => ofZ v
  | _, _ => NaN
  end.

Definition neg (x : jsnum) : jsnum :=
  match x with
  | NaN => NaN
  | NegInf => PosInf
  | Fin q => Fin (Qred (- q))
  | PosInf => NegInf
  end.

(** [StringToNumber], the string case of [Number(v)]: the exact value of
    the literal.  The code rounds this value to binary64, so the two agree
    when the value is a [safeInteger] (or no finite number). *)
Definition StringToNumber (s : string) : jsnum :=
  match trim s with
  | EmptyString => ofZ 0
  | String "0" (String "x" r) | String "0" (String "X" r) =>
      nonDecimalIntegerLiteral 16 r
  | String "0" (String "o" r) | String "0" (String "O" r) =>
      nonDecimalIntegerLiteral 8 r
  | String "0" (String "b" r) | String "0" (String "B" r) =>
      nonDecimalIntegerLiteral 2 r
  | String "-" r => neg (strUnsignedDecimalLiteral r)
  | String "+" r => strUnsignedDecimalLiteral r
  | t => strUnsignedDecimalLiteral t
  end.

(** [ToBoolean] on a number: NaN and zero are falsy. *)
Definition truthy (x : jsnum) : bool :=
  match x with
  | NaN => false
  | Fin q => negb (Qeq_bool q 0)
  | NegInf | PosInf => true
  end.

(** [x || d] on numbers. *)
Definition orElse (x d : jsnum) : jsnum := if truthy x then x else d.

(** [x - y]. *)
Definition sub (x y : jsnum) : jsnum :=
  match x, y with
  | NaN, _ | _, NaN => NaN
  | Fin a, Fin b => Fin (Qred (a - b))
  | PosInf, PosInf | NegInf, NegInf => NaN
  | PosInf, _ | _, NegInf => PosInf
  | NegInf, _ | _, PosInf => NegInf
  end.

(** [v > 0], the test by which a sort decides that two elements are out of
    order; a NaN from the comparator counts as [+0]. *)
Definition positive (v : jsnum) : bool :=
  match v with
  | Fin q => negb (Qle_bool q 0)
  | PosInf => true
  | NaN | NegInf => false
  end.

Section Sort.
Context {A : Type} (comparefn : A -> A -> jsnum).

(** [Array.prototype.sort(comparefn)] is a stable sort (ECMAScript 2019):
    for a consistent comparator its result is the one stable arrangement,
    which insertion from the right computes. *)
Fixpoint sortInsert (x : A) (sorted : list A) : list A :=
  match sorted with
  | [] => [x]
  | y :: rest =>
      if positive (comparefn x y) then y :: sortInsert x rest
      else x :: y :: rest
  end.

Fixpoint sort (l : list A) : list A :=
  match l with
  | [] => []
  | x :: rest => sortInsert x (sort rest)
  end.

(** [a] may stand before [b]: the comparator does not put them out of
    order. *)
Definition inOrder (a b : A) : Prop := positive (comparefn a b) = false.
End Sort.

End JS.

(* ================================================================== *)
(** ** The outline serializer (backend) *)
(* ================================================================== *)

Module Serializer.
Import JS.

Local Open Scope string_scope.

(** The [page] field of a bookmark as the request body can carry it: absent,
    [null], a boolean, an integer number or a string. *)
Inductive PageField : Type :=
| PageAbsent
| PageNull
| PageBool (b : bool)
| PageNum (z : Z)
| PageStr (s : string).

(** A bookmark of the request body.  [title] is a string, or [None] when
    the field is absent or [null]; [children] is [None] when the field is
    absent or is not an array ([Array.isArray] fails). *)
Inductive Bookmark : Type :=
  mkBookmark {
    title : option string;
    page : PageField;
    children : option (list Bookmark)
  }.

(** [Number(v)]. *)
Definition Number (v : PageField) : jsnum :=
  match v with
  | PageAbsent => NaN
  | PageNull => ofZ 0
  | PageBool b => ofZ (if b then 1 else 0)
  | PageNum z => ofZ z
  | PageStr s => StringToNumber s
  end.

(** [parseInt(v, 10)]: the value is first turned into a string. *)
Definition parseInt10 (v : PageField) : option Z :=
  parseInt
    match v with
    | PageAbsent => "undefined"
    | PageNull => "null"
    | PageBool b => if b then "true" else "false"
    | PageNum z => ToString z
    | PageStr s => s
    end.

(** [Number(n.page) || 0], the sort key. *)
Definition sortKey (n : Bookmark) : jsnum := orElse (Number (page n)) (ofZ 0).

(** The comparator [(a, b) => (Number(a.page) || 0) - (Number(b.page) || 0)]. *)
Definition byPage (a b : Bookmark) : jsnum := sub (sortKey a) (sortKey b).

(** Nesting depth of a forest, the recursion depth of [sortBookmarksByPage]. *)
Fixpoint nodeDepth (n : Bookmark) : nat :=
  match children n with
  | Some ch => S (fold_right (fun c d => Nat.max (nodeDepth c) d) O ch)
  | None => O
  end.

Definition forestDepth (nodes : list Bookmark) : nat :=
  fold_right (fun c d => Nat.max (nodeDepth c) d) O nodes.

(** The callback of [.map] in [sortBookmarksByPage], with the recursive call
    as [rec]:
    [n => ({...n, children: Array.isArray(n.children) ? rec(n.children) : []})]. *)
Definition withSorted (rec : list Bookmark -> list Bookmark) (n : Bookmark)
  : Bookmark :=
  {| title := title n;
     page := page n;
     children := Some match children n with
                      | Some ch => rec ch
                      | None => []
                      end |}.

(** [sortBookmarksByPage], with the recursion depth as fuel:
    [nodes.slice().sort(byPage).map(n => ({...n, children: ...}))].
    The recursion follows the sorted copy, so it is not structural; the
    equation of the source is [sortBookmarksByPage_eq] below. *)
Fixpoint sortBookmarksByPage_fuel (fuel : nat) (nodes : list Bookmark)
  : list Bookmark :=
  match fuel with
  | O => []
  | S fuel' => map (withSorted (sortBookmarksByPage_fuel fuel')) (sort byPage nodes)
  end.

Definition sortBookmarksByPage (nodes : list Bookmark) : list Bookmark :=
  sortBookmarksByPage_fuel (S (forestDepth nodes)) nodes.

(** [parseInt(b.page, 10) || 1], the page number printed. *)
Definition printedPage (b : Bookmark) : Z :=
  match parseInt10 (page b) with
  | Some z => if (z =? 0)%Z then 1%Z else z
  | None => 1%Z
  end.

(** [(b.title || '').replace(/\n/g, ' ')]. *)
Definition printedTitle (b : Bookmark) : string :=
  replaceNewlines match title b with Some t => t | None => "" end.

(** The template literal [`${page}|${depthMarkers}|${title}`]. *)
Definition printedLine (depth : nat) (b : Bookmark) : string :=
  ToString (printedPage b) ++ "|" ++ repeatDash depth ++ "|" ++ printedTitle b.

(** The callback of [bookmarks.forEach] in [buildPrintedOutline]: it pushes
    the bookmark's line and then, when [b.children] is a non-empty array,
    runs [buildPrintedOutline(b.children, depth + 1, lines)], whose loop is
    the inner [forEach] here ([pushBookmark_eq] below states it with the
    call).  [lines] is the accumulator array that all calls share. *)
Fixpoint pushBookmark (depth : nat) (b : Bookmark) (lines : list string)
  : list string :=
  let lines1 := (lines ++ [printedLine depth b])%list in
  match children b with
  | Some ch =>
      if (0 <? length ch)%nat then
        (fix forEach (bs : list Bookmark) (acc : list string) : list string :=
           match bs with
           | [] => acc
           | b' :: bs' => forEach bs' (pushBookmark (S depth) b' acc)
           end) ch lines1
      else lines1
  | None => lines1
  end.

(** [bookmarks.forEach(b => ...)] over the accumulator. *)
Definition forEachPush (depth : nat) (bookmarks : list Bookmark)
  (lines : list string) : list string :=
  fold_left (fun acc b => pushBookmark depth b acc) bookmarks lines.

(** [buildPrintedOutline(bookmarks, depth, lines)]: the accumulator after
    the loop, and the returned string [lines.join('\n')]. *)
Definition buildPrintedOutline (bookmarks : list Bookmark) (depth : nat)
  (lines : list string) : list string * string :=
  let lines' := forEachPush depth bookmarks lines in
  (lines', join (String "010" EmptyString) lines').

(** The outline of [/api/process]: [bookmarks] is [None] when the body's
    field is not an array.
    [normalized = Array.isArray(bookmarks) ? sortBookmarksByPage(bookmarks) : []];
    [printedOutline = normalized.length > 0 ? buildPrintedOutline(normalized) : '']. *)
Definition printedOutline (bookmarks : option (list Bookmark)) : string :=
  let normalized :=
    match bookmarks with
    | Some bs => sortBookmarksByPage bs
    | None => []
    end in
  if (0 <? length normalized)%nat then snd (buildPrintedOutline normalized 0 [])
  else "".

(** Serialization of a forest. *)
Definition serialize (forest : list Bookmark) : string :=
  printedOutline (Some forest).

End Serializer.

(* ================================================================== *)
(** ** The bookmark tree store (frontend) *)
(* ================================================================== *)

Module Store.
Import JS.

Local Open Scope string_scope.
Local Open Scope list_scope.

(** A bookmark node of the editor: [{ id, title, page, children }]. *)
Inductive Node : Type :=
  mkNode {
    id : string;
    title : string;
    page : Z;
    children : list Node
  }.

(** [createNode(title, page)]; [uuid] is the value [uuidv4()] returns. *)
Definition createNode (uuid : string) (title : string) (page : Z) : Node :=
  {| id := uuid; title := title; page := page; children := [] |}.

Definition withChildren (ch : list Node) (n : Node) : Node :=
  {| id := id n; title := title n; page := page n; children := ch |}.

(** [JSON.parse(JSON.stringify(t))]: a fresh structure with the same
    fields. *)
Fixpoint copyNode (n : Node) : Node :=
  {| id := id n; title := title n; page := page n;
     children := map copyNode (children n) |}.

Definition deepCopy (t : list Node) : list Node := map copyNode t.

(** The callback of [findAndOperate]: it receives the array and the index of
    the match, and mutates the array; here it returns the array afterwards. *)
Definition Op : Type := list Node -> nat -> list Node.

Section FindAndOperate.
Variable target : string.
Variable op : Op.

Section Loop.
(** [findAndOperate(n.children, id, op)] for a node [n] of the array:
    whether the id was found below [n], and [n] afterwards. *)
Variable below : Node -> bool * Node.

(** The [for] loop of [findAndOperate], at index [length done]:
    [done] holds the elements already passed, [rest] those to come. *)
Fixpoint scan (done rest : list Node) : bool * list Node :=
  match rest with
  | [] => (false, done)
  | n :: rest' =>
      if String.eqb (id n) target then (true, op (done ++ n :: rest') (length done))
      else if (0 <? length (children n))%nat then
        let '(found, n') := below n in
        if found then (true, done ++ n' :: rest')
        else scan (done ++ [n]) rest'
      else scan (done ++ [n]) rest'
  end.
End Loop.

Fixpoint findBelow (n : Node) : bool * Node :=
  let '(found, ch) := scan findBelow [] (children n) in
  (found, withChildren ch n).

End FindAndOperate.

(** [findAndOperate(nodes, id, op)]: the returned flag and the array
    afterwards. *)
Definition findAndOperate (nodes : list Node) (target : string) (op : Op)
  : bool * list Node :=
  scan target op (findBelow target op) [] nodes.

(** [arr[idx].children.push(node)]. *)
Definition pushChildOp (node : Node) : Op :=
  fun arr idx => alter (fun p => withChildren (children p ++ [node]) p) idx arr.

(** [arr[i].title = title; arr[i].page = page]. *)
Definition editOp (newTitle : string) (newPage : Z) : Op :=
  fun arr i =>
    alter (fun n => {| id := id n; title := newTitle; page := newPage;
                       children := children n |}) i arr.

(** [arr.splice(i, 1)]. *)
Definition spliceOp : Op := fun arr i => delete i arr.

(** [copy.findIndex(n => n.id === id)]; [None] is [-1]. *)
Fixpoint findIndex (target : string) (nodes : list Node) : option nat :=
  match nodes with
  | [] => None
  | n :: rest =>
      if String.eqb (id n) target then Some O
      else option_map S (findIndex target rest)
  end.

Inductive ModalMode : Type := AddRoot | AddChild | Edit.
Inductive ToastType : Type := Info | Error.

(** A toast, without its own id and its dismissal timer. *)
Record Toast : Type := mkToast { message : string; type : ToastType }.

(** The state of [App] that the tree operations read and write. *)
Record AppState : Type :=
  mkApp {
    tree : list Node;
    numPages : option Z;
    modalOpen : bool;
    modalMode : ModalMode;
    modalParentId : option string;
    editingId : option string;
    formTitle : string;
    formPage : string;
    toasts : list Toast
  }.

Definition setTree (t : list Node) (st : AppState) : AppState :=
  mkApp t (numPages st) (modalOpen st) (modalMode st) (modalParentId st)
        (editingId st) (formTitle st) (formPage st) (toasts st).

Definition setNumPages (n : option Z) (st : AppState) : AppState :=
  mkApp (tree st) n (modalOpen st) (modalMode st) (modalParentId st)
        (editingId st) (formTitle st) (formPage st) (toasts st).

Definition setModalOpen (b : bool) (st : AppState) : AppState :=
  mkApp (tree st) (numPages st) b (modalMode st) (modalParentId st)
        (editingId st) (formTitle st) (formPage st) (toasts st).

(** [showToast(message, type)]. *)
Definition showToast (msg : string) (ty : ToastType) (st : AppState) : AppState :=
  mkApp (tree st) (numPages st) (modalOpen st) (modalMode st) (modalParentId st)
        (editingId st) (formTitle st) (formPage st) (toasts st ++ [mkToast msg ty]).

(** Truthiness of an id held in the state: [null] and [''] are falsy. *)
Definition truthyId (i : option string) : option string :=
  match i with
  | Some s => if String.eqb s "" then None else Some s
  | None => None
  end.

(** The test of [saveModal]:
    [!title || !page || page < 1 || (numPages ? page > numPages : false)]. *)
Definition rejected (title : string) (page : option Z) (numPages : option Z) : bool :=
  String.eqb title ""
  || match page with
     | None => true
     | Some p =>
         (p =? 0)%Z || (p <? 1)%Z
         || match numPages with
            | Some n => if (n =? 0)%Z then false else (n <? p)%Z
            | None => false
            end
     end.

(** The branches of [saveModal] once the form is valid, with the trimmed
    [title] and the parsed [page]; [uuid] is what [uuidv4()] returns inside
    [createNode].  The [else if] chain tests [modalParentId] and [editingId]
    for truthiness. *)
Definition commit (uuid : string) (title : string) (page : Z) (st : AppState)
  : AppState :=
  let st' :=
    match modalMode st, truthyId (modalParentId st), truthyId (editingId st) with
    | AddRoot, _, _ =>
        showToast "Bookmark added" Info
          (setTree (tree st ++ [createNode uuid title page]) st)
    | AddChild, Some parentId, _ =>
        let node := createNode uuid title page in
        let copy := deepCopy (tree st) in
        showToast "Child bookmark added" Info
          (setTree (snd (findAndOperate copy parentId (pushChildOp node))) st)
    | Edit, _, Some editing =>
        let copy := deepCopy (tree st) in
        showToast "Bookmark updated" Info
          (setTree (snd (findAndOperate copy editing (editOp title page))) st)
    | _, _, _ => st
    end in
  setModalOpen false st'.

(** [saveModal()]. *)
Definition saveModal (uuid : string) (st : AppState) : AppState :=
  let title := trim (formTitle st) in
  let page := parseInt (formPage st) in
  if rejected title page (numPages st) then
    showToast "Please provide a valid title and page number" Error st
  else
    commit uuid title (match page with Some p => p | None => 0%Z end) st.

(** [removeNode(id)]. *)
Definition removeNode (target : string) (st : AppState) : AppState :=
  let copy := deepCopy (tree st) in
  let tree' :=
    match findIndex target copy with
    | Some idx => spliceOp copy idx
    | None => snd (findAndOperate copy target spliceOp)
    end in
  showToast "Bookmark removed" Info (setTree tree' st).

(** *** Import of the document's own outline *)

(** A promise that resolves with a value or rejects. *)
Inductive Outcome (A : Type) : Type :=
| Resolves (a : A)
| Rejects.
Arguments Resolves {A} a.
Arguments Rejects {A}.

(** A page reference of the document, [{ num, gen }]. *)
Record Ref : Type := mkRef { num : Z; gen : Z }.

(** An element of an explicit destination: a reference object, or anything
    else (a number, a name, [null]). *)
Inductive DestElem : Type :=
| ElemRef (ref : Ref)
| ElemOther.

(** [it.dest]: absent or [null], a named destination, or an explicit one. *)
Inductive Dest : Type :=
| DestAbsent
| DestNamed (name : string)
| DestExplicit (explicit : list DestElem).

(** What the import uses of the loaded document ([pdf]). *)
Record DocumentProxy : Type :=
  mkDoc {
    docNumPages : Z;
    getDestination : string -> Outcome (option (list DestElem));
    getPageIndex : Ref -> Outcome Z
  }.

(** An item of [pdf.getOutline()]. *)
Inductive OutlineItem : Type :=
  mkItem {
    itemTitle : option string;
    dest : Dest;
    items : list OutlineItem
  }.

(** The part of [destToPageNumber] after [explicit] is known. *)
Definition explicitToPageNumber (doc : DocumentProxy) (explicit : list DestElem)
  : option Z :=
  match explicit with
  | ElemRef ref :: _ =>
      match getPageIndex doc ref with
      | Resolves idx => Some (idx + 1)%Z
      | Rejects => None
      end
  | _ => None
  end.

(** [destToPageNumber(documentProxy, dest)]; [None] is [null]. *)
Definition destToPageNumber (doc : DocumentProxy) (d : Dest) : option Z :=
  match d with
  | DestAbsent => None
  | DestNamed name =>
      if String.eqb name "" then None
      else
        match getDestination doc name with
        | Resolves (Some explicit) => explicitToPageNumber doc explicit
        | Resolves None => None
        | Rejects => None
        end
  | DestExplicit explicit => explicitToPageNumber doc explicit
  end.

(** [totalPages = pdf?.numPages || 1]. *)
Definition totalPagesOf (doc : DocumentProxy) : Z :=
  if (docNumPages doc =? 0)%Z then 1%Z else docNumPages doc.

(** [page && page >= 1 && page <= totalPages ? page : 1]. *)
Definition safePage (totalPages : Z) (page : option Z) : Z :=
  match page with
  | Some p =>
      if negb (p =? 0)%Z && (1 <=? p)%Z && (p <=? totalPages)%Z then p else 1%Z
  | None => 1%Z
  end.

(** [(it.title || '').trim() || 'Untitled']. *)
Definition importedTitle (t : option string) : string :=
  let s := trim match t with Some s => s | None => "" end in
  if String.eqb s "" then "Untitled" else s.

Section MapOutline.
Variable doc : DocumentProxy.
(** The ids [uuidv4()] hands out, in the order of the calls. *)
Variable uuids : nat -> string.

Section Items.
Variable mapItem : OutlineItem -> nat -> Node * nat.

Fixpoint mapItems (its : list OutlineItem) (k : nat) : list Node * nat :=
  match its with
  | [] => ([], k)
  | it :: rest =>
      let '(n, k1) := mapItem it k in
      let '(ns, k2) := mapItems rest k1 in
      (n :: ns, k2)
  end.
End Items.

(** The callback of [items.map] in [mapOutline]; [k] counts the ids used.
    The ids are drawn in pre-order here; the callbacks of [Promise.all] may
    call [uuidv4] in another order, which only changes which of the fresh
    ids a node gets. *)
Fixpoint mapItem (it : OutlineItem) (k : nat) : Node * nat :=
  let page := destToPageNumber doc (dest it) in
  let node := createNode (uuids k) (importedTitle (itemTitle it))
                         (safePage (totalPagesOf doc) page) in
  let '(ch, k') := mapItems mapItem (items it) (S k) in
  (withChildren ch node, k').

(** [mapOutline(items)]. *)
Definition mapOutline (its : list OutlineItem) (k : nat) : list Node * nat :=
  mapItems mapItem its k.
End MapOutline.

(** [strip(node)] of [downloadProcessed], followed by the JSON round trip of
    the request: ids are dropped, and [children] is only set when non-empty. *)
Fixpoint strip (n : Node) : Serializer.Bookmark :=
  {| Serializer.title := Some (title n);
     Serializer.page := Serializer.PageNum (page n);
     Serializer.children :=
       match children n with
       | [] => None
       | _ :: _ => Some (map strip (children n))
       end |}.

(** The descriptor a download submits for the current tree. *)
Definition descriptor (st : AppState) : string :=
  Serializer.serialize (map strip (tree st)).

End Store.

(* ================================================================== *)
(** ** Notions the properties are stated with *)
(* ================================================================== *)

Module Outline.
Import JS Serializer.

Local Open Scope string_scope.

(** The numeric order of two numbers; NaN is not comparable. *)
Definition numLeb (x y : jsnum) : bool :=
  match x, y with
  | NaN, _ | _, NaN => false
  | NegInf, _ => true
  | _, PosInf => true
  | Fin a, Fin b => Qle_bool a b
  | _, _ => false
  end.

Definition numLe (x y : jsnum) : Prop := numLeb x y = true.

(** Two numbers with the same value. *)
Definition sameNum (x y : jsnum) : bool := numLeb x y && numLeb y x.

(** Siblings in ascending order of their sort keys. *)
Definition ascending (siblings : list Bookmark) : Prop :=
  StronglySorted (fun a b => numLe (sortKey a) (sortKey b)) siblings.

(** [arranged] is a stable rearrangement of [siblings]: the same elements,
    and for every key the elements with that key are in their prior order. *)
Definition stableRearrangement (siblings arranged : list Bookmark) : Prop :=
  Permutation siblings arranged
  /\ forall k : jsnum,
       List.filter (fun n => sameNum (sortKey n) k) arranged
       = List.filter (fun n => sameNum (sortKey n) k) siblings.

(** The siblings of a node: its [children] when that is an array. *)
Definition siblingsBelow (n : Bookmark) : list Bookmark :=
  match children n with
  | Some ch => ch
  | None => []
  end.

(** [out] is [forest] with the siblings of every level sorted by page:
    the root sequence is stably rearranged into ascending order, and each
    node keeps its title and page while its children are sorted likewise. *)
Inductive SortedByPage : list Bookmark -> list Bookmark -> Prop :=
| SortedByPage_level (forest arranged out : list Bookmark) :
    stableRearrangement forest arranged ->
    ascending arranged ->
    Forall2 SortedBelow arranged out ->
    SortedByPage forest out
with SortedBelow : Bookmark -> Bookmark -> Prop :=
| SortedBelow_node (n : Bookmark) (ch : list Bookmark) :
    SortedByPage (siblingsBelow n) ch ->
    SortedBelow n {| title := title n; page := page n; children := Some ch |}.

(** Number of nodes of a forest. *)
Fixpoint nodeSize (n : Bookmark) : nat :=
  S match children n with
    | Some ch => fold_right (fun c k => (nodeSize c + k)%nat) O ch
    | None => O
    end.

Definition forestSize (forest : list Bookmark) : nat :=
  fold_right (fun c k => (nodeSize c + k)%nat) O forest.

(** Pre-order traversal: a node with its depth, then its children one level
    deeper, then the next sibling. *)
Fixpoint preorderNode (depth : nat) (n : Bookmark) : list (nat * Bookmark) :=
  (depth, n)
  :: match children n with
     | Some ch => flat_map (preorderNode (S depth)) ch
     | None => []
     end.

Definition preorder (depth : nat) (forest : list Bookmark)
  : list (nat * Bookmark) :=
  flat_map (preorderNode depth) forest.

(** The line of a visited node. *)
Definition lineOf (visit : nat * Bookmark) : string :=
  printedLine (fst visit) (snd visit).

Definition newline : string := String "010" EmptyString.

(** Number of LINE FEED characters of a string. *)
Fixpoint countNewlines (s : string) : nat :=
  match s with
  | EmptyString => O
  | String c s' => ((if (nat_of_ascii c =? 10)%nat then 1 else 0) + countNewlines s')%nat
  end.

(** A page value that neither coercion of the serializer reads as a number:
    [Number] gives NaN and [parseInt] gives NaN. *)
Definition unparseable (p : PageField) : Prop :=
  Number p = NaN /\ parseInt10 p = None.

(** A key that the code holds as the definitions here do: no finite
    number, or a safe integer. *)
Definition exactNumber (x : jsnum) : Prop :=
  match x with
  | Fin q => exists z, safeInteger z /\ (q == inject_Z z)%Q
  | _ => True
  end.

(** A forest all of whose pages, on every level, are coerced to such a
    key. *)
Fixpoint exactNode (n : Bookmark) : Prop :=
  exactNumber (Number (page n))
  /\ match children n with
     | Some ch => fold_right (fun c rest => exactNode c /\ rest) True ch
     | None => True
     end.

Definition exactPages (forest : list Bookmark) : Prop :=
  fold_right (fun c rest => exactNode c /\ rest) True forest.

(** The page of a bookmark as a reader counts it: the integer of a numeric
    page, and 0 for a page that is missing. *)
Definition pageKey (n : Bookmark) : Z :=
  match page n with
  | PageNum z => z
  | _ => 0%Z
  end.

(** A page that is a number or is missing. *)
Definition plainShape (p : PageField) : bool :=
  match p with
  | PageNum _ | PageAbsent | PageNull => true
  | _ => false
  end.

(** A page that is a safe integer or is missing, and a forest of such pages
    on every level. *)
Definition plainPage (p : PageField) : Prop :=
  plainShape p = true
  /\ match p with PageNum z => safeInteger z | _ => True end.

Fixpoint plainNode (n : Bookmark) : Prop :=
  plainPage (page n)
  /\ match children n with
     | Some ch => fold_right (fun c rest => plainNode c /\ rest) True ch
     | None => True
     end.

Definition plainPages (forest : list Bookmark) : Prop :=
  fold_right (fun c rest => plainNode c /\ rest) True forest.

(** [out] is [forest] with the siblings of every level in ascending order
    of their integer pages, a missing page counting as 0, and siblings of
    equal pages in their prior order; every node keeps its title and its
    page. *)
Inductive SortedByInteger : list Bookmark -> list Bookmark -> Prop :=
| SortedByInteger_level (forest arranged out : list Bookmark) :
    Permutation forest arranged ->
    (forall k : Z,
        List.filter (fun n => (pageKey n =? k)%Z) arranged
        = List.filter (fun n => (pageKey n =? k)%Z) forest) ->
    StronglySorted (fun a b => (pageKey a <= pageKey b)%Z) arranged ->
    Forall2 IntegerSortedBelow arranged out ->
    SortedByInteger forest out
with IntegerSortedBelow : Bookmark -> Bookmark -> Prop :=
| IntegerSortedBelow_node (n : Bookmark) (ch : list Bookmark) :
    SortedByInteger (siblingsBelow n) ch ->
    IntegerSortedBelow n {| title := title n; page := page n; children := Some ch |}.

End Outline.

Module Forest.
Import JS Store.

Local Open Scope string_scope.
Local Open Scope list_scope.

(** The ids of a node and of everything below it, in pre-order. *)
Fixpoint nodeIds (n : Node) : list string :=
  id n :: flat_map nodeIds (children n).

Definition forestIds (forest : list Node) : list string :=
  flat_map nodeIds forest.

(** Number of nodes. *)
Fixpoint nodeCount (n : Node) : nat :=
  S (list_sum (map nodeCount (children n))).

Definition forestCount (forest : list Node) : nat :=
  list_sum (map nodeCount forest).

(** The first result of [g] along a list. *)
Fixpoint firstSome {A B : Type} (g : A -> option B) (l : list A) : option B :=
  match l with
  | [] => None
  | x :: l' =>
      match g x with
      | Some r => Some r
      | None => firstSome g l'
      end
  end.

(** The node with the given id: depth-first, pre-order, first match. *)
Fixpoint locateIn (target : string) (n : Node) : option Node :=
  if String.eqb (id n) target then Some n
  else firstSome (locateIn target) (children n).

Definition locate (target : string) (forest : list Node) : option Node :=
  firstSome (locateIn target) forest.

(** The forest without the nodes of the given id and without anything
    below them: what is left keeps its place, nothing moves up. *)
Fixpoint detachBelow (target : string) (n : Node) : Node :=
  withChildren
    (flat_map (fun c => if String.eqb (id c) target then []
                        else [detachBelow target c])
              (children n))
    n.

Definition detach (target : string) (forest : list Node) : list Node :=
  flat_map (fun c => if String.eqb (id c) target then []
                     else [detachBelow target c])
           forest.

(** The page count when the state knows one: [numPages] is [null] before a
    document is loaded, and [0] is as falsy as [null]. *)
Definition knownPageCount (st : AppState) : option Z :=
  match numPages st with
  | Some n => if (n =? 0)%Z then None else Some n
  | None => None
  end.

(** The code unit of a decimal digit. *)
Definition digitChar (d : Z) : ascii := ascii_of_nat (Z.to_nat (48 + d)).

(** A numeral, digit by digit, and its value. *)
Definition numeral (ds : list Z) : string :=
  string_of_list_ascii (map digitChar ds).

Definition numeralValue (ds : list Z) : Z :=
  fold_left (fun acc d => (10 * acc + d)%Z) ds 0%Z.

(** The digits of a decimal numeral of the Standard Library. *)
Fixpoint digitsOf (d : Decimal.uint) : list Z :=
  match d with
  | Decimal.Nil => []
  | Decimal.D0 d' => 0%Z :: digitsOf d'
  | Decimal.D1 d' => 1%Z :: digitsOf d'
  | Decimal.D2 d' => 2%Z :: digitsOf d'
  | Decimal.D3 d' => 3%Z :: digitsOf d'
  | Decimal.D4 d' => 4%Z :: digitsOf d'
  | Decimal.D5 d' => 5%Z :: digitsOf d'
  | Decimal.D6 d' => 6%Z :: digitsOf d'
  | Decimal.D7 d' => 7%Z :: digitsOf d'
  | Decimal.D8 d' => 8%Z :: digitsOf d'
  | Decimal.D9 d' => 9%Z :: digitsOf d'
  end.

(** Whether a string starts with a decimal digit. *)
Definition startsWithDigit (s : string) : bool :=
  match s with
  | String c _ => match digitValue 10 c with Some _ => true | None => false end
  | EmptyString => false
  end.

(** An explicit destination that gives no page of the document: it has no
    page reference in front, the lookup of the reference fails, or the page
    looked up is outside [1, numPages]. *)
Inductive NoPage (doc : DocumentProxy) : list DestElem -> Prop :=
| NoPage_empty : NoPage doc []
| NoPage_noReference (rest : list DestElem) : NoPage doc (ElemOther :: rest)
| NoPage_lookupFails (ref : Ref) (rest : list DestElem) :
    getPageIndex doc ref = Rejects -> NoPage doc (ElemRef ref :: rest)
| NoPage_outside (ref : Ref) (rest : list DestElem) (idx : Z) :
    getPageIndex doc ref = Resolves idx ->
    (idx + 1 < 1 \/ docNumPages doc < idx + 1)%Z ->
    NoPage doc (ElemRef ref :: rest).

(** A destination that cannot be resolved to a page of the document: it is
    absent, its name is empty, unknown to the document or bound to nothing,
    or the explicit destination behind it gives no page. *)
Inductive Unresolved (doc : DocumentProxy) : Dest -> Prop :=
| Unresolved_absent : Unresolved doc DestAbsent
| Unresolved_emptyName : Unresolved doc (DestNamed "")
| Unresolved_unknownName (name : string) :
    getDestination doc name = Rejects -> Unresolved doc (DestNamed name)
| Unresolved_nullName (name : string) :
    getDestination doc name = Resolves None -> Unresolved doc (DestNamed name)
| Unresolved_named (name : string) (explicit : list DestElem) :
    getDestination doc name = Resolves (Some explicit) ->
    NoPage doc explicit -> Unresolved doc (DestNamed name)
| Unresolved_explicit (explicit : list DestElem) :
    NoPage doc explicit -> Unresolved doc (DestExplicit explicit).

(** A destination whose page reference the document looks up as the page
    with the given number (the index of the page plus one). *)
Inductive PageOf (doc : DocumentProxy) : Dest -> Z -> Prop :=
| PageOf_explicit (ref : Ref) (rest : list DestElem) (idx : Z) :
    getPageIndex doc ref = Resolves idx ->
    PageOf doc (DestExplicit (ElemRef ref :: rest)) (idx + 1)
| PageOf_named (name : string) (ref : Ref) (rest : list DestElem) (idx : Z) :
    name <> "" ->
    getDestination doc name = Resolves (Some (ElemRef ref :: rest)) ->
    getPageIndex doc ref = Resolves idx ->
    PageOf doc (DestNamed name) (idx + 1).

(** The title of an item is empty once trimmed (or absent). *)
Definition blankTitle (it : OutlineItem) : Prop :=
  trim match itemTitle it with Some t => t | None => "" end = "".

(** A node imported from an item: page 1 when the destination of the item
    cannot be resolved or gives a page outside [1, numPages], the page
    looked up when it lies within; title "Untitled" when the title of the
    item is blank, the trimmed title otherwise; and children imported from
    the nested items, one for one. *)
Inductive ImportedFrom (doc : DocumentProxy) : OutlineItem -> Node -> Prop :=
| ImportedFrom_item (it : OutlineItem) (n : Node) :
    (Unresolved doc (dest it) -> page n = 1%Z) ->
    (forall p, PageOf doc (dest it) p -> (1 <= p <= docNumPages doc)%Z ->
               page n = p) ->
    (blankTitle it -> title n = "Untitled") ->
    (forall t, itemTitle it = Some t -> trim t <> "" -> title n = trim t) ->
    Forall2 (ImportedFrom doc) (items it) (children n) ->
    ImportedFrom doc it n.

(** A state with the forest A(children: B, C). *)
Definition nodeB : Node := createNode "id-b" "B" 2.
Definition nodeC : Node := createNode "id-c" "C" 3.
Definition nodeA : Node := withChildren [nodeB; nodeC] (createNode "id-a" "A" 1).

(** The state with that forest, a document of 10 pages and the modal open
    in the given mode on the given form. *)
Definition sampleForm (mode : ModalMode) (parent editing : option string)
  (formTitle formPage : string) : AppState :=
  {| tree := [nodeA]; numPages := Some 10%Z; modalOpen := true;
     modalMode := mode; modalParentId := parent; editingId := editing;
     formTitle := formTitle; formPage := formPage; toasts := [] |}.

Definition sampleState : AppState := sampleForm AddRoot None None "" "1".

(** An operation reported a failure: it added a toast of type [Error]. *)
Definition isError (t : Toast) : bool :=
  match type t with Error => true | Info => false end.

Definition reportsFailure (before after : AppState) : bool :=
  (length (List.filter isError (toasts before))
   <? length (List.filter isError (toasts after)))%nat.

End Forest.

(* ================================================================== *)
(** ** The serializer over a store of objects and arrays *)
(* ================================================================== *)

Module Heap.
Import JS Serializer.

Local Open Scope string_scope.
Local Open Scope list_scope.

(** A location of the store. *)
Abbreviation loc := nat.

(** What a location holds: a bookmark object (its [children] field holds a
    reference, or is absent or a primitive), an array of references to
    objects, or an array of strings. *)
Inductive Cell : Type :=
| Obj (title : option string) (page : PageField) (children : option loc)
| Arr (elems : list loc)
| Lines (elems : list string).

(** The store: cell [l] is what location [l] holds; a new object or array
    takes the next location. *)
Abbreviation heap := (list Cell).

Definition alloc (h : heap) (c : Cell) : heap * loc := (h ++ [c], length h).

Definition write (h : heap) (l : loc) (c : Cell) : heap := <[l := c]> h.

(** [a.page] for the object at [a]. *)
Definition pageAt (h : heap) (a : loc) : PageField :=
  match h !! a with
  | Some (Obj _ p _) => p
  | _ => PageAbsent
  end.

(** The comparator, on references. *)
Definition byPageAt (h : heap) (a b : loc) : jsnum :=
  sub (orElse (Number (pageAt h a)) (ofZ 0)) (orElse (Number (pageAt h b)) (ofZ 0)).

Section MapNodes.
(** The recursive call [sortBookmarksByPage(n.children)]. *)
Variable rec : heap -> loc -> option (heap * loc).

(** The callback of [.map]: a new object with the fields of [n] and, as
    [children], the sorted copy of [n.children] or a new empty array.  The
    new object takes its location once its [children] are there. *)
Definition spreadNode (h : heap) (n : loc) : option (heap * loc) :=
  match h !! n with
  | Some (Obj t p c) =>
      let sortedChildren :=
        match c with
        | Some lc =>
            match h !! lc with
            | Some (Arr _) => rec h lc
            | _ => Some (alloc h (Arr []))
            end
        | None => Some (alloc h (Arr []))
        end in
      match sortedChildren with
      | Some (h1, ch) => Some (alloc h1 (Obj t p (Some ch)))
      | None => None
      end
  | _ => None
  end.

(** The loop of [.map] over the elements, collecting the new objects. *)
Fixpoint mapNodes (h : heap) (elems : list loc) : option (heap * list loc) :=
  match elems with
  | [] => Some (h, [])
  | n :: rest =>
      match spreadNode h n with
      | Some (h1, n') =>
          match mapNodes h1 rest with
          | Some (h2, out) => Some (h2, n' :: out)
          | None => None
          end
      | None => None
      end
  end.
End MapNodes.

(** [sortBookmarksByPage(nodes)]: [slice] allocates a copy, [sort] rewrites
    the copy in place, [map] allocates the result.  [None] when the fuel
    runs out or a reference does not hold what the code expects. *)
Fixpoint sortBookmarksByPage (fuel : nat) (h : heap) (nodes : loc)
  : option (heap * loc) :=
  match fuel with
  | O => None
  | S fuel' =>
      match h !! nodes with
      | Some (Arr elems) =>
          let '(h1, copy) := alloc h (Arr elems) in
          let h2 := write h1 copy (Arr (sort (byPageAt h1) elems)) in
          match h2 !! copy with
          | Some (Arr sorted) =>
              match mapNodes (sortBookmarksByPage fuel') h2 sorted with
              | Some (h3, out) => Some (alloc h3 (Arr out))
              | None => None
              end
          | _ => None
          end
      | _ => None
      end
  end.

Section ForEach.
(** The recursive call [buildPrintedOutline(b.children, depth + 1, lines)],
    for its effect on the store. *)
Variable rec : heap -> loc -> nat -> loc -> option heap.

(** [lines.push(s)]. *)
Definition pushLine (h : heap) (lines : loc) (s : string) : option heap :=
  match h !! lines with
  | Some (Lines ls) => Some (write h lines (Lines (ls ++ [s])))
  | _ => None
  end.

(** The callback of [bookmarks.forEach]; the line is made of the title and
    the page of the object. *)
Definition visit (depth : nat) (lines : loc) (h : heap) (b : loc) : option heap :=
  match h !! b with
  | Some (Obj t p c) =>
      match pushLine h lines (printedLine depth (mkBookmark t p None)) with
      | Some h1 =>
          match c with
          | Some lc =>
              match h1 !! lc with
              | Some (Arr ch) =>
                  if (0 <? length ch)%nat then rec h1 lc (S depth) lines
                  else Some h1
              | _ => Some h1
              end
          | None => Some h1
          end
      | None => None
      end
  | _ => None
  end.

Fixpoint forEach (depth : nat) (lines : loc) (h : heap) (elems : list loc)
  : option heap :=
  match elems with
  | [] => Some h
  | b :: rest =>
      match visit depth lines h b with
      | Some h1 => forEach depth lines h1 rest
      | None => None
      end
  end.
End ForEach.

(** [buildPrintedOutline(bookmarks, depth, lines)]: the store afterwards and
    the returned string. *)
Fixpoint buildPrintedOutline (fuel : nat) (h : heap) (bookmarks : loc)
  (depth : nat) (lines : loc) : option (heap * string) :=
  match fuel with
  | O => None
  | S fuel' =>
      match h !! bookmarks with
      | Some (Arr elems) =>
          match forEach (fun h' b d l =>
                           option_map fst (buildPrintedOutline fuel' h' b d l))
                        depth lines h elems with
          | Some h1 =>
              match h1 !! lines with
              | Some (Lines ls) => Some (h1, join (String "010" EmptyString) ls)
              | _ => None
              end
          | None => None
          end
      | _ => None
      end
  end.

(** The outline of [/api/process] for the parsed body: [bookmarks] is the
    reference the field holds, if it holds one. *)
Definition printedOutline (fuel : nat) (h : heap) (bookmarks : option loc)
  : option (heap * string) :=
  let normalized :=
    match bookmarks with
    | Some l =>
        match h !! l with
        | Some (Arr _) => sortBookmarksByPage fuel h l
        | _ => Some (alloc h (Arr []))
        end
    | None => Some (alloc h (Arr []))
    end in
  match normalized with
  | Some (h1, norm) =>
      match h1 !! norm with
      | Some (Arr elems) =>
          if (0 <? length elems)%nat then
            let '(h2, lines) := alloc h1 (Lines []) in
            buildPrintedOutline fuel h2 norm 0 lines
          else Some (h1, "")
      | _ => None
      end
  | None => None
  end.

(** The [children] field of an object is no array: it is absent, or refers to
    something else. *)
Definition notArray (h : heap) (c : option loc) : Prop :=
  match c with
  | None => True
  | Some lc => exists cell, h !! lc = Some cell /\ forall ls, cell <> Arr ls
  end.

(** The object at a location is a given bookmark, with everything below. *)
Inductive ReprNode (h : heap) : Bookmark -> loc -> Prop :=
| ReprNode_leaf (t : option string) (p : PageField) (c : option loc) (l : loc) :
    h !! l = Some (Obj t p c) ->
    notArray h c ->
    ReprNode h (mkBookmark t p None) l
| ReprNode_inner (t : option string) (p : PageField) (ch : list Bookmark)
    (lc : loc) (ls : list loc) (l : loc) :
    h !! l = Some (Obj t p (Some lc)) ->
    h !! lc = Some (Arr ls) ->
    Forall2 (ReprNode h) ch ls ->
    ReprNode h (mkBookmark t p (Some ch)) l.

(** The array at a location is a given forest. *)
Definition ReprForest (h : heap) (forest : list Bookmark) (l : loc) : Prop :=
  exists ls, h !! l = Some (Arr ls) /\ Forall2 (ReprNode h) forest ls.

(** Every location of [h] holds in [h'] what it holds in [h]: nothing that
    existed was mutated. *)
Definition unchanged (h h' : heap) : Prop :=
  forall l c, h !! l = Some c -> h' !! l = Some c.

(** Every object and every array of objects of [h] is the same in [h'], and
    an array of strings is still one: what [lines.push] allows. *)
Definition sameObjects (h h' : heap) : Prop :=
  forall l c,
    h !! l = Some c ->
    match c with
    | Lines _ => exists ls, h' !! l = Some (Lines ls)
    | _ => h' !! l = Some c
    end.

(** A store with the forest Root(Child(Grandchild)), Other at location 6. *)
Definition sampleHeap : heap :=
  [ Obj (Some "Grandchild") (PageNum 3) None;
    Arr [0%nat];
    Obj (Some "Child") (PageNum 2) (Some 1%nat);
    Arr [2%nat];
    Obj (Some "Root") (PageNum 4) (Some 3%nat);
    Obj (Some "Other") (PageNum 1) None;
    Arr [4%nat; 5%nat] ].

Definition sampleForest : list Bookmark :=
  [ mkBookmark (Some "Root") (PageNum 4)
      (Some [ mkBookmark (Some "Child") (PageNum 2)
                (Some [ mkBookmark (Some "Grandchild") (PageNum 3) None ]) ]);
    mkBookmark (Some "Other") (PageNum 1) None ].

End Heap.

(* ================================================================== *)
(** ** What a reader of the descriptor relies on *)
(* ================================================================== *)

Module Descriptor.
Import JS Serializer Outline.

Local Open Scope string_scope.

(** What a line says: the page printed, the depth and the title printed. *)
Definition entryOf (visit : nat * Bookmark) : Z * nat * string :=
  (printedPage (snd visit), fst visit, printedTitle (snd visit)).

(** The line that says an entry: [<page>|<dashes>|<title>]. *)
Definition entryLine (e : Z * nat * string) : string :=
  ToString (fst (fst e)) ++ "|" ++ repeatDash (snd (fst e)) ++ "|" ++ snd e.

(** The entries of the descriptor of a forest, in the order of its lines. *)
Definition entries (forest : list Bookmark) : list (Z * nat * string) :=
  map entryOf (preorder 0 (sortBookmarksByPage forest)).

(** Depths that a reader can rebuild a tree from: each one is at most one
    more than the one before. *)
Fixpoint risesByOne (depths : list nat) : Prop :=
  match depths with
  | a :: (b :: _) as rest => (b <= S a)%nat /\ risesByOne rest
  | _ => True
  end.

(** The depths of a block of the traversal at depth [d]: it starts at [d],
    stays at [d] or below it in the tree, and rises by one at most. *)
Definition blockAt (d : nat) (depths : list nat) : Prop :=
  match depths with [] => True | a :: _ => a = d end
  /\ Forall (fun x => (d <= x)%nat) depths
  /\ risesByOne depths.

(** A string without the given character. *)
Fixpoint lacks (c : ascii) (s : string) : Prop :=
  match s with
  | EmptyString => True
  | String x s' => x <> c /\ lacks c s'
  end.

(** Siblings with pairwise different sort keys. *)
Fixpoint distinctKeys (siblings : list Bookmark) : Prop :=
  match siblings with
  | nil => True
  | cons a rest =>
      Forall (fun b => sameNum (sortKey a) (sortKey b) = false) rest
      /\ distinctKeys rest
  end.

End Descriptor.

(* ================================================================== *)
(** ** The editor around the tree store (frontend) *)
(* ================================================================== *)

Module Editor.
Import JS Store Forest.

Local Open Scope string_scope.
Local Open Scope list_scope.

Section FindAndCapture.
(** [findAndOperate] with a callback that leaves the array alone and
    assigns variables of the caller, as [openEdit] uses it: [S] is what the
    captured variables hold. *)
Context {S : Type}.
Variable target : string.
Variable op : list Node -> nat -> S -> S.

Section Loop.
Variable below : Node -> S -> bool * S.

(** The [for] loop at index [i] of the array [arr]; [rest] are the elements
    from [i] on. *)
Fixpoint scanCapture (arr : list Node) (i : nat) (rest : list Node) (s : S)
  : bool * S :=
  match rest with
  | [] => (false, s)
  | n :: rest' =>
      if String.eqb (id n) target then (true, op arr i s)
      else if (0 <? length (children n))%nat then
        let '(found, s') := below n s in
        if found then (true, s')
        else scanCapture arr (Datatypes.S i) rest' s'
      else scanCapture arr (Datatypes.S i) rest' s
  end.
End Loop.

Fixpoint captureBelow (n : Node) (s : S) : bool * S :=
  scanCapture captureBelow (children n) O (children n) s.

Definition findAndCapture (nodes : list Node) (s : S) : bool * S :=
  scanCapture captureBelow nodes O nodes s.
End FindAndCapture.

(** The callback of [openEdit]: [title = arr[i].title; page = arr[i].page]. *)
Definition readTitlePage (arr : list Node) (i : nat) (s : string * Z)
  : string * Z :=
  match arr !! i with
  | Some n => (title n, page n)
  | None => s
  end.

(** [openAddRoot()]; [pageView] is the page the viewer shows. *)
Definition openAddRoot (pageView : Z) (st : AppState) : AppState :=
  {| tree := tree st; numPages := numPages st; modalOpen := true;
     modalMode := AddRoot; modalParentId := None; editingId := None;
     formTitle := ""; formPage := ToString pageView; toasts := toasts st |}.

(** [openAddChild(parentId)]. *)
Definition openAddChild (pageView : Z) (parentId : string) (st : AppState)
  : AppState :=
  {| tree := tree st; numPages := numPages st; modalOpen := true;
     modalMode := AddChild; modalParentId := Some parentId; editingId := None;
     formTitle := ""; formPage := ToString pageView; toasts := toasts st |}.

(** [openEdit(id)]: the form starts from [title = ''] and [page = 1] and
    takes the title and the page of the node, if the id is found. *)
Definition openEdit (target : string) (st : AppState) : AppState :=
  let '(t, p) := snd (findAndCapture target readTitlePage (tree st) ("", 1%Z)) in
  {| tree := tree st; numPages := numPages st; modalOpen := true;
     modalMode := Edit; modalParentId := None; editingId := Some target;
     formTitle := t; formPage := ToString p; toasts := toasts st |}.

(** [setFormTitle(e.target.value)], the user typing a title. *)
Definition setFormTitle (t : string) (st : AppState) : AppState :=
  {| tree := tree st; numPages := numPages st; modalOpen := modalOpen st;
     modalMode := modalMode st; modalParentId := modalParentId st;
     editingId := editingId st; formTitle := t; formPage := formPage st;
     toasts := toasts st |}.

(** [numPages || 1]. *)
Definition lastPage (numPages : option Z) : Z :=
  match numPages with
  | Some n => if (n =? 0)%Z then 1%Z else n
  | None => 1%Z
  end.

(** [goToPage(p)] for the page of a node: the new page view,
    [Math.max(1, Math.min(numPages || 1, Number(p) || 1))]. *)
Definition goToPage (numPages : option Z) (p : Z) : Z :=
  Z.max 1 (Z.min (lastPage numPages) (if (p =? 0)%Z then 1 else p)).

(** The Prev button and the left arrow: [p => Math.max(1, p - 1)]. *)
Definition prevPage (p : Z) : Z := Z.max 1 (p - 1).

(** The Next button and the right arrow:
    [p => Math.min(numPages || 1, p + 1)]. *)
Definition nextPage (numPages : option Z) (p : Z) : Z :=
  Z.min (lastPage numPages) (p + 1).

(** [name.lastIndexOf(c)]; [None] is [-1]. *)
Fixpoint lastIndexOf (c : ascii) (s : string) : option nat :=
  match s with
  | EmptyString => None
  | String x s' =>
      match lastIndexOf c s' with
      | Some i => Some (Datatypes.S i)
      | None => if Ascii.eqb x c then Some O else None
      end
  end.

(** [makeBookmarkedName(name)] of [downloadProcessed]; [None] is a name that
    is absent. *)
Definition makeBookmarkedName (name : option string) : string :=
  match name with
  | None => "bookmarked.pdf"
  | Some "" => "bookmarked.pdf"
  | Some name =>
      match lastIndexOf "." name with
      | Some lastDot =>
          if (0 <? lastDot)%nat && (lastDot <? String.length name - 1)%nat then
            let base := String.substring 0 lastDot name in
            let ext := String.substring (lastDot + 1)
                         (String.length name - (lastDot + 1)) name in
            (base ++ " bookmarked." ++ ext)%string
          else (name ++ " bookmarked.pdf")%string
      | None => (name ++ " bookmarked.pdf")%string
      end
  end.

(** [onDocumentLoadSuccess(pdf)]: [outline] is what [pdf.getOutline()]
    resolves to ([None] for [null]) or its rejection, [uuids] the ids that
    [uuidv4()] hands out to the imported nodes. *)
Definition onDocumentLoadSuccess (uuids : nat -> string) (doc : DocumentProxy)
  (outline : Outcome (option (list OutlineItem))) (st : AppState) : AppState :=
  let totalPages := totalPagesOf doc in
  let st1 := setNumPages (Some totalPages) st in
  match tree st with
  | [] =>
      match outline with
      | Resolves (Some (it :: its)) =>
          let imported := fst (mapOutline doc uuids (it :: its) 0) in
          match imported with
          | [] => st1
          | _ :: _ =>
              showToast
                (("Imported " ++ ToString (Z.of_nat (length imported))
                  ++ " existing bookmark"
                  ++ (if (1 <? length imported)%nat then "s" else ""))%string)
                Info (setTree imported st1)
          end
      | _ => st1
      end
  | _ :: _ => st1
  end.

(** [text.split('\n')]. *)
Fixpoint splitLines (text : string) : list string :=
  match text with
  | EmptyString => [EmptyString]
  | String c text' =>
      if (nat_of_ascii c =? 10)%nat then EmptyString :: splitLines text'
      else match splitLines text' with
           | line :: rest => String c line :: rest
           | [] => [String c EmptyString]
           end
  end.

(** The [lines] of [formatExtractedText]:
    [text.split('\n').map(line => line.trim()).filter(line => line.length > 0)]. *)
Definition extractedLines (text : string) : list string :=
  List.filter (fun line => (0 <? String.length line)%nat)
              (map trim (splitLines text)).

(** The test that ends a paragraph after the line at [index]; [rest] holds
    the lines after it:
    [index === lines.length - 1 || (lines[index + 1] && lines[index + 1].length < 3)
     || (lines[index + 1] && lines[index + 1].trim() === '')]. *)
Definition endsParagraph (rest : list string) : bool :=
  match rest with
  | [] => true
  | next :: _ =>
      (negb (String.eqb next "") && (String.length next <? 3)%nat)
      || (negb (String.eqb next "") && String.eqb (trim next) "")
  end.

(** The loop [lines.forEach((line, index) => ...)] of [formatExtractedText]
    over the lines still to come, with [currentParagraph] and
    [paragraphs]. *)
Fixpoint groupLines (lines currentParagraph paragraphs : list string)
  : list string :=
  match lines with
  | [] => paragraphs
  | line :: rest =>
      let current := currentParagraph ++ [line] in
      if endsParagraph rest then
        if (0 <? length current)%nat
        then groupLines rest [] (paragraphs ++ [join " " current])
        else groupLines rest current paragraphs
      else groupLines rest current paragraphs
  end.

(** [formatExtractedText(text)] for a string. *)
Definition formatExtractedText (text : string) : string :=
  if String.eqb text "" then ""
  else join (String "010" (String "010" EmptyString))
            (groupLines (extractedLines text) [] []).

(** [uploadPdf(selectedFile)] on the state of the editor: the tree and the
    page count are reset before the request is sent; [uploaded] tells
    whether the request succeeded. *)
Definition uploadPdf (uploaded : bool) (st : AppState) : AppState :=
  let st1 := setNumPages None (setTree [] st) in
  if uploaded then showToast "PDF uploaded" Info st1
  else showToast "Failed to upload PDF" Error st1.

(** [setFormPage(e.target.value)], the user typing a page. *)
Definition setFormPage (p : string) (st : AppState) : AppState :=
  {| tree := tree st; numPages := numPages st; modalOpen := modalOpen st;
     modalMode := modalMode st; modalParentId := modalParentId st;
     editingId := editingId st; formTitle := formTitle st; formPage := p;
     toasts := toasts st |}.

(** [dismissToast(id)] for the toast at the given position. *)
Definition dismissToast (i : nat) (st : AppState) : AppState :=
  {| tree := tree st; numPages := numPages st; modalOpen := modalOpen st;
     modalMode := modalMode st; modalParentId := modalParentId st;
     editingId := editingId st; formTitle := formTitle st;
     formPage := formPage st; toasts := delete i (toasts st) |}.

(** The state of [App] when it mounts. *)
Definition initialState : AppState :=
  {| tree := []; numPages := None; modalOpen := false; modalMode := AddRoot;
     modalParentId := None; editingId := None; formTitle := "";
     formPage := "1"; toasts := [] |}.

(** One action on the state of the editor.  [uuidv4] hands out ids that
    the tree does not have, and different ids to the nodes of one import; the
    page count of a document is not negative. *)
Inductive Step : AppState -> AppState -> Prop :=
| Step_uploadPdf (uploaded : bool) (st : AppState) :
    Step st (uploadPdf uploaded st)
| Step_onDocumentLoadSuccess (uuids : nat -> string) (doc : DocumentProxy)
    (outline : Outcome (option (list OutlineItem))) (st : AppState) :
    (forall i j, uuids i = uuids j -> i = j) ->
    (0 <= docNumPages doc)%Z ->
    Step st (onDocumentLoadSuccess uuids doc outline st)
| Step_openAddRoot (pageView : Z) (st : AppState) :
    Step st (openAddRoot pageView st)
| Step_openAddChild (pageView : Z) (parentId : string) (st : AppState) :
    Step st (openAddChild pageView parentId st)
| Step_openEdit (target : string) (st : AppState) :
    Step st (openEdit target st)
| Step_setFormTitle (t : string) (st : AppState) :
    Step st (setFormTitle t st)
| Step_setFormPage (p : string) (st : AppState) :
    Step st (setFormPage p st)
| Step_closeModal (st : AppState) :
    Step st (setModalOpen false st)
| Step_saveModal (uuid : string) (st : AppState) :
    ~ In uuid (forestIds (tree st)) ->
    Step st (saveModal uuid st)
| Step_removeNode (target : string) (st : AppState) :
    Step st (removeNode target st)
| Step_clearAll (st : AppState) :
    Step st (setTree [] st)
| Step_dismissToast (i : nat) (st : AppState) :
    Step st (dismissToast i st).

(** The states that the editor can get into. *)
Inductive Reachable : AppState -> Prop :=
| Reachable_initial : Reachable initialState
| Reachable_step (st st' : AppState) :
    Reachable st -> Step st st' -> Reachable st'.

(** *** Notions for the properties of the store *)

(** The lines of the paragraphs: a paragraph ends before every line of
    fewer than three characters and after the last line. *)
Fixpoint paragraphLines (current lines : list string) : list (list string) :=
  match lines with
  | [] => []
  | line :: rest =>
      match rest with
      | [] => [current ++ [line]]
      | next :: _ =>
          if (String.length next <? 3)%nat
          then (current ++ [line]) :: paragraphLines [] rest
          else paragraphLines (current ++ [line]) rest
      end
  end.

(** The id, the title and the page of every node, in pre-order. *)
Fixpoint nodeEntries (n : Node) : list (string * string * Z) :=
  (id n, title n, page n) :: flat_map nodeEntries (children n).

Definition forestEntries (forest : list Node) : list (string * string * Z) :=
  flat_map nodeEntries forest.

(** A forest with [g] applied to every node of the given id. *)
Fixpoint amendNode (target : string) (g : Node -> Node) (n : Node) : Node :=
  let n' := withChildren (map (amendNode target g) (children n)) n in
  if String.eqb (id n) target then g n' else n'.

Definition amend (target : string) (g : Node -> Node) (forest : list Node)
  : list Node :=
  map (amendNode target g) forest.

(** A node with another title and page. *)
Definition retitled (t : string) (p : Z) (n : Node) : Node :=
  {| id := id n; title := t; page := p; children := children n |}.

(** A node with one more child, after the others. *)
Definition adopting (child : Node) (n : Node) : Node :=
  withChildren (children n ++ [child]) n.

(** A node without its title and page: what is left is where it sits. *)
Fixpoint bare (n : Node) : Node :=
  {| id := id n; title := ""; page := 0%Z; children := map bare (children n) |}.

(** The state the store keeps: ids are unique, every page is at least 1 and
    at most the page count when the state knows one, and every title is
    trimmed and not empty. *)
Definition goodEntry (count : option Z) (e : string * string * Z) : Prop :=
  let '(_, t, p) := e in
  (1 <= p)%Z
  /\ (forall k, count = Some k -> (p <= k)%Z)
  /\ t <> ""
  /\ trim t = t.

(** A forest all of whose pages are integers that a number holds exactly. *)
Definition safePages (forest : list Node) : Prop :=
  Forall (fun e => safeInteger (snd e)) (forestEntries forest).

Definition wellFormed (st : AppState) : Prop :=
  List.NoDup (forestIds (tree st))
  /\ Forall (goodEntry (knownPageCount st)) (forestEntries (tree st)).

(** Number of items of an outline, nested ones included. *)
Fixpoint itemCount (it : OutlineItem) : nat :=
  Datatypes.S (list_sum (map itemCount (items it))).

Definition outlineCount (its : list OutlineItem) : nat :=
  list_sum (map itemCount its).

(** What the descriptor should say of a forest of the store: for every
    node, in pre-order, its page, its depth and its title on one line. *)
Fixpoint nodeLines (depth : nat) (n : Node) : list (Z * nat * string) :=
  (page n, depth, replaceNewlines (title n))
  :: flat_map (nodeLines (S depth)) (children n).

Definition forestLines (depth : nat) (forest : list Node)
  : list (Z * nat * string) :=
  flat_map (nodeLines depth) forest.

(** Siblings whose pages do not descend. *)
Fixpoint ascendingPages (siblings : list Node) : Prop :=
  match siblings with
  | a :: (b :: _) as rest => (page a <= page b)%Z /\ ascendingPages rest
  | _ => True
  end.

(** A forest kept in page order: on every level the pages of the siblings
    do not descend. *)
Fixpoint orderedNode (n : Node) : Prop :=
  ascendingPages (children n)
  /\ fold_right (fun c rest => orderedNode c /\ rest) True (children n).

Definition orderedForest (forest : list Node) : Prop :=
  ascendingPages forest
  /\ fold_right (fun c rest => orderedNode c /\ rest) True forest.

(** What the import of some items gives from id number [k] on: the number
    of the next id, the ids used, and entries fit for the store. *)
Definition importedWell (doc : DocumentProxy) (uuids : nat -> string)
  (its : list OutlineItem) (k : nat) (r : list Node * nat) : Prop :=
  snd r = (k + outlineCount its)%nat
  /\ forestIds (fst r) = map uuids (seq k (outlineCount its))
  /\ Forall (goodEntry (Some (totalPagesOf doc))) (forestEntries (fst r)).

End Editor.

(* ================================================================== *)
(** ** The upload directory and the request handlers (backend server) *)
(* ================================================================== *)

Module Server.
Import JS Serializer.

Local Open Scope string_scope.

(** What a path holds: a regular file with its bytes, or a directory, each
    with the time of its last modification in milliseconds.  Permissions are
    not modelled: a regular file can always be read, renamed and unlinked. *)
Inductive Entry : Type :=
| File (bytes : string) (mtimeMs : Q)
| Dir (mtimeMs : Q).

(** The file system: what each path holds, if anything. *)
Definition FS : Type := string -> option Entry.

(** An exception with its [message]. *)
Record Exn : Type := mkExn { message : string }.

(** What the server takes from its platform: the upload directory,
    [path.join(a, b)], [path.parse(p).name], the error that [fs] raises for a
    path, [fs.readdirSync(dir)], and [outlinePdf({ loadPath, savePath,
    outline })] of the outline library, which leaves a file system and
    resolves ([None]) or rejects with an error. *)
Record Platform : Type :=
  mkPlatform {
    uploadDir : string;
    join : string -> string -> string;
    parsedName : string -> string;
    fsError : string -> Exn;
    readdirSync : FS -> string -> Exn + list string;
    outlinePdf : FS -> string -> string -> string -> FS * option Exn
  }.

Definition existsSync (fs : FS) (p : string) : bool :=
  match fs p with Some _ => true | None => false end.

Definition readFileSync (pf : Platform) (fs : FS) (p : string) : Exn + string :=
  match fs p with
  | Some (File bytes _) => inr bytes
  | _ => inl (fsError pf p)
  end.

(** [fs.statSync(p).mtimeMs]. *)
Definition statSync (pf : Platform) (fs : FS) (p : string) : Exn + Q :=
  match fs p with
  | Some (File _ m) => inr m
  | Some (Dir m) => inr m
  | None => inl (fsError pf p)
  end.

(** The file system without the path [p]. *)
Definition without (p : string) (fs : FS) : FS :=
  fun q => if String.eqb q p then None else fs q.

(** [fs.unlinkSync(p)]: it removes a regular file and fails otherwise. *)
Definition unlinkSync (pf : Platform) (fs : FS) (p : string) : Exn + FS :=
  match fs p with
  | Some (File _ _) => inr (without p fs)
  | _ => inl (fsError pf p)
  end.

(** [fs.renameSync(oldPath, newPath)] for a regular file: it fails when the
    old path holds no file or the new path holds a directory. *)
Definition renameSync (pf : Platform) (fs : FS) (oldPath newPath : string)
  : Exn + FS :=
  match fs oldPath, fs newPath with
  | Some (File bytes m), Some (Dir _) => inl (fsError pf newPath)
  | Some (File bytes m), _ =>
      inr (fun q => if String.eqb q newPath then Some (File bytes m)
                    else if String.eqb q oldPath then None
                    else fs q)
  | _, _ => inl (fsError pf oldPath)
  end.

(** [KEEP_AFTER_PROCESS = process.env.KEEP_AFTER_PROCESS === 'true']. *)
Definition KEEP_AFTER_PROCESS (env : option string) : bool :=
  match env with
  | Some s => String.eqb s "true"
  | None => false
  end.

(** [UPLOAD_TTL_HOURS = parseInt(process.env.UPLOAD_TTL_HOURS || '6', 10)];
    [None] is NaN. *)
Definition UPLOAD_TTL_HOURS (env : option string) : option Z :=
  parseInt match env with
           | Some s => if String.eqb s "" then "6" else s
           | None => "6"
           end.

(** [safeUnlink(filePath)]: a failure of [unlinkSync] is logged and
    dropped. *)
Definition safeUnlink (pf : Platform) (fs : FS) (filePath : string) : FS :=
  if negb (String.eqb filePath "") && existsSync fs filePath then
    match unlinkSync pf fs filePath with
    | inr fs' => fs'
    | inl _ => fs
    end
  else fs.

(** A response: [res.status(s).json({ error })], the JSON body of the
    upload, a PDF sent with its bytes (under the fixed headers
    [Content-Type: application/pdf] and
    [Content-Disposition: attachment; filename="bookmarked.pdf"]), or an
    exception that leaves the handler. *)
Inductive Response : Type :=
| Json (status : Z) (error : string)
| Uploaded (id originalName : string)
| Pdf (bytes : string)
| Unhandled (e : Exn).

(** [req.file] as multer leaves it. *)
Record UploadedFile : Type :=
  mkUpload { path : string; filename : string; originalname : string }.

(** The handler of [POST /api/upload]; [file] is [req.file]. *)
Definition upload (pf : Platform) (fs : FS) (file : option UploadedFile)
  : Response * FS :=
  match file with
  | None => (Json 400 "no file", fs)
  | Some f =>
      let oldPath := path f in
      let newPath := join pf (uploadDir pf) (filename f ++ ".pdf") in
      match renameSync pf fs oldPath newPath with
      | inl e => (Unhandled e, fs)
      | inr fs' => (Uploaded (filename f ++ ".pdf") (originalname f), fs')
      end
  end.

(** [err.message || 'processing error']. *)
Definition messageOf (e : Exn) : string :=
  if String.eqb (message e) "" then "processing error" else message e.

(** The handler of [POST /api/process]: the response, and the file system
    once the response has finished and its [finish] listener has run.  [keep]
    is [KEEP_AFTER_PROCESS]; [id] is the [id] of the body, a string or [None]
    when it is absent or [null]; [bookmarks] is [None] when the field is not
    an array. *)
Definition process (pf : Platform) (keep : bool) (fs : FS) (id : option string)
  (bookmarks : option (list Bookmark)) : Response * FS :=
  match id with
  | None => (Json 400 "missing id", fs)
  | Some id =>
      if String.eqb id "" then (Json 400 "missing id", fs)
      else
        let filePath := join pf (uploadDir pf) id in
        if negb (existsSync fs filePath) then (Json 404 "file not found", fs)
        else
          let printed := printedOutline bookmarks in
          if String.eqb printed "" then
            match readFileSync pf fs filePath with
            | inl e => (Json 500 (messageOf e), fs)
            | inr pdfBytes =>
                (Pdf pdfBytes, if keep then fs else safeUnlink pf fs filePath)
            end
          else
            let savePath :=
              join pf (uploadDir pf) (parsedName pf id ++ "-outlined.pdf") in
            match outlinePdf pf fs filePath savePath printed with
            | (fs1, Some e) => (Json 500 (messageOf e), fs1)
            | (fs1, None) =>
                match readFileSync pf fs1 savePath with
                | inl e => (Json 500 (messageOf e), fs1)
                | inr outlinedPdf =>
                    (Pdf outlinedPdf,
                     if keep then fs1
                     else safeUnlink pf (safeUnlink pf fs1 savePath) filePath)
                end
            end
  end.

(** [age > ttlMs] for a modification time, with
    [age = now - stat.mtimeMs] and [ttlMs = UPLOAD_TTL_HOURS * 60 * 60 * 1000];
    a comparison with NaN is false. *)
Definition expired (ttlHours : option Z) (now : Z) (mtimeMs : Q) : bool :=
  match ttlHours with
  | Some h =>
      negb (Qle_bool (inject_Z now - mtimeMs) (inject_Z (h * 60 * 60 * 1000)))
  | None => false
  end.

(** The callback of [files.forEach] in [sweepUploadsDirectory]. *)
Definition sweepOne (pf : Platform) (ttlHours : option Z) (now : Z) (fs : FS)
  (name : string) : FS :=
  let p := join pf (uploadDir pf) name in
  match statSync pf fs p with
  | inr mtimeMs => if expired ttlHours now mtimeMs then safeUnlink pf fs p else fs
  | inl _ => fs
  end.

(** [sweepUploadsDirectory()]; [now] is [Date.now()]. *)
Definition sweepUploadsDirectory (pf : Platform) (ttlHours : option Z)
  (now : Z) (fs : FS) : FS :=
  match readdirSync pf fs (uploadDir pf) with
  | inr files => fold_left (sweepOne pf ttlHours now) files fs
  | inl _ => fs
  end.

(** The paths that the names of a listing stand for. *)
Definition listed (pf : Platform) (files : list string) (p : string) : bool :=
  existsb (fun name => String.eqb (join pf (uploadDir pf) name) p) files.

(** A platform for examples: paths are joined with a slash, a name loses
    its last four characters, the directory lists two names, and the outline
    library writes the outline as the bytes of the file to save. *)
Definition samplePlatform : Platform :=
  {| uploadDir := "up";
     join := fun a b => a ++ "/" ++ b;
     parsedName := fun p => substring 0 (String.length p - 4) p;
     fsError := fun p => mkExn ("ENOENT: " ++ p);
     readdirSync := fun _ _ => inr ["a.pdf"; "b.pdf"]%list;
     outlinePdf := fun fs loadPath savePath outline =>
       ((fun q => if String.eqb q savePath then Some (File outline 0) else fs q),
        None) |}.

(** A file system with an old and a new upload. *)
Definition sampleFS : FS :=
  fun q => if String.eqb q "up/a.pdf" then Some (File "A" 0)
           else if String.eqb q "up/b.pdf" then Some (File "B" (inject_Z 90000000))
           else if String.eqb q "tmp/x" then Some (File "X" 0)
           else None.

End Server.

(* ================================================================== *)
(** ** Facts about the built-ins *)
(* ================================================================== *)

Section SortFacts.
Import JS.
Context {A : Type} (comparefn : A -> A -> jsnum).

Lemma sortInsert_perm (x : A) (l : list A) :
  Permutation (x :: l) (sortInsert comparefn x l).
Proof.
  induction l as [|y l IH]; simpl; [reflexivity|].
  destruct (positive (comparefn x y)); [|reflexivity].
  rewrite perm_swap. now apply perm_skip.
Qed.

Lemma sort_perm (l : list A) : Permutation l (sort comparefn l).
Proof.
  induction l as [|x l IH]; simpl; [constructor|].
  rewrite <- sortInsert_perm. now apply perm_skip.
Qed.

Lemma sort_length (l : list A) : length (sort comparefn l) = length l.
Proof. symmetry. apply Permutation_length, sort_perm. Qed.

Lemma sort_In (x : A) (l : list A) : In x (sort comparefn l) <-> In x l.
Proof.
  split; intros H.
  - eapply Permutation_in; [symmetry; apply sort_perm | exact H].
  - eapply Permutation_in; [apply sort_perm | exact H].
Qed.

Hypothesis comparefn_total :
  forall a b, positive (comparefn a b) = true -> inOrder comparefn b a.
Hypothesis comparefn_trans :
  forall a b c,
    inOrder comparefn a b -> inOrder comparefn b c -> inOrder comparefn a c.

Lemma sortInsert_sorted (x : A) (l : list A) :
  StronglySorted (inOrder comparefn) l ->
  StronglySorted (inOrder comparefn) (sortInsert comparefn x l).
Proof using comparefn_total comparefn_trans.
  induction 1 as [|y l Hl IH Hy]; simpl.
  - repeat constructor.
  - destruct (positive (comparefn x y)) eqn:E.
    + constructor; [exact IH|].
      rewrite List.Forall_forall. intros z Hz.
      apply (Permutation_in _ (Permutation_sym (sortInsert_perm x l))) in Hz.
      destruct Hz as [<-|Hz]; [now apply comparefn_total|].
      rewrite List.Forall_forall in Hy. now apply Hy.
    + constructor; [now constructor|].
      constructor; [exact E|].
      rewrite List.Forall_forall in *. intros z Hz.
      eapply comparefn_trans; [exact E | now apply Hy].
Qed.

Lemma sort_sorted (l : list A) :
  StronglySorted (inOrder comparefn) (sort comparefn l).
Proof using comparefn_total comparefn_trans.
  induction l; simpl; [constructor | now apply sortInsert_sorted].
Qed.

(** Stability: elements that the comparator never puts out of order with
    each other come out in the order they went in. *)
Lemma sort_stable (P : A -> bool) (l : list A) :
  (forall a b, P a = true -> P b = true -> inOrder comparefn a b) ->
  List.filter P (sort comparefn l) = List.filter P l.
Proof using Type.
  intros HP.
  assert (Hins : forall x s, List.filter P (sortInsert comparefn x s)
                             = List.filter P (x :: s)).
  { intros x s. induction s as [|y s IH]; [reflexivity|].
    simpl. destruct (positive (comparefn x y)) eqn:E; [|reflexivity].
    simpl. rewrite IH. simpl.
    destruct (P x) eqn:Px, (P y) eqn:Py; try reflexivity.
    specialize (HP x y Px Py). unfold inOrder in HP. congruence. }
  induction l as [|x l IH]; [reflexivity|].
  simpl sort. rewrite Hins. simpl. now rewrite IH.
Qed.
End SortFacts.

Section NumberFacts.
Import JS Outline.

Lemma Qle_bool_sub (a b : Q) : Qle_bool (Qred (a - b)) 0 = Qle_bool a b.
Proof.
  apply eq_true_iff_eq. rewrite !Qle_bool_iff, Qred_correct.
  split; intros H; lra.
Qed.

(** On numbers other than NaN the comparator's verdict is the numeric
    order. *)
Lemma positive_sub (x y : jsnum) :
  x <> NaN -> y <> NaN -> positive (sub x y) = negb (numLeb x y).
Proof.
  destruct x, y; simpl; try congruence; try reflexivity.
  intros _ _. now rewrite Qle_bool_sub.
Qed.

Lemma numLeb_total (x y : jsnum) :
  x <> NaN -> y <> NaN -> numLeb x y = false -> numLeb y x = true.
Proof.
  destruct x, y; simpl; try congruence.
  intros _ _ H. apply Qle_bool_iff.
  destruct (Qle_bool q q0) eqn:E; [discriminate|].
  destruct (Qlt_le_dec q0 q) as [Hlt|Hle].
  - now apply Qlt_le_weak.
  - apply Qle_bool_iff in Hle. congruence.
Qed.

Lemma numLeb_trans (x y z : jsnum) :
  numLeb x y = true -> numLeb y z = true -> numLeb x z = true.
Proof.
  destruct x, y, z; simpl; try congruence.
  rewrite !Qle_bool_iff. apply Qle_trans.
Qed.

Lemma orElse_not_NaN (x : jsnum) (z : Z) : orElse x (ofZ z) <> NaN.
Proof.
  unfold orElse. destruct x; simpl; try discriminate.
  destruct (Qeq_bool q 0); discriminate.
Qed.
End NumberFacts.

Section StringFacts.
Import JS Outline.
Local Open Scope string_scope.

Lemma countNewlines_app (a b : string) :
  countNewlines (a ++ b) = (countNewlines a + countNewlines b)%nat.
Proof. induction a as [|c a IH]; simpl; [reflexivity|]. rewrite IH. lia. Qed.

Lemma countNewlines_repeatDash (n : nat) : countNewlines (repeatDash n) = O.
Proof. induction n; simpl; auto. Qed.

Lemma countNewlines_replaceNewlines (s : string) :
  countNewlines (replaceNewlines s) = O.
Proof.
  induction s as [|c s IH]; simpl; [reflexivity|].
  destruct (nat_of_ascii c =? 10)%nat eqn:E; simpl; rewrite IH; [reflexivity|].
  now rewrite E.
Qed.

Lemma countNewlines_uint (d : Decimal.uint) :
  countNewlines (NilEmpty.string_of_uint d) = O.
Proof. induction d; simpl; auto. Qed.

Lemma countNewlines_ToString (z : Z) : countNewlines (ToString z) = O.
Proof.
  unfold ToString, NilZero.string_of_int, NilZero.string_of_uint.
  destruct (Z.to_int z) as [d|d]; destruct d; simpl; auto using countNewlines_uint.
Qed.

Lemma ToString_nonempty (z : Z) : ToString z <> "".
Proof.
  unfold ToString, NilZero.string_of_int, NilZero.string_of_uint.
  destruct (Z.to_int z) as [d|d]; destruct d; simpl; discriminate.
Qed.

Lemma append_nonempty_l (a b : string) : a <> "" -> a ++ b <> "".
Proof. destruct a; simpl; [congruence | discriminate]. Qed.

Lemma join_cons (sep x : string) (l : list string) :
  join sep (x :: l) = match l with [] => x | _ :: _ => x ++ sep ++ join sep l end.
Proof. reflexivity. Qed.

Lemma join_nonempty (sep x : string) (l : list string) :
  x <> "" -> join sep (x :: l) <> "".
Proof. intros H. rewrite join_cons. destruct l; [exact H | now apply append_nonempty_l]. Qed.

(** A joined text has one separator between consecutive lines. *)
Lemma countNewlines_join (l : list string) :
  Forall (fun s => countNewlines s = O) l ->
  countNewlines (join newline l) = (length l - 1)%nat.
Proof.
  induction 1 as [|x l Hx Hl IH]; [reflexivity|].
  rewrite join_cons. destruct l as [|y l]; [simpl; lia|].
  rewrite !countNewlines_app, IH, Hx. simpl. lia.
Qed.
End StringFacts.

Section NumeralFacts.
Import JS Store Forest.
Local Open Scope string_scope.
Local Open Scope list_scope.

(** The digits of a numeral are read back, up to the first character that
    is no digit. *)
Lemma readDigits_numeral (ds : list Z) (rest : string) :
  Forall (fun d => (0 <= d <= 9)%Z) ds ->
  startsWithDigit rest = false ->
  forall acc count,
    readDigits 10 (numeral ds ++ rest)%string acc count
    = (fold_left (fun a d => (10 * a + d)%Z) ds acc, (count + length ds)%nat, rest).
Proof.
  intros Hds Hrest. induction Hds as [|d ds Hd Hds IH]; intros acc count.
  - simpl. rewrite Nat.add_0_r. destruct rest as [|c r]; [reflexivity|].
    simpl in *. now destruct (digitValue 10 c).
  - assert (Hv : digitValue 10 (digitChar d) = Some d).
    { assert (Hc : In d [0;1;2;3;4;5;6;7;8;9]%Z) by (simpl; lia).
      simpl in Hc. decompose [or] Hc; subst; try reflexivity. contradiction. }
    unfold numeral in *. cbn [map string_of_list_ascii String.append readDigits].
    rewrite Hv, IH. cbn [fold_left length]. f_equal. f_equal. lia.
Qed.

Lemma trimStart_numeral (d : Z) (ds : list Z) (rest : string) :
  (0 <= d <= 9)%Z ->
  trimStart (numeral (d :: ds) ++ rest)%string = (numeral (d :: ds) ++ rest)%string.
Proof.
  intros Hd. assert (Hc : In d [0;1;2;3;4;5;6;7;8;9]%Z) by (simpl; lia).
  simpl in Hc. decompose [or] Hc; subst; try reflexivity. contradiction.
Qed.

Lemma readSign_numeral (d : Z) (ds : list Z) (rest : string) :
  (0 <= d <= 9)%Z ->
  readSign (numeral (d :: ds) ++ rest)%string = (false, (numeral (d :: ds) ++ rest)%string).
Proof.
  intros Hd. assert (Hc : In d [0;1;2;3;4;5;6;7;8;9]%Z) by (simpl; lia).
  simpl in Hc. decompose [or] Hc; subst; try reflexivity. contradiction.
Qed.

(** [parseInt] reads a leading numeral and ignores what follows it. *)
Lemma parseInt_numeral (ds : list Z) (rest : string) :
  ds <> [] ->
  Forall (fun d => (0 <= d <= 9)%Z) ds ->
  startsWithDigit rest = false ->
  parseInt (numeral ds ++ rest)%string = Some (numeralValue ds).
Proof.
  intros Hne Hds Hrest. destruct ds as [|d ds]; [congruence|].
  pose proof (Forall_inv Hds) as Hd. unfold parseInt.
  rewrite trimStart_numeral, readSign_numeral by exact Hd.
  rewrite readDigits_numeral by assumption. reflexivity.
Qed.

Lemma parseInt_minus_numeral (ds : list Z) (rest : string) :
  ds <> [] ->
  Forall (fun d => (0 <= d <= 9)%Z) ds ->
  startsWithDigit rest = false ->
  parseInt (String "-" (numeral ds ++ rest)%string) = Some (- numeralValue ds)%Z.
Proof.
intros Hne Hds Hrest. destruct ds as [|d ds]; [congruence|].
unfold parseInt. cbn [trimStart isWhiteSpace readSign].
change (isWhiteSpace "-") with false. cbn [readSign].
rewrite readDigits_numeral by assumption. reflexivity.
Qed.

Lemma string_of_uint_numeral (d : Decimal.uint) :
  NilEmpty.string_of_uint d = numeral (digitsOf d).
Proof.
unfold numeral. induction d; cbn [NilEmpty.string_of_uint digitsOf map string_of_list_ascii];
  [reflexivity | rewrite IHd; reflexivity ..].
Qed.

Lemma digitsOf_digits (d : Decimal.uint) :
  Forall (fun k => (0 <= k <= 9)%Z) (digitsOf d).
Proof. induction d; simpl; constructor; (lia || assumption). Qed.

Lemma of_uint_acc_value (d : Decimal.uint) :
  forall acc,
    Z.pos (Pos.of_uint_acc d acc)
    = fold_left (fun a k => (10 * a + k)%Z) (digitsOf d) (Z.pos acc).
Proof.
induction d; intros acc; cbn [Pos.of_uint_acc digitsOf fold_left];
  [reflexivity | rewrite IHd; f_equal; lia ..].
Qed.

Lemma of_uint_value (d : Decimal.uint) :
  Z.of_uint d = numeralValue (digitsOf d).
Proof.
unfold Z.of_uint, numeralValue.
induction d; cbn [Pos.of_uint digitsOf fold_left]; try exact IHd; try reflexivity;
  cbn [Z.of_N]; rewrite of_uint_acc_value; reflexivity.
Qed.

Lemma append_empty_r (s : string) : (s ++ "")%string = s.
Proof. induction s as [|c s IH]; simpl; [reflexivity | now rewrite IH]. Qed.

(** Printing an integer and reading it back with [parseInt] gives the
    integer. *)
Lemma parseInt_ToString (z : Z) : parseInt (ToString z) = Some z.
Proof.
unfold ToString. pose proof (DecimalZ.of_to z) as Hz.
destruct (Z.to_int z) as [d|d]; cbn [Z.of_int] in Hz;
  rewrite of_uint_value in Hz; subst z;
  cbn [NilZero.string_of_int]; unfold NilZero.string_of_uint.
- destruct d; try reflexivity;
    rewrite string_of_uint_numeral, <- (append_empty_r (numeral _));
    apply parseInt_numeral; try reflexivity; try discriminate; apply digitsOf_digits.
- destruct d; try reflexivity;
    rewrite string_of_uint_numeral, <- (append_empty_r (numeral _));
    apply parseInt_minus_numeral; try reflexivity; try discriminate; apply digitsOf_digits.
Qed.
End NumeralFacts.

(* ================================================================== *)
(** ** The serializer *)
(* ================================================================== *)

Section SerializerFacts.
Import JS Serializer Outline.
Local Open Scope string_scope.

(** Induction over a bookmark and, through its children, every bookmark
    below it. *)
Lemma Bookmark_nested_ind (P : Bookmark -> Prop) :
  (forall t p, P (mkBookmark t p None)) ->
  (forall t p ch, Forall P ch -> P (mkBookmark t p (Some ch))) ->
  forall b, P b.
Proof.
  intros Hleaf Hnode.
  fix IH 1. intros [t p [ch|]]; [|apply Hleaf].
  apply Hnode. induction ch as [|c ch IHch]; constructor; [apply IH | exact IHch].
Qed.

Lemma forestDepth_cons (n : Bookmark) (f : list Bookmark) :
  forestDepth (n :: f) = Nat.max (nodeDepth n) (forestDepth f).
Proof. reflexivity. Qed.

Lemma nodeDepth_children (n : Bookmark) (ch : list Bookmark) :
  children n = Some ch -> nodeDepth n = S (forestDepth ch).
Proof. destruct n as [t p c]; simpl. now intros ->. Qed.

Lemma forestDepth_In (n : Bookmark) (f : list Bookmark) :
  In n f -> (nodeDepth n <= forestDepth f)%nat.
Proof.
  induction f as [|m f IH]; [intros []|].
  rewrite forestDepth_cons. intros [->|H]; [lia|]. specialize (IH H). lia.
Qed.

Lemma sortBookmarksByPage_fuel_enough (k1 k2 : nat) (f : list Bookmark) :
  (forestDepth f < k1)%nat -> (forestDepth f < k2)%nat ->
  sortBookmarksByPage_fuel k1 f = sortBookmarksByPage_fuel k2 f.
Proof.
  revert k2 f. induction k1 as [|k1 IH]; intros k2 f H1 H2; [lia|].
  destruct k2 as [|k2]; [lia|]. simpl.
  apply map_ext_in. intros n Hn. unfold withSorted. f_equal. f_equal.
  destruct (children n) as [ch|] eqn:E; [|reflexivity].
  apply sort_In, forestDepth_In in Hn.
  rewrite (nodeDepth_children _ _ E) in Hn.
  apply IH; lia.
Qed.

(** The defining equation of [sortBookmarksByPage], as the source has
    it: the fuel of the definition is always enough. *)
Lemma sortBookmarksByPage_eq (f : list Bookmark) :
  sortBookmarksByPage f = map (withSorted sortBookmarksByPage) (sort byPage f).
Proof.
  unfold sortBookmarksByPage at 1. simpl.
  apply map_ext_in. intros n Hn. unfold withSorted. f_equal. f_equal.
  destruct (children n) as [ch|] eqn:E; [|reflexivity].
  apply sort_In, forestDepth_In in Hn.
  rewrite (nodeDepth_children _ _ E) in Hn.
  apply sortBookmarksByPage_fuel_enough; lia.
Qed.

Lemma sortBookmarksByPage_length (f : list Bookmark) :
  length (sortBookmarksByPage f) = length f.
Proof. now rewrite sortBookmarksByPage_eq, length_map, sort_length. Qed.

(** The comparator of [sortBookmarksByPage] is consistent. *)
Lemma byPage_positive (a b : Bookmark) :
  positive (byPage a b) = negb (numLeb (sortKey a) (sortKey b)).
Proof. apply positive_sub; apply orElse_not_NaN. Qed.

Lemma byPage_inOrder (a b : Bookmark) :
  positive (byPage a b) = false <-> numLe (sortKey a) (sortKey b).
Proof.
  rewrite byPage_positive. unfold numLe.
  destruct (numLeb (sortKey a) (sortKey b)); simpl; intuition congruence.
Qed.

Lemma sort_byPage_ascending (f : list Bookmark) : ascending (sort byPage f).
Proof.
  unfold ascending.
  assert (H : StronglySorted (fun a b => positive (byPage a b) = false)
                             (sort byPage f)).
  { apply (sort_sorted byPage).
    - intros a b H. unfold inOrder. rewrite byPage_positive in *.
      apply negb_true_iff in H. apply negb_false_iff.
      apply numLeb_total; [apply orElse_not_NaN | apply orElse_not_NaN | exact H].
    - intros a b c. unfold inOrder. rewrite !byPage_inOrder. apply numLeb_trans. }
  induction H as [|a l Hl IH Ha]; constructor; [exact IH|].
  eapply List.Forall_impl; [|exact Ha]. intros b Hb. now apply byPage_inOrder.
Qed.

Lemma sort_byPage_stable (f : list Bookmark) :
  stableRearrangement f (sort byPage f).
Proof.
  split; [apply sort_perm|]. intros k. apply sort_stable.
  intros a b Ha Hb. unfold inOrder. apply byPage_inOrder.
  unfold sameNum in *. apply andb_true_iff in Ha, Hb.
  eapply numLeb_trans; [apply Ha | apply Hb].
Qed.

Lemma sortBookmarksByPage_sorted_upto (k : nat) :
  forall f, (forestDepth f < k)%nat -> SortedByPage f (sortBookmarksByPage f).
Proof.
  induction k as [|k IH]; intros f Hk; [lia|].
  rewrite sortBookmarksByPage_eq.
  apply (SortedByPage_level f (sort byPage f));
    [apply sort_byPage_stable | apply sort_byPage_ascending |].
  assert (Hall : forall n, In n (sort byPage f) -> In n f)
    by (intros n; apply sort_In).
  induction (sort byPage f) as [|n l IHl]; simpl; constructor.
  - apply SortedBelow_node. unfold siblingsBelow.
    destruct (children n) as [ch|] eqn:E.
    + apply IH. pose proof (forestDepth_In n f (Hall n (or_introl eq_refl))) as Hd.
      rewrite (nodeDepth_children _ _ E) in Hd. lia.
    + apply (SortedByPage_level [] []); [split; [constructor | reflexivity] | constructor | constructor].
  - apply IHl. intros m Hm. apply Hall. now right.
Qed.

Lemma sortBookmarksByPage_sorted (f : list Bookmark) :
  SortedByPage f (sortBookmarksByPage f).
Proof. apply (sortBookmarksByPage_sorted_upto (S (forestDepth f))). lia. Qed.

Lemma sameNum_sortKey_refl (a : Bookmark) : sameNum (sortKey a) (sortKey a) = true.
Proof.
unfold sameNum. pose proof (orElse_not_NaN (Number (page a)) 0) as Hn.
fold (sortKey a) in Hn. destruct (sortKey a) as [| |q|]; try reflexivity; [congruence|].
simpl. assert (H : Qle_bool q q = true) by apply Qle_bool_iff, Qle_refl.
now rewrite H.
Qed.

Lemma ascending_head (a b : Bookmark) (l : list Bookmark) :
  ascending (a :: l) -> In b (a :: l) -> numLe (sortKey a) (sortKey b).
Proof.
intros Hs [<-|Hb].
- pose proof (sameNum_sortKey_refl a) as H. unfold sameNum in H.
  now apply andb_true_iff in H.
- apply StronglySorted_inv in Hs as [_ Hall].
  rewrite List.Forall_forall in Hall. now apply Hall.
Qed.

(** Two ascending arrangements of the same siblings that keep equal keys in
    the same order are the same list. *)
Lemma ascending_arrangement_unique (l1 : list Bookmark) :
  forall l2,
    Permutation l1 l2 ->
    (forall k, List.filter (fun n => sameNum (sortKey n) k) l1
               = List.filter (fun n => sameNum (sortKey n) k) l2) ->
    ascending l1 -> ascending l2 -> l1 = l2.
Proof.
induction l1 as [|x l1 IH]; intros l2 Hperm Hfilter Hs1 Hs2.
- now apply Permutation_nil in Hperm.
- destruct l2 as [|y l2]; [now apply Permutation_sym, Permutation_nil in Hperm|].
  assert (Hxy : numLe (sortKey x) (sortKey y)).
  { apply (ascending_head x y l1 Hs1).
    apply (Permutation_in _ (Permutation_sym Hperm)). now left. }
  assert (Hyx : numLe (sortKey y) (sortKey x)).
  { apply (ascending_head y x l2 Hs2). apply (Permutation_in _ Hperm). now left. }
  assert (Heq : x = y).
  { specialize (Hfilter (sortKey x)). cbn [List.filter] in Hfilter.
    rewrite sameNum_sortKey_refl in Hfilter.
    assert (Hy : sameNum (sortKey y) (sortKey x) = true)
      by (unfold sameNum; apply andb_true_iff; now split).
    rewrite Hy in Hfilter. now injection Hfilter. }
  subst y. f_equal. apply IH.
  + now apply Permutation_cons_inv in Hperm.
  + intros k. specialize (Hfilter k). cbn [List.filter] in Hfilter.
    destruct (sameNum (sortKey x) k); [now injection Hfilter | exact Hfilter].
  + now apply StronglySorted_inv in Hs1.
  + now apply StronglySorted_inv in Hs2.
Qed.

(** The model of [Array.prototype.sort] does not depend on the algorithm of
    the engine: whatever stable, ascending arrangement of the siblings a
    sort produces with this comparator, it is the list [sort byPage]. *)
Lemma sort_byPage_unique (f arranged : list Bookmark) :
  stableRearrangement f arranged -> ascending arranged ->
  arranged = sort byPage f.
Proof.
intros [Hperm Hstable] Hasc.
destruct (sort_byPage_stable f) as [Hperm' Hstable'].
apply ascending_arrangement_unique.
- now rewrite <- Hperm.
- intros k. now rewrite Hstable, Hstable'.
- exact Hasc.
- apply sort_byPage_ascending.
Qed.
End SerializerFacts.

Section OutlineFacts.
Import JS Serializer Outline.
Local Open Scope string_scope.

(** The inner loop of [pushBookmark] is the loop of the recursive call
    [buildPrintedOutline(b.children, depth + 1, lines)]. *)
Lemma pushBookmark_eq (depth : nat) (b : Bookmark) (lines : list string) :
  pushBookmark depth b lines =
    let lines1 := (lines ++ [printedLine depth b])%list in
    match children b with
    | Some ch =>
        if (0 <? length ch)%nat
        then fst (buildPrintedOutline ch (S depth) lines1)
        else lines1
    | None => lines1
    end.
Proof.
  destruct b as [t p [ch|]]; [|reflexivity]. simpl.
  destruct (0 <? length ch)%nat; [|reflexivity].
  unfold forEachPush. generalize (lines ++ [printedLine depth (mkBookmark t p (Some ch))])%list.
  induction ch as [|c ch IH]; intros acc; [reflexivity|]. simpl. apply IH.
Qed.

Lemma forEachPush_cons (d : nat) (b : Bookmark) (f : list Bookmark) (lines : list string) :
  forEachPush d (b :: f) lines = forEachPush d f (pushBookmark d b lines).
Proof. reflexivity. Qed.

Lemma forEachPush_preorder_of (d : nat) (f : list Bookmark) :
  Forall (fun b => forall d lines,
            pushBookmark d b lines = (lines ++ map lineOf (preorderNode d b))%list) f ->
  forall lines,
    forEachPush d f lines = (lines ++ map lineOf (preorder d f))%list.
Proof.
  induction 1 as [|b f Hb Hf IH]; intros lines.
  - simpl. now rewrite app_nil_r.
  - rewrite forEachPush_cons, IH, Hb. unfold preorder. simpl.
    now rewrite map_app, app_assoc.
Qed.

(** The accumulator receives the lines of the pre-order traversal. *)
Lemma pushBookmark_preorder (b : Bookmark) :
  forall d lines,
    pushBookmark d b lines = (lines ++ map lineOf (preorderNode d b))%list.
Proof.
  induction b as [t p | t p ch IH] using Bookmark_nested_ind; intros d lines.
  - reflexivity.
  - rewrite pushBookmark_eq. cbn [children buildPrintedOutline fst].
    destruct ch as [|c ch]; [reflexivity|].
    cbn [length Nat.ltb Nat.leb].
    rewrite (forEachPush_preorder_of (S d) _ IH).
    cbn [preorderNode children map]. unfold lineOf at 2. cbn [fst snd].
    now rewrite <- app_assoc.
Qed.

Lemma forEachPush_preorder (d : nat) (f : list Bookmark) (lines : list string) :
  forEachPush d f lines = (lines ++ map lineOf (preorder d f))%list.
Proof.
  apply forEachPush_preorder_of. apply List.Forall_forall.
  intros b _. apply pushBookmark_preorder.
Qed.

Lemma serialize_preorder (f : list Bookmark) :
  serialize f = join newline (map lineOf (preorder 0 (sortBookmarksByPage f))).
Proof.
  unfold serialize, printedOutline.
  destruct (sortBookmarksByPage f) as [|n g] eqn:E; [reflexivity|].
  cbn [length Nat.ltb Nat.leb buildPrintedOutline snd].
  now rewrite forEachPush_preorder.
Qed.

Lemma forestSize_cons (n : Bookmark) (f : list Bookmark) :
  forestSize (n :: f) = (nodeSize n + forestSize f)%nat.
Proof. reflexivity. Qed.

Lemma nodeSize_eq (n : Bookmark) :
  nodeSize n = S (forestSize (siblingsBelow n)).
Proof. destruct n as [t p [ch|]]; reflexivity. Qed.

Lemma forestSize_perm (f g : list Bookmark) :
  Permutation f g -> forestSize f = forestSize g.
Proof.
  induction 1; rewrite ?forestSize_cons; lia.
Qed.

Lemma preorderNode_length (b : Bookmark) :
  forall d, length (preorderNode d b) = nodeSize b.
Proof.
  induction b as [t p | t p ch IH] using Bookmark_nested_ind; intros d; [reflexivity|].
  cbn [preorderNode nodeSize children length]. f_equal.
  induction IH as [|c ch Hc Hch IHch]; [reflexivity|].
  cbn [flat_map fold_right]. now rewrite length_app, Hc, IHch.
Qed.

Lemma preorder_length (d : nat) (f : list Bookmark) :
  length (preorder d f) = forestSize f.
Proof.
  induction f as [|b f IH]; [reflexivity|].
  unfold preorder in *. cbn [flat_map]. 
  now rewrite length_app, preorderNode_length, IH.
Qed.

Lemma sortBookmarksByPage_size_upto (k : nat) :
  forall f, (forestDepth f < k)%nat ->
            forestSize (sortBookmarksByPage f) = forestSize f.
Proof.
  induction k as [|k IH]; intros f Hk; [lia|].
  rewrite sortBookmarksByPage_eq, (forestSize_perm f _ (sort_perm byPage f)).
  assert (Hall : forall n, In n (sort byPage f) -> In n f)
    by (intros n; apply sort_In).
  induction (sort byPage f) as [|n l IHl]; [reflexivity|].
  cbn [map]. rewrite !forestSize_cons, IHl by (intros m Hm; apply Hall; now right).
  f_equal. rewrite !nodeSize_eq. f_equal.
  unfold withSorted, siblingsBelow. cbn [children].
  destruct (children n) as [ch|] eqn:E; [|reflexivity].
  apply IH. pose proof (forestDepth_In n f (Hall n (or_introl eq_refl))) as Hd.
  rewrite (nodeDepth_children _ _ E) in Hd. lia.
Qed.

(** Sorting keeps every node. *)
Lemma sortBookmarksByPage_size (f : list Bookmark) :
  forestSize (sortBookmarksByPage f) = forestSize f.
Proof. apply (sortBookmarksByPage_size_upto (S (forestDepth f))). lia. Qed.

Lemma printedLine_no_newline (d : nat) (b : Bookmark) :
  countNewlines (printedLine d b) = O.
Proof.
  unfold printedLine, printedTitle.
  rewrite !countNewlines_app, countNewlines_ToString, countNewlines_repeatDash,
    countNewlines_replaceNewlines. reflexivity.
Qed.

Lemma printedLine_nonempty (d : nat) (b : Bookmark) : printedLine d b <> "".
Proof. unfold printedLine. apply append_nonempty_l, ToString_nonempty. Qed.

Lemma repeatDash_length (d : nat) : String.length (repeatDash d) = d.
Proof. induction d; simpl; auto. Qed.

Lemma replaceNewlines_chars (s : string) :
  list_ascii_of_string (replaceNewlines s)
  = map (fun c => if (nat_of_ascii c =? 10)%nat then " "%char else c)
        (list_ascii_of_string s).
Proof. induction s as [|c s IH]; simpl; [reflexivity | now rewrite IH]. Qed.
End OutlineFacts.

Section SerializerClaims.
Import JS Serializer Outline.
Local Open Scope string_scope.

(** An integer page is printed as it is, except 0, which is printed as 1
    (of the code this holds for the integers that a number holds
    exactly). *)
Lemma printedPage_PageNum (t : option string) (z : Z) (c : option (list Bookmark)) :
  printedPage (mkBookmark t (PageNum z) c) = if (z =? 0)%Z then 1%Z else z.
Proof. unfold printedPage, parseInt10. cbn [page]. now rewrite parseInt_ToString. Qed.

(** The key of a page that is a number or is missing is the integer that
    a reader counts. *)
Lemma sortKey_plain (n : Bookmark) :
  plainShape (page n) = true -> sortKey n = ofZ (pageKey n).
Proof.
destruct n as [t [| |b|z|s] c]; cbn [page plainShape]; try discriminate;
  intros _; try reflexivity.
unfold sortKey, orElse, pageKey. cbn [page Number]. unfold truthy, ofZ.
destruct (Qeq_bool (inject_Z z) 0) eqn:E; [|reflexivity]. cbn [negb].
apply Qeq_bool_iff in E. f_equal.
assert (Hz : z = 0%Z) by (apply (proj1 (inject_Z_injective z 0)); exact E).
now subst z.
Qed.

Lemma numLe_ofZ (a b : Z) : numLe (ofZ a) (ofZ b) <-> (a <= b)%Z.
Proof.
unfold numLe. cbn [numLeb ofZ]. rewrite Qle_bool_iff, <- Zle_Qle. reflexivity.
Qed.

Lemma plainPages_In (f : list Bookmark) (n : Bookmark) :
  plainPages f -> In n f -> plainNode n.
Proof.
induction f as [|m f IH]; intros H Hin; [destruct Hin|].
destruct H as [Hm Hf]. destruct Hin as [<-|Hin]; [exact Hm | now apply IH].
Qed.

Lemma plainNode_shape (n : Bookmark) :
  plainNode n -> plainShape (page n) = true.
Proof. destruct n as [t p c]. intros [[H _] _]. exact H. Qed.

Lemma plainNode_children (n : Bookmark) :
  plainNode n -> plainPages (siblingsBelow n).
Proof. destruct n as [t p [ch|]]; intros [_ H]; [exact H | exact I]. Qed.

Lemma StronglySorted_impl_In {A : Type} (R R' : A -> A -> Prop) (l : list A) :
  (forall a b, In a l -> In b l -> R a b -> R' a b) ->
  StronglySorted R l -> StronglySorted R' l.
Proof.
intros H Hs. induction Hs as [|a l Hl IH Ha]; constructor.
- apply IH. intros x y Hx Hy. apply H; now right.
- apply List.Forall_forall. intros y Hy. apply H; [now left | now right |].
  revert y Hy. apply List.Forall_forall. exact Ha.
Qed.

(** Siblings with plain pages come out in ascending order of the integers. *)
Lemma sort_plain_ascending (f : list Bookmark) :
  plainPages f ->
  StronglySorted (fun a b => (pageKey a <= pageKey b)%Z) (sort byPage f).
Proof.
intros Hplain.
apply (StronglySorted_impl_In
         (fun a b => numLe (sortKey a) (sortKey b))); [|apply sort_byPage_ascending].
intros a b Ha Hb Hab.
apply sort_In in Ha, Hb.
rewrite (sortKey_plain a), (sortKey_plain b) in Hab
  by (apply plainNode_shape; now apply (plainPages_In f)).
now apply numLe_ofZ.
Qed.

(** Siblings with plain and equal pages keep their order. *)
Lemma sort_plain_stable (f : list Bookmark) (k : Z) :
  plainPages f ->
  List.filter (fun n => (pageKey n =? k)%Z) (sort byPage f)
  = List.filter (fun n => (pageKey n =? k)%Z) f.
Proof.
intros Hplain.
set (P := fun n => plainShape (page n) && (pageKey n =? k)%Z).
assert (Hext : forall l, (forall n, In n l -> In n f) ->
                 List.filter (fun n => (pageKey n =? k)%Z) l = List.filter P l).
{ intros l Hl. apply List.filter_ext_in. intros n Hn. unfold P.
  now rewrite (plainNode_shape n (plainPages_In f n Hplain (Hl n Hn))). }
rewrite (Hext (sort byPage f)) by (intros n; apply sort_In).
rewrite (Hext f) by tauto.
apply sort_stable. intros a b Ha Hb. unfold P in Ha, Hb.
apply andb_true_iff in Ha as [Hsa Hka], Hb as [Hsb Hkb].
apply Z.eqb_eq in Hka, Hkb. unfold inOrder. apply byPage_inOrder.
rewrite (sortKey_plain a Hsa), (sortKey_plain b Hsb). apply numLe_ofZ. lia.
Qed.

Lemma sortBookmarksByPage_integer_upto (k : nat) :
  forall f, (forestDepth f < k)%nat -> plainPages f ->
            SortedByInteger f (sortBookmarksByPage f).
Proof.
induction k as [|k IH]; intros f Hk Hplain; [lia|].
rewrite sortBookmarksByPage_eq.
apply (SortedByInteger_level f (sort byPage f));
  [apply sort_perm | intros z; now apply sort_plain_stable
  | now apply sort_plain_ascending |].
assert (Hall : forall n, In n (sort byPage f) -> In n f)
  by (intros n; apply sort_In).
induction (sort byPage f) as [|n l IHl]; simpl; constructor.
- apply IntegerSortedBelow_node.
  pose proof (plainNode_children n
                (plainPages_In f n Hplain (Hall n (or_introl eq_refl)))) as Hch.
  unfold siblingsBelow in *.
  destruct (children n) as [ch|] eqn:E.
  + apply IH; [|exact Hch].
    pose proof (forestDepth_In n f (Hall n (or_introl eq_refl))) as Hd.
    rewrite (nodeDepth_children _ _ E) in Hd. lia.
  + apply (SortedByInteger_level [] []);
      [constructor | reflexivity | constructor | constructor].
- apply IHl. intros m Hm. apply Hall. now right.
Qed.



(** C2.  After the sibling sort the serializer visits the forest in
    pre-order and emits one line per node, [<page>|<dashes>|<title>],
    with as many dashes as the node is deep and every newline of the title
    replaced by one space; the lines are joined with a newline, so the
    text of a forest of [k] nodes has [k - 1] newlines.  An integer page
    other than 0, of those that a number holds exactly, is the page
    printed.  Root (1) with Child (2) with Grandchild (3) gives the three
    lines of the example. *)
Theorem C2_preorder_lines :
  (forall forest,
      serialize forest
      = join newline (map lineOf (preorder 0 (sortBookmarksByPage forest)))
      /\ length (preorder 0 (sortBookmarksByPage forest)) = forestSize forest
      /\ countNewlines (serialize forest) = (forestSize forest - 1)%nat)
  /\ (forall depth n,
        lineOf (depth, n)
        = ToString (printedPage n) ++ "|" ++ repeatDash depth ++ "|"
          ++ replaceNewlines (match title n with Some t => t | None => "" end)
        /\ String.length (repeatDash depth) = depth)
  /\ (forall t z c,
        safeInteger z ->
        printedPage (mkBookmark t (PageNum z) c) = if (z =? 0)%Z then 1%Z else z)
  /\ (forall t,
        list_ascii_of_string (replaceNewlines t)
        = map (fun c => if (nat_of_ascii c =? 10)%nat then " "%char else c)
              (list_ascii_of_string t))
  /\ serialize
       [ mkBookmark (Some "Root") (PageNum 1)
           (Some [ mkBookmark (Some "Child") (PageNum 2)
                     (Some [ mkBookmark (Some "Grandchild") (PageNum 3) None ]) ]) ]
     = "1||Root" ++ newline ++ "2|-|Child" ++ newline ++ "3|--|Grandchild".
Proof.
split; [|split; [|split; [|split]]].
- intros forest. split; [|split].
  + apply serialize_preorder.
  + now rewrite preorder_length, sortBookmarksByPage_size.
  + rewrite serialize_preorder, countNewlines_join.
    * now rewrite length_map, preorder_length, sortBookmarksByPage_size.
    * apply List.Forall_forall. intros s Hs. apply in_map_iff in Hs.
      destruct Hs as [[d b] [<- _]]. apply printedLine_no_newline.
- intros depth n. split; [reflexivity | apply repeatDash_length].
- intros t z c _. apply printedPage_PageNum.
- apply replaceNewlines_chars.
- reflexivity.
Qed.

(** The sort of two siblings without children, the first of a page that is
    an integer and the second of key 0. *)
Lemma sort_pair_with_key_0 (t : option string) (z : Z) (m : Bookmark) :
  sortKey m = ofZ 0 ->
  sort byPage [mkBookmark t (PageNum z) None; m]
  = if (0 <? z)%Z then [m; mkBookmark t (PageNum z) None]
    else [mkBookmark t (PageNum z) None; m].
Proof.
intros Hm. cbn [sort sortInsert].
rewrite byPage_positive, Hm, (sortKey_plain (mkBookmark t (PageNum z) None))
  by reflexivity.
cbn [pageKey page].
destruct (0 <? z)%Z eqn:E.
- apply Z.ltb_lt in E.
  assert (Hle : numLeb (ofZ z) (ofZ 0) = false).
  { destruct (numLeb (ofZ z) (ofZ 0)) eqn:En; [|reflexivity].
    apply (proj1 (numLe_ofZ z 0)) in En. lia. }
  now rewrite Hle.
- apply Z.ltb_ge in E.
  assert (Hle : numLeb (ofZ z) (ofZ 0) = true) by now apply numLe_ofZ.
  now rewrite Hle.
Qed.




(** The two defaults seen from outside: a bookmark without a page sorts
    before a bookmark of page 1, and both are printed with page 1. *)
Example missing_page_sorts_first :
  serialize [ mkBookmark (Some "A") (PageNum 1) None;
              mkBookmark (Some "M") PageAbsent None ]
  = "1||M" ++ newline ++ "1||A".
Proof. reflexivity. Qed.

Lemma serialize_nonempty (n : Bookmark) (forest : list Bookmark) :
  serialize (n :: forest) <> "".
Proof.
  rewrite serialize_preorder.
  pose proof (sortBookmarksByPage_length (n :: forest)) as Hlen.
  destruct (sortBookmarksByPage (n :: forest)) as [|[t p c] g]; [discriminate|].
  unfold preorder. cbn [flat_map preorderNode app map].
  apply join_nonempty. apply printedLine_nonempty.
Qed.

(** C4.  Serialization yields the empty string exactly for the empty
    forest; a forest of one node with an empty title gives ["1||"]. *)
Theorem C4_empty_string_iff_empty_forest :
  (forall forest, serialize forest = "" <-> forest = [])
  /\ serialize [ mkBookmark (Some "") (PageNum 1) None ] = "1||".
Proof.
  split; [|reflexivity].
  intros [|n forest]; split; intros H; try reflexivity.
  - now apply serialize_nonempty in H.
  - discriminate.
Qed.
End SerializerClaims.

(* ================================================================== *)
(** ** The tree store *)
(* ================================================================== *)

Section StoreFacts.
Import JS Store Forest.
Local Open Scope string_scope.
Local Open Scope list_scope.

Lemma Node_nested_ind (P : Node -> Prop) :
  (forall i t p ch, Forall P ch -> P (mkNode i t p ch)) ->
  forall n, P n.
Proof.
  intros Hnode. fix IH 1. intros [i t p ch]. apply Hnode.
  induction ch as [|c ch IHch]; constructor; [apply IH | exact IHch].
Qed.

Lemma withChildren_same (n : Node) : withChildren (children n) n = n.
Proof. now destruct n. Qed.

(** The JSON round trip returns an equal structure. *)
Lemma copyNode_same (n : Node) : copyNode n = n.
Proof.
  induction n as [i t p ch IH] using Node_nested_ind. simpl. f_equal.
  induction IH as [|c ch Hc Hch IHch]; simpl; [reflexivity|]. now rewrite Hc, IHch.
Qed.

Lemma deepCopy_same (t : list Node) : deepCopy t = t.
Proof.
  unfold deepCopy. induction t as [|n t IH]; simpl; [reflexivity|].
  now rewrite copyNode_same, IH.
Qed.

Lemma setTree_same (st : AppState) : setTree (tree st) st = st.
Proof. now destruct st. Qed.

Lemma forestIds_cons (n : Node) (f : list Node) :
  forestIds (n :: f) = id n :: forestIds (children n) ++ forestIds f.
Proof. destruct n; reflexivity. Qed.

Lemma eqb_absent (n : Node) (f : list Node) (target : string) :
  ~ In target (forestIds (n :: f)) -> String.eqb (id n) target = false.
Proof.
  rewrite forestIds_cons. intros H. apply String.eqb_neq. intros E.
  apply H. left. exact E.
Qed.

Section Absent.
Variable target : string.
Variable op : Op.

Lemma scan_absent (below : Node -> bool * Node) (rest : list Node) :
  Forall (fun n => ~ In target (forestIds (children n)) -> below n = (false, n)) rest ->
  ~ In target (forestIds rest) ->
  forall done, scan target op below done rest = (false, done ++ rest).
Proof.
  induction 1 as [|n rest Hn Hrest IH]; intros Habs done; simpl.
  - now rewrite app_nil_r.
  - rewrite (eqb_absent _ _ _ Habs).
    rewrite forestIds_cons in Habs.
    assert (Hch : ~ In target (forestIds (children n)))
      by (intros H; apply Habs; right; apply in_or_app; now left).
    assert (Hr : ~ In target (forestIds rest))
      by (intros H; apply Habs; right; apply in_or_app; now right).
    rewrite (Hn Hch), (IH Hr), <- app_assoc.
    now destruct (0 <? length (children n))%nat.
Qed.

Lemma findBelow_absent (n : Node) :
  ~ In target (forestIds (children n)) -> findBelow target op n = (false, n).
Proof.
  induction n as [i t p ch IH] using Node_nested_ind. intros Habs.
  cbn [findBelow children] in *.
  rewrite (scan_absent _ ch IH Habs). simpl. reflexivity.
Qed.

(** A lookup miss: [findAndOperate] returns [false] and the array is as
    it was. *)
Lemma findAndOperate_absent (nodes : list Node) :
  ~ In target (forestIds nodes) ->
  findAndOperate nodes target op = (false, nodes).
Proof.
  intros Habs. unfold findAndOperate.
  rewrite scan_absent; [reflexivity | | exact Habs].
  apply List.Forall_forall. intros n _. apply findBelow_absent.
Qed.
End Absent.

Lemma findIndex_absent (target : string) (nodes : list Node) :
  ~ In target (forestIds nodes) -> findIndex target nodes = None.
Proof.
  induction nodes as [|n nodes IH]; [reflexivity|]. intros Habs. simpl.
  rewrite (eqb_absent _ _ _ Habs). rewrite IH; [reflexivity|].
  rewrite forestIds_cons in Habs. intros H. apply Habs. right.
  apply in_or_app. now right.
Qed.

End StoreFacts.

Section CommitClaims.
Import JS Store Forest.
Local Open Scope string_scope.
Local Open Scope list_scope.

(** C5.  A commit of an add or an edit whose title is empty once trimmed,
    or whose page does not parse to a positive integer, or whose page
    exceeds the page count the state knows, is rejected: an error is
    reported and nothing else happens, so the forest is as it was. *)
Theorem C5_invalid_commit_rejected (uuid : string) (st : AppState) :
  trim (formTitle st) = ""
  \/ (forall p, parseInt (formPage st) = Some p -> (p < 1)%Z)
  \/ (exists p n, parseInt (formPage st) = Some p
                  /\ knownPageCount st = Some n /\ (n < p)%Z) ->
  saveModal uuid st
  = showToast "Please provide a valid title and page number" Error st
  /\ tree (saveModal uuid st) = tree st
  /\ reportsFailure st (saveModal uuid st) = true.
Proof.
  intros H.
  assert (Hrej : rejected (trim (formTitle st)) (parseInt (formPage st))
                          (numPages st) = true).
  { unfold rejected. apply orb_true_iff.
    destruct H as [Ht | [Hp | (p & n & Hp & Hn & Hlt)]].
    - left. rewrite Ht. reflexivity.
    - right. destruct (parseInt (formPage st)) as [p|]; [|reflexivity].
      specialize (Hp p eq_refl).
      apply orb_true_iff; left. apply orb_true_iff; right. now apply Z.ltb_lt.
    - right. rewrite Hp. apply orb_true_iff; right.
      unfold knownPageCount in Hn. destruct (numPages st) as [m|]; [|discriminate].
      destruct (m =? 0)%Z; [discriminate|]. injection Hn as ->.
      now apply Z.ltb_lt. }
  unfold saveModal. rewrite Hrej. repeat split.
  unfold reportsFailure, showToast. cbn [toasts].
  rewrite List.filter_app, length_app. cbn. apply Nat.ltb_lt. lia.
Qed.

Lemma C5_invalid_commit_rejected_witness :
  tree (saveModal "u1" (sampleForm AddRoot None None "   " "2")) = [nodeA]
  /\ tree (saveModal "u1" (sampleForm Edit None (Some "id-b") "B2" "abc")) = [nodeA]
  /\ tree (saveModal "u1" (sampleForm AddChild (Some "id-a") None "D" "11")) = [nodeA].
Proof.
  split; [|split].
  - apply (C5_invalid_commit_rejected "u1" (sampleForm AddRoot None None "   " "2")).
    left. reflexivity.
  - apply (C5_invalid_commit_rejected "u1" (sampleForm Edit None (Some "id-b") "B2" "abc")).
    right; left. intros p Hp. discriminate Hp.
  - apply (C5_invalid_commit_rejected "u1" (sampleForm AddChild (Some "id-a") None "D" "11")).
    right; right. exists 11%Z, 10%Z. repeat split.
Defined.

(** C6 (as the code has it).  For an id that is not in the forest,
    [findAndOperate] returns [false] and changes nothing; inserting a
    child under it, editing it and removing it leave the forest as it was,
    and each shows the notification of a success: no failure is
    reported. *)
Theorem C6_lookup_miss_is_silent (target : string) (st : AppState) :
  ~ In target (forestIds (tree st)) ->
  (forall op, findAndOperate (tree st) target op = (false, tree st))
  /\ removeNode target st = showToast "Bookmark removed" Info st
  /\ (forall uuid title page,
        modalMode st = AddChild -> modalParentId st = Some target ->
        target <> "" ->
        commit uuid title page st
        = setModalOpen false (showToast "Child bookmark added" Info st))
  /\ (forall uuid title page,
        modalMode st = Edit -> editingId st = Some target ->
        target <> "" ->
        commit uuid title page st
        = setModalOpen false (showToast "Bookmark updated" Info st)).
Proof.
  intros Habs.
  assert (Hmiss : forall op, findAndOperate (tree st) target op = (false, tree st))
    by (intros op; now apply findAndOperate_absent).
  split; [exact Hmiss|]. split; [|split].
  - unfold removeNode. rewrite deepCopy_same, (findIndex_absent _ _ Habs), Hmiss.
    cbn [snd]. now rewrite setTree_same.
  - intros uuid title page Hmode Hparent Hne. unfold commit.
    rewrite Hmode, Hparent. cbn [truthyId].
    apply String.eqb_neq in Hne. rewrite Hne.
    rewrite deepCopy_same, Hmiss. cbn [snd]. now rewrite setTree_same.
  - intros uuid title page Hmode Hedit Hne. unfold commit.
    rewrite Hmode, Hedit. cbn [truthyId].
    apply String.eqb_neq in Hne. rewrite Hne.
    destruct (truthyId (modalParentId st));
      rewrite deepCopy_same, Hmiss; cbn [snd]; now rewrite setTree_same.
Qed.

Lemma C6_lookup_miss_is_silent_witness :
  ~ In "id-x" (forestIds (tree sampleState))
  /\ removeNode "id-x" sampleState
     = showToast "Bookmark removed" Info sampleState.
Proof.
  assert (H : ~ In "id-x" (forestIds (tree sampleState))).
  { cbv. intros H. repeat (destruct H as [H|H]; [discriminate H|]). exact H. }
  split; [exact H|].
  exact (proj1 (proj2 (C6_lookup_miss_is_silent "id-x" sampleState H))).
Defined.

(** C6 as stated fails: removing, inserting under or editing an id that
    the forest does not have reports no failure. *)
Lemma C6_miss_reports_no_failure :
  ~ In "id-x" (forestIds (tree sampleState))
  /\ toasts (removeNode "id-x" sampleState) = [mkToast "Bookmark removed" Info]
  /\ reportsFailure sampleState (removeNode "id-x" sampleState) = false
  /\ reportsFailure (sampleForm AddChild (Some "id-x") None "T" "1")
       (saveModal "u1" (sampleForm AddChild (Some "id-x") None "T" "1")) = false
  /\ reportsFailure (sampleForm Edit None (Some "id-x") "T" "1")
       (saveModal "u1" (sampleForm Edit None (Some "id-x") "T" "1")) = false.
Proof.
  split; [|repeat split].
  cbv. intros H. repeat (destruct H as [H|H]; [discriminate H|]). exact H.
Qed.
End CommitClaims.

Section RemoveFacts.
Import JS Store Forest.
Local Open Scope string_scope.
Local Open Scope list_scope.

(** Induction over a forest: the children of the first node, then the
    siblings after it. *)
Lemma forest_ind (Q : list Node -> Prop) :
  Q [] ->
  (forall n f, Q (children n) -> Q f -> Q (n :: f)) ->
  forall f, Q f.
Proof.
intros Hnil Hcons.
assert (Hall : forall n, Q (children n)).
{ induction n as [i t p ch IH] using Node_nested_ind. simpl.
  induction IH as [|c ch Hc Hch IHch]; [exact Hnil | now apply Hcons]. }
induction f as [|n f IH]; [exact Hnil | now apply Hcons].
Qed.

Lemma detach_cons (target : string) (n : Node) (f : list Node) :
  detach target (n :: f)
  = if String.eqb (id n) target then detach target f
    else withChildren (detach target (children n)) n :: detach target f.
Proof.
unfold detach at 1. cbn [flat_map].
destruct (String.eqb (id n) target); [reflexivity|].
destruct n; reflexivity.
Qed.

Lemma forestCount_cons (n : Node) (f : list Node) :
  forestCount (n :: f) = (S (forestCount (children n)) + forestCount f)%nat.
Proof. destruct n; reflexivity. Qed.

Lemma NoDup_forestIds_cons (n : Node) (f : list Node) :
  List.NoDup (forestIds (n :: f)) ->
  ~ In (id n) (forestIds (children n)) /\ ~ In (id n) (forestIds f)
  /\ List.NoDup (forestIds (children n)) /\ List.NoDup (forestIds f)
  /\ (forall i, In i (forestIds (children n)) -> ~ In i (forestIds f)).
Proof.
rewrite forestIds_cons. intros H. apply List.NoDup_cons_iff in H as [Hid H].
split; [intros Hin; apply Hid, in_or_app; now left|].
split; [intros Hin; apply Hid, in_or_app; now right|].
split; [now apply List.NoDup_app_remove_r in H|].
split; [now apply List.NoDup_app_remove_l in H|].
intros i Hi Hf. revert H Hi Hf. generalize (forestIds (children n)) as l.
induction l as [|x l IH]; simpl; [tauto|].
intros H [->|Hi] Hf.
- apply List.NoDup_cons_iff in H as [Hx _]. apply Hx, in_or_app. now right.
- apply List.NoDup_cons_iff in H as [_ H]. now apply IH.
Qed.

Lemma detach_absent (target : string) (f : list Node) :
  ~ In target (forestIds f) -> detach target f = f.
Proof.
induction f as [|n f IHch IHf] using forest_ind; [reflexivity|].
intros Habs. rewrite detach_cons, (eqb_absent _ _ _ Habs).
rewrite forestIds_cons in Habs.
rewrite IHch, IHf, withChildren_same; [reflexivity | |];
  intros H; apply Habs; right; apply in_or_app; auto.
Qed.

Lemma locate_cons (target : string) (n : Node) (f : list Node) :
  locate target (n :: f)
  = if String.eqb (id n) target then Some n
    else match locate target (children n) with
         | Some m => Some m
         | None => locate target f
         end.
Proof.
unfold locate at 1. cbn [firstSome].
destruct n as [i t p ch]. cbn [locateIn id children].
now destruct (String.eqb i target).
Qed.

Lemma locate_absent (target : string) (f : list Node) :
  ~ In target (forestIds f) -> locate target f = None.
Proof.
induction f as [|n f IHch IHf] using forest_ind; [reflexivity|].
intros Habs. rewrite locate_cons, (eqb_absent _ _ _ Habs).
rewrite forestIds_cons in Habs.
rewrite IHch, IHf; [reflexivity | |];
  intros H; apply Habs; right; apply in_or_app; auto.
Qed.

Lemma findIndex_In (target : string) (f : list Node) (idx : nat) :
  findIndex target f = Some idx -> In target (forestIds f).
Proof.
revert idx. induction f as [|n f IH]; intros idx; [discriminate|].
simpl findIndex. rewrite forestIds_cons.
destruct (String.eqb (id n) target) eqn:E.
- intros _. left. now apply String.eqb_eq.
- destruct (findIndex target f) as [j|]; [|discriminate].
  intros _. right. apply in_or_app. right. now apply (IH j).
Qed.

(** A root-level match: [copy.splice(idx, 1)] detaches the node. *)
Lemma findIndex_splice (target : string) (f : list Node) (idx : nat) :
  List.NoDup (forestIds f) -> findIndex target f = Some idx ->
  spliceOp f idx = detach target f.
Proof.
unfold spliceOp. revert idx. induction f as [|n f IH]; intros idx Hnd; [discriminate|].
apply NoDup_forestIds_cons in Hnd as (Hch & Hf & Hndch & Hndf & Hdisj).
simpl findIndex. rewrite detach_cons.
destruct (String.eqb (id n) target) eqn:E.
- intros [= <-]. apply String.eqb_eq in E. subst target.
  simpl. now rewrite detach_absent.
- destruct (findIndex target f) as [j|] eqn:Ej; [|discriminate].
  intros [= <-]. simpl. rewrite (IH j Hndf eq_refl).
  rewrite (detach_absent target (children n)), withChildren_same; [reflexivity|].
  intros Hin. apply (Hdisj _ Hin). now apply (findIndex_In _ _ j).
Qed.

Lemma scan_splice (target : string) (below : Node -> bool * Node) (rest : list Node) :
  Forall (fun n => below n
                   = if existsb (String.eqb target) (forestIds (children n))
                     then (true, withChildren (detach target (children n)) n)
                     else (false, n)) rest ->
  List.NoDup (forestIds rest) -> In target (forestIds rest) ->
  forall done,
    scan target spliceOp below done rest = (true, done ++ detach target rest).
Proof.
induction 1 as [|n rest Hn Hrest IH]; intros Hnd Hin done; [destruct Hin|].
apply NoDup_forestIds_cons in Hnd as (Hch & Hf & Hndch & Hndf & Hdisj).
cbn [scan]. rewrite detach_cons.
destruct (String.eqb (id n) target) eqn:E.
- apply String.eqb_eq in E. subst target.
  unfold spliceOp. rewrite delete_middle. now rewrite detach_absent.
- rewrite forestIds_cons in Hin. destruct Hin as [Hin|Hin];
    [apply String.eqb_neq in E; congruence|].
  rewrite Hn.
  destruct (existsb (String.eqb target) (forestIds (children n))) eqn:Ex.
  + apply existsb_exists in Ex as (x & Hx & Ex). apply String.eqb_eq in Ex. subst x.
    assert (Hlen : (0 <? length (children n))%nat = true).
    { destruct (children n); [destruct Hx | reflexivity]. }
    rewrite Hlen. rewrite (detach_absent target rest); [reflexivity|].
    now apply Hdisj.
  + assert (Hnot : ~ In target (forestIds (children n))).
    { intros Hx. apply (f_equal negb) in Ex. simpl in Ex.
      assert (Ht : existsb (String.eqb target) (forestIds (children n)) = true).
      { apply existsb_exists. exists target. split; [exact Hx | apply String.eqb_refl]. }
      rewrite Ht in Ex. discriminate. }
    apply in_app_or in Hin. destruct Hin as [Hin|Hin]; [contradiction|].
    rewrite (IH Hndf Hin), (detach_absent target (children n) Hnot), withChildren_same.
    rewrite <- app_assoc. now destruct (0 <? length (children n))%nat.
Qed.

Lemma findBelow_splice (target : string) (n : Node) :
  List.NoDup (forestIds (children n)) ->
  findBelow target spliceOp n
  = if existsb (String.eqb target) (forestIds (children n))
    then (true, withChildren (detach target (children n)) n)
    else (false, n).
Proof.
induction n as [i t p ch IH] using Node_nested_ind. cbn [children]. intros Hnd.
destruct (existsb (String.eqb target) (forestIds ch)) eqn:Ex.
- apply existsb_exists in Ex as (x & Hx & Ex). apply String.eqb_eq in Ex. subst x.
  cbn [findBelow children]. rewrite scan_splice; [reflexivity | | exact Hnd | exact Hx].
  clear Hx. induction IH as [|c ch Hc Hch IHch]; constructor.
  + apply Hc. now apply NoDup_forestIds_cons in Hnd.
  + apply IHch. now apply NoDup_forestIds_cons in Hnd.
- apply findBelow_absent. cbn [children]. intros Hx.
  assert (Ht : existsb (String.eqb target) (forestIds ch) = true).
  { apply existsb_exists. exists target. split; [exact Hx | apply String.eqb_refl]. }
  congruence.
Qed.

(** A nested match: the call with [arr.splice(i, 1)] detaches the node. *)
Lemma findAndOperate_splice (target : string) (f : list Node) :
  List.NoDup (forestIds f) -> In target (forestIds f) ->
  findAndOperate f target spliceOp = (true, detach target f).
Proof.
intros Hnd Hin. unfold findAndOperate.
rewrite scan_splice; [reflexivity | | exact Hnd | exact Hin].
clear Hin. induction f as [|n f IH]; constructor.
- apply findBelow_splice. now apply NoDup_forestIds_cons in Hnd.
- apply IH. now apply NoDup_forestIds_cons in Hnd.
Qed.

Lemma removeNode_detach (target : string) (st : AppState) :
  List.NoDup (forestIds (tree st)) -> In target (forestIds (tree st)) ->
  tree (removeNode target st) = detach target (tree st).
Proof.
intros Hnd Hin. unfold removeNode. cbn [tree showToast setTree].
rewrite deepCopy_same.
destruct (findIndex target (tree st)) as [idx|] eqn:E.
- now apply findIndex_splice.
- now rewrite findAndOperate_splice.
Qed.
End RemoveFacts.

Section DetachFacts.
Import JS Store Forest.
Local Open Scope string_scope.
Local Open Scope list_scope.

Variable target : string.

Lemma nodeIds_eq (n : Node) : nodeIds n = id n :: forestIds (children n).
Proof. destruct n; reflexivity. Qed.

Lemma nodeCount_eq (n : Node) : nodeCount n = S (forestCount (children n)).
Proof. destruct n; reflexivity. Qed.

Lemma locate_incl (f : list Node) :
  forall m, locate target f = Some m ->
            id m = target /\ incl (nodeIds m) (forestIds f).
Proof.
induction f as [|n f IHch IHf] using forest_ind; intros m; [discriminate|].
rewrite locate_cons, forestIds_cons.
destruct (String.eqb (id n) target) eqn:E.
- intros [= <-]. split; [now apply String.eqb_eq|].
  rewrite nodeIds_eq. intros i [<-|Hi]; [now left | right; apply in_or_app; now left].
- destruct (locate target (children n)) as [m'|] eqn:El.
  + intros [= <-]. destruct (IHch m' eq_refl) as [Hid Hincl].
    split; [exact Hid|]. intros i Hi. right. apply in_or_app. left. now apply Hincl.
  + intros Hl. destruct (IHf m Hl) as [Hid Hincl].
    split; [exact Hid|]. intros i Hi. right. apply in_or_app. right. now apply Hincl.
Qed.

(** Detaching the node of an id that occurs once: the ids left are those
    outside the subtree of the node, and the count drops by its size. *)
Lemma detach_subtree (f : list Node) :
  List.NoDup (forestIds f) -> In target (forestIds f) ->
  exists m,
    locate target f = Some m
    /\ (forall i, In i (forestIds (detach target f))
                  <-> In i (forestIds f) /\ ~ In i (nodeIds m))
    /\ (forestCount (detach target f) + nodeCount m = forestCount f)%nat.
Proof using Type.
induction f as [|n f IHch IHf] using forest_ind; intros Hnd Hin; [destruct Hin|].
apply NoDup_forestIds_cons in Hnd as (Hch & Hf & Hndch & Hndf & Hdisj).
rewrite locate_cons, detach_cons.
destruct (String.eqb (id n) target) eqn:E.
- apply String.eqb_eq in E. subst target. exists n. split; [reflexivity|].
  rewrite (detach_absent _ _ Hf). split.
  + intros i. rewrite forestIds_cons, nodeIds_eq. split.
    * intros Hi. split; [right; apply in_or_app; now right|].
      intros [<-|Hc]; [contradiction | exact (Hdisj _ Hc Hi)].
    * intros [[<-|Hi] Hnot]; [exfalso; apply Hnot; now left|].
      apply in_app_or in Hi as [Hi|Hi]; [exfalso; apply Hnot; now right | exact Hi].
  + rewrite forestCount_cons, nodeCount_eq. lia.
- rewrite forestIds_cons in Hin. destruct Hin as [Hin|Hin];
    [apply String.eqb_neq in E; congruence|].
  apply in_app_or in Hin as [Hin|Hin].
  + destruct (IHch Hndch Hin) as (m & Hloc & Hids & Hcount).
    destruct (locate_incl _ _ Hloc) as [_ Hincl].
    rewrite Hloc, (detach_absent target f (Hdisj _ Hin)).
    exists m. split; [reflexivity|]. split.
    * intros i. rewrite !forestIds_cons. cbn [id children withChildren]. split.
      -- intros [<-|Hi].
         ++ split; [now left|]. intros Hm. apply Hch. now apply Hincl.
         ++ apply in_app_or in Hi as [Hi|Hi].
            ** apply Hids in Hi as [Hi Hm]. split; [right; apply in_or_app; now left | exact Hm].
            ** split; [right; apply in_or_app; now right|].
               intros Hm. apply (Hdisj i); [now apply Hincl | exact Hi].
      -- intros [[<-|Hi] Hm]; [now left|]. right. apply in_or_app.
         apply in_app_or in Hi as [Hi|Hi]; [left; apply Hids; now split | now right].
    * rewrite !forestCount_cons. cbn [children withChildren]. lia.
  + assert (Hnot : ~ In target (forestIds (children n)))
      by (intros Hc; exact (Hdisj _ Hc Hin)).
    destruct (IHf Hndf Hin) as (m & Hloc & Hids & Hcount).
    destruct (locate_incl _ _ Hloc) as [_ Hincl].
    rewrite (locate_absent _ _ Hnot), Hloc, (detach_absent _ _ Hnot), withChildren_same.
    exists m. split; [reflexivity|]. split.
    * intros i. rewrite !forestIds_cons. split.
      -- intros [<-|Hi].
         ++ split; [now left|]. intros Hm. apply Hf. now apply Hincl.
         ++ apply in_app_or in Hi as [Hi|Hi].
            ** split; [right; apply in_or_app; now left|].
               intros Hm. apply (Hdisj i); [exact Hi | now apply Hincl].
            ** apply Hids in Hi as [Hi Hm]. split; [right; apply in_or_app; now right | exact Hm].
      -- intros [[<-|Hi] Hm]; [now left|]. right. apply in_or_app.
         apply in_app_or in Hi as [Hi|Hi]; [now left | right; apply Hids; now split].
    * rewrite !forestCount_cons. lia.
Qed.
End DetachFacts.

Section RemoveClaim.
Import JS Store Forest.
Local Open Scope string_scope.
Local Open Scope list_scope.

(** C7.  In a forest with unique ids, [remove(id)] of an id of the forest
    detaches the node located by that id together with everything below
    it: the forest left is the old one without that subtree, nothing below
    the node stays or moves up, every other node stays, and the node count
    drops by the size of the subtree.  Root and nested nodes are treated
    alike. *)
Theorem C7_remove_detaches_subtree (target : string) (st : AppState) :
  List.NoDup (forestIds (tree st)) ->
  In target (forestIds (tree st)) ->
  exists n,
    locate target (tree st) = Some n
    /\ id n = target
    /\ tree (removeNode target st) = detach target (tree st)
    /\ (forall i, In i (forestIds (tree (removeNode target st)))
                  <-> In i (forestIds (tree st)) /\ ~ In i (nodeIds n))
    /\ (forestCount (tree (removeNode target st)) + nodeCount n
        = forestCount (tree st))%nat.
Proof.
intros Hnd Hin.
destruct (detach_subtree target (tree st) Hnd Hin) as (n & Hloc & Hids & Hcount).
exists n. rewrite (removeNode_detach _ _ Hnd Hin).
split; [exact Hloc|]. split; [now apply (locate_incl target (tree st))|].
split; [reflexivity|]. split; [exact Hids | exact Hcount].
Qed.

Lemma sampleState_ids : forestIds (tree sampleState) = ["id-a"; "id-b"; "id-c"].
Proof. reflexivity. Qed.

Lemma sampleState_NoDup : List.NoDup (forestIds (tree sampleState)).
Proof.
rewrite sampleState_ids.
repeat (constructor; [simpl; intros H; repeat (destruct H as [H|H]; [discriminate H|]); exact H|]).
constructor.
Defined.

(** For A(children: B, C): removing B leaves A(children: C), removing A
    leaves the empty forest. *)
Lemma C7_remove_detaches_subtree_witness :
  tree (removeNode "id-b" sampleState) = [withChildren [nodeC] (createNode "id-a" "A" 1)]
  /\ tree (removeNode "id-a" sampleState) = [].
Proof.
split.
- destruct (C7_remove_detaches_subtree "id-b" sampleState sampleState_NoDup)
    as (n & _ & _ & Htree & _).
  + rewrite sampleState_ids. simpl. auto.
  + rewrite Htree. reflexivity.
- destruct (C7_remove_detaches_subtree "id-a" sampleState sampleState_NoDup)
    as (n & _ & _ & Htree & _).
  + rewrite sampleState_ids. simpl. auto.
  + rewrite Htree. reflexivity.
Defined.
End RemoveClaim.

Section ImportClaim.
Import JS Store Forest.
Local Open Scope string_scope.
Local Open Scope list_scope.

Lemma OutlineItem_nested_ind (P : OutlineItem -> Prop) :
  (forall t d its, Forall P its -> P (mkItem t d its)) ->
  forall it, P it.
Proof.
intros Hitem. fix IH 1. intros [t d its]. apply Hitem.
induction its as [|c its IHits]; constructor; [apply IH | exact IHits].
Qed.

Variable doc : DocumentProxy.
Variable uuids : nat -> string.

Hypothesis doc_has_pages : (1 <= docNumPages doc)%Z.

Lemma totalPagesOf_numPages : totalPagesOf doc = docNumPages doc.
Proof using doc_has_pages.
unfold totalPagesOf. destruct (docNumPages doc =? 0)%Z eqn:E; [|reflexivity].
apply Z.eqb_eq in E. lia.
Qed.

Lemma safePage_NoPage (explicit : list DestElem) :
  NoPage doc explicit ->
  safePage (totalPagesOf doc) (explicitToPageNumber doc explicit) = 1%Z.
Proof using doc_has_pages.
rewrite totalPagesOf_numPages.
intros [|rest|ref rest Hrej|ref rest idx Hidx Hout];
  cbn [explicitToPageNumber]; try reflexivity.
- now rewrite Hrej.
- rewrite Hidx. cbn [safePage].
  destruct (negb (idx + 1 =? 0)%Z && (1 <=? idx + 1)%Z
            && (idx + 1 <=? docNumPages doc)%Z) eqn:E; [|reflexivity].
  apply andb_true_iff in E as [E E2]. apply andb_true_iff in E as [_ E1].
  apply Z.leb_le in E1, E2. lia.
Qed.

(** A destination that cannot be resolved gives page 1. *)
Lemma safePage_Unresolved (d : Dest) :
  Unresolved doc d ->
  safePage (totalPagesOf doc) (destToPageNumber doc d) = 1%Z.
Proof using doc_has_pages.
intros [| |name Hrej|name Hnull|name explicit Hdest Hno|explicit Hno];
  cbn [destToPageNumber]; try reflexivity.
- destruct (String.eqb name ""); [reflexivity | now rewrite Hrej].
- destruct (String.eqb name ""); [reflexivity | now rewrite Hnull].
- destruct (String.eqb name ""); [reflexivity|]. rewrite Hdest.
  now apply safePage_NoPage.
- now apply safePage_NoPage.
Qed.

(** A destination that gives a page within the document gives that page. *)
Lemma safePage_PageOf (d : Dest) (p : Z) :
  PageOf doc d p -> (1 <= p <= docNumPages doc)%Z ->
  safePage (totalPagesOf doc) (destToPageNumber doc d) = p.
Proof using doc_has_pages.
rewrite totalPagesOf_numPages.
assert (Hin : forall q, (1 <= q <= docNumPages doc)%Z ->
                safePage (docNumPages doc) (Some q) = q).
{ intros q Hq. cbn [safePage].
  assert (E0 : (q =? 0)%Z = false) by (apply Z.eqb_neq; lia).
  assert (E1 : (1 <=? q)%Z = true) by (apply Z.leb_le; lia).
  assert (E2 : (q <=? docNumPages doc)%Z = true) by (apply Z.leb_le; lia).
  now rewrite E0, E1, E2. }
intros [ref rest idx Hidx | name ref rest idx Hne Hdest Hidx] Hp;
  cbn [destToPageNumber explicitToPageNumber].
- rewrite Hidx. now apply Hin.
- apply String.eqb_neq in Hne. rewrite Hne, Hdest.
  cbn [explicitToPageNumber]. rewrite Hidx. now apply Hin.
Qed.

Lemma importedTitle_blank (it : OutlineItem) :
  blankTitle it -> importedTitle (itemTitle it) = "Untitled".
Proof. unfold blankTitle, importedTitle. now intros ->. Qed.

Lemma importedTitle_trimmed (t : string) :
  trim t <> "" -> importedTitle (Some t) = trim t.
Proof.
intros H. unfold importedTitle. apply String.eqb_neq in H. now rewrite H.
Qed.

Lemma mapItems_imported (its : list OutlineItem) :
  Forall (fun it => forall k, ImportedFrom doc it (fst (mapItem doc uuids it k))) its ->
  forall k, Forall2 (ImportedFrom doc) its (fst (mapItems (mapItem doc uuids) its k)).
Proof using Type.
induction 1 as [|it its Hit Hits IH]; intros k; cbn [mapItems]; [constructor|].
specialize (Hit k). destruct (mapItem doc uuids it k) as [n k1].
specialize (IH k1). destruct (mapItems (mapItem doc uuids) its k1) as [ns k2].
now constructor.
Qed.

Lemma mapItem_imported (it : OutlineItem) :
  forall k, ImportedFrom doc it (fst (mapItem doc uuids it k)).
Proof using doc_has_pages.
induction it as [t d its IH] using OutlineItem_nested_ind. intros k.
pose proof (mapItems_imported its IH (S k)) as Hch.
cbn [mapItem items dest itemTitle].
destruct (mapItems (mapItem doc uuids) its (S k)) as [ch k'].
cbn [fst] in *.
constructor; cbn [page title children withChildren createNode dest itemTitle items].
- apply safePage_Unresolved.
- apply safePage_PageOf.
- apply (importedTitle_blank (mkItem t d its)).
- intros t0 [= ->]. apply importedTitle_trimmed.
- exact Hch.
Qed.

(** C8.  Every node that [mapOutline] creates for a document of at least
    one page, at any depth, has page 1 when the destination of its item
    cannot be resolved (it is absent, its name is unknown to the document,
    it has no page reference, or the lookup of the reference fails) or
    resolves to a page outside [1, numPages], and the page looked up when
    that lies within; it has the title "Untitled" when the title of its
    item is empty once trimmed; and the children of a node are imported
    from the nested items in the same way. *)
Theorem C8_import_defaults (its : list OutlineItem) (k : nat) :
  Forall2 (ImportedFrom doc) its (fst (mapOutline doc uuids its k)).
Proof using doc_has_pages.
unfold mapOutline. apply mapItems_imported.
apply List.Forall_forall. intros it _. apply mapItem_imported.
Qed.
End ImportClaim.

Section ImportExample.
Import JS Store Forest.
Local Open Scope string_scope.
Local Open Scope list_scope.

(** An item two levels down whose named destination is unknown to the
    document imports with page 1, and a blank title becomes "Untitled". *)
Example import_unresolved_nested :
  fst (mapOutline
         (mkDoc 5 (fun _ => Rejects) (fun r => Resolves (num r)))
         (fun k => String (ascii_of_nat (97 + k)) "")
         [ mkItem (Some "Part") (DestExplicit [ElemRef (mkRef 3 0)])
             [ mkItem (Some "Chapter") (DestExplicit [ElemRef (mkRef 7 0)])
                 [ mkItem (Some "  ") (DestNamed "sec1") [] ] ] ]
         0)
  = [ mkNode "a" "Part" 4
        [ mkNode "b" "Chapter" 1
            [ mkNode "c" "Untitled" 1 [] ] ] ].
Proof. reflexivity. Qed.

(** The same document and outline: every node is imported as stated. *)
Lemma C8_import_defaults_witness :
  Forall2
    (ImportedFrom (mkDoc 5 (fun _ => Rejects) (fun r => Resolves (num r))))
    [ mkItem (Some "Part") (DestExplicit [ElemRef (mkRef 3 0)])
        [ mkItem (Some "Chapter") (DestExplicit [ElemRef (mkRef 7 0)])
            [ mkItem (Some "  ") (DestNamed "sec1") [] ] ] ]
    [ mkNode "a" "Part" 4
        [ mkNode "b" "Chapter" 1
            [ mkNode "c" "Untitled" 1 [] ] ] ].
Proof.
assert (H : (1 <= docNumPages
                   (mkDoc 5 (fun _ => Rejects) (fun r => Resolves (num r))))%Z)
  by (cbn; lia).
exact (C8_import_defaults
         (mkDoc 5 (fun _ => Rejects) (fun r => Resolves (num r)))
         (fun k => String (ascii_of_nat (97 + k)) "") H
         [ mkItem (Some "Part") (DestExplicit [ElemRef (mkRef 3 0)])
             [ mkItem (Some "Chapter") (DestExplicit [ElemRef (mkRef 7 0)])
                 [ mkItem (Some "  ") (DestNamed "sec1") [] ] ] ]
         0%nat).
Defined.
End ImportExample.

(* ================================================================== *)
(** ** The serializer and the store it reads *)
(* ================================================================== *)

Section HeapFacts.
Import JS Serializer Outline.
Local Open Scope string_scope.
Local Open Scope list_scope.

Lemma unchanged_refl (h : Heap.heap) : Heap.unchanged h h.
Proof. intros l c H. exact H. Qed.

Lemma unchanged_trans (h1 h2 h3 : Heap.heap) :
  Heap.unchanged h1 h2 -> Heap.unchanged h2 h3 -> Heap.unchanged h1 h3.
Proof. intros H12 H23 l c H. now apply H23, H12. Qed.

Lemma unchanged_length (h h' : Heap.heap) :
  Heap.unchanged h h' -> (length h <= length h')%nat.
Proof.
intros H. destruct (le_lt_dec (length h) (length h')) as [Hle|Hlt]; [exact Hle|].
destruct (lookup_lt_is_Some_2 h (length h') Hlt) as [c Hc].
apply H, lookup_lt_Some in Hc. lia.
Qed.

Lemma unchanged_alloc (h : Heap.heap) (c : Heap.Cell) :
  Heap.unchanged h (fst (Heap.alloc h c)).
Proof. intros l x H. simpl. now apply lookup_app_l_Some. Qed.

Lemma lookup_alloc (h : Heap.heap) (c : Heap.Cell) :
  fst (Heap.alloc h c) !! snd (Heap.alloc h c) = Some c.
Proof. simpl. now apply list_lookup_middle. Qed.

(** A write to a location that [h0] does not have leaves [h0] as it is. *)
Lemma unchanged_write (h0 h : Heap.heap) (l : Heap.loc) (c : Heap.Cell) :
  (length h0 <= l)%nat -> Heap.unchanged h0 h -> Heap.unchanged h0 (Heap.write h l c).
Proof.
intros Hl H l' x Hx. unfold Heap.write.
rewrite list_lookup_insert_ne; [now apply H|].
apply lookup_lt_Some in Hx. lia.
Qed.

Lemma unchanged_sameObjects (h h' : Heap.heap) :
  Heap.unchanged h h' -> Heap.sameObjects h h'.
Proof.
intros H l c Hc. apply H in Hc. destruct c; [exact Hc | exact Hc |].
eexists. exact Hc.
Qed.

Lemma sameObjects_push (h : Heap.heap) (lines : Heap.loc) (old new : list string) :
  h !! lines = Some (Heap.Lines old) ->
  Heap.sameObjects h (Heap.write h lines (Heap.Lines new)).
Proof.
intros Hl l c Hc. unfold Heap.write.
destruct (Nat.eq_dec lines l) as [<-|Hne].
- rewrite Hl in Hc. injection Hc as <-. exists new.
  apply list_lookup_insert_eq. now apply lookup_lt_Some in Hl.
- destruct c as [t p c|ls|ls]; [| |exists ls];
    rewrite list_lookup_insert_ne by exact Hne; exact Hc.
Qed.

Lemma notArray_sameObjects (h h' : Heap.heap) (c : option Heap.loc) :
  Heap.sameObjects h h' -> Heap.notArray h c -> Heap.notArray h' c.
Proof.
intros H. destruct c as [lc|]; [|trivial]. intros (cell & Hc & Hna).
specialize (H lc cell Hc). destruct cell as [t p c|ls|ls].
- exists (Heap.Obj t p c). split; [exact H | discriminate].
- now contradiction (Hna ls).
- destruct H as [ls' H]. exists (Heap.Lines ls'). split; [exact H | discriminate].
Qed.

Lemma Forall2_Forall_impl {A B : Type} (R R' : A -> B -> Prop) (l : list A) (l' : list B) :
  Forall (fun a => forall b, R a b -> R' a b) l -> Forall2 R l l' -> Forall2 R' l l'.
Proof.
intros Hall H. induction H as [|a b l l' Hab Hl IH]; constructor.
- apply (Forall_inv Hall), Hab.
- apply IH, (Forall_inv_tail Hall).
Qed.

(** What a bookmark is in the store does not depend on the arrays of
    strings. *)
Lemma ReprNode_sameObjects (h h' : Heap.heap) (b : Bookmark) :
  Heap.sameObjects h h' ->
  forall l, Heap.ReprNode h b l -> Heap.ReprNode h' b l.
Proof.
intros Hsame.
induction b as [t p | t p ch IH] using Bookmark_nested_ind; intros l H;
  inversion H as [t' p' c l' Hl Hna | t' p' ch' lc ls l' Hl Hlc Hch]; subst.
- eapply Heap.ReprNode_leaf; [apply (Hsame _ _ Hl) | now apply (notArray_sameObjects h)].
- eapply Heap.ReprNode_inner;
    [apply (Hsame _ _ Hl) | apply (Hsame _ _ Hlc) | now apply (Forall2_Forall_impl _ _ _ _ IH)].
Qed.

Lemma ReprNodes_sameObjects (h h' : Heap.heap) (f : list Bookmark) (ls : list Heap.loc) :
  Heap.sameObjects h h' ->
  Forall2 (Heap.ReprNode h) f ls -> Forall2 (Heap.ReprNode h') f ls.
Proof.
intros Hsame. apply Forall2_Forall_impl, List.Forall_forall.
intros b _. now apply ReprNode_sameObjects.
Qed.

Lemma ReprForest_sameObjects (h h' : Heap.heap) (f : list Bookmark) (l : Heap.loc) :
  Heap.sameObjects h h' -> Heap.ReprForest h f l -> Heap.ReprForest h' f l.
Proof.
intros Hsame (ls & Hl & Hf). exists ls.
split; [apply (Hsame _ _ Hl) | now apply (ReprNodes_sameObjects h)].
Qed.

Lemma ReprNode_page (h : Heap.heap) (b : Bookmark) (l : Heap.loc) :
  Heap.ReprNode h b l -> Heap.pageAt h l = page b.
Proof.
intros H. unfold Heap.pageAt.
inversion H as [t p c l' Hl Hna | t p ch lc ls l' Hl Hlc Hch]; subst; now rewrite Hl.
Qed.

(** Sorting the references with the comparator on references arranges them
    as sorting the bookmarks does. *)
Lemma sort_ReprNodes (h h1 : list Heap.Cell) (f : list Bookmark) (ls : list nat) :
  Heap.unchanged h h1 ->
  Forall2 (Heap.ReprNode h) f ls ->
  Forall2 (Heap.ReprNode h) (sort byPage f) (sort (Heap.byPageAt h1) ls).
Proof.
intros Hun.
assert (Hpage : forall a l, Heap.ReprNode h a l -> Heap.pageAt h1 l = page a).
{ intros a l Hal. apply ReprNode_page.
  eapply ReprNode_sameObjects; [|exact Hal]. now apply unchanged_sameObjects. }
assert (Hins : forall a l s ss,
           Heap.ReprNode h a l -> Forall2 (Heap.ReprNode h) s ss ->
           Forall2 (Heap.ReprNode h) (sortInsert byPage a s)
                   (sortInsert (Heap.byPageAt h1) l ss)).
{ intros a l s ss Hal Hs. induction Hs as [|b lb s ss Hb Hs IH]; simpl.
  - now repeat constructor.
  - unfold byPage, Heap.byPageAt, sortKey.
    rewrite (Hpage _ _ Hal), (Hpage _ _ Hb).
    destruct (positive _); repeat constructor; assumption. }
induction 1; simpl; [constructor | now apply Hins].
Qed.
End HeapFacts.

Section HeapSort.
Import JS Serializer Outline.
Local Open Scope string_scope.
Local Open Scope list_scope.

Lemma nodeSize_In (a : Bookmark) (f : list Bookmark) :
  In a f -> (nodeSize a <= forestSize f)%nat.
Proof.
induction f as [|b f IH]; [intros []|].
rewrite forestSize_cons. intros [->|H]; [lia|]. specialize (IH H). lia.
Qed.

Lemma unchanged_alloc2 (h : list Heap.Cell) (c1 c2 : Heap.Cell) :
  Heap.unchanged h ((h ++ [c1]) ++ [c2]).
Proof.
eapply unchanged_trans; [apply (unchanged_alloc h c1) | apply (unchanged_alloc (h ++ [c1]) c2)].
Qed.

Section Step.
Variable rec : list Heap.Cell -> nat -> option (list Heap.Cell * nat).
Variable k : nat.
Hypothesis rec_spec :
  forall h f l,
    Heap.ReprForest h f l -> (forestSize f < k)%nat ->
    exists h' r,
      rec h l = Some (h', r)
      /\ Heap.unchanged h h'
      /\ Heap.ReprForest h' (sortBookmarksByPage f) r
      /\ (length h <= r)%nat.

Lemma spreadNode_spec (h : list Heap.Cell) (a : Bookmark) (n : nat) :
  Heap.ReprNode h a n -> (nodeSize a <= k)%nat ->
  exists h' n',
    Heap.spreadNode rec h n = Some (h', n')
    /\ Heap.unchanged h h'
    /\ Heap.ReprNode h' (withSorted sortBookmarksByPage a) n'.
Proof using rec_spec.
intros H Hk.
inversion H as [t p c l' Hl Hna | t p ch lc ls l' Hl Hlc Hch]; subst.
- exists ((h ++ [Heap.Arr []]) ++ [Heap.Obj t p (Some (length h))]),
         (length (h ++ [Heap.Arr []])).
  split; [|split].
  + unfold Heap.spreadNode. rewrite Hl.
    destruct c as [lc|]; [|reflexivity].
    destruct Hna as (cell & Hc & Hn). rewrite Hc.
    destruct cell as [t' p' c'|ls|ls]; try reflexivity. now contradiction (Hn ls).
  + apply unchanged_alloc2.
  + unfold withSorted. cbn [title page children].
    eapply Heap.ReprNode_inner with (ls := []).
    * now apply list_lookup_middle.
    * apply lookup_app_l_Some. now apply list_lookup_middle.
    * constructor.
- assert (Hsize : (forestSize ch < k)%nat)
    by (rewrite nodeSize_eq in Hk; cbn [siblingsBelow children] in Hk; lia).
  destruct (rec_spec h ch lc (ex_intro _ ls (conj Hlc Hch)) Hsize)
    as (h1 & r & Hrec & Hun & (ls' & Hr & Hf') & _).
  exists (h1 ++ [Heap.Obj t p (Some r)]), (length h1).
  split; [|split].
  + unfold Heap.spreadNode. rewrite Hl, Hlc, Hrec. reflexivity.
  + eapply unchanged_trans; [exact Hun | apply (unchanged_alloc h1)].
  + unfold withSorted. cbn [title page children].
    eapply Heap.ReprNode_inner with (ls := ls').
    * now apply list_lookup_middle.
    * now apply lookup_app_l_Some.
    * eapply ReprNodes_sameObjects; [|exact Hf'].
      apply unchanged_sameObjects, (unchanged_alloc h1).
Qed.

Lemma mapNodes_spec (fs : list Bookmark) :
  forall (ls : list nat) (h : list Heap.Cell),
    Forall2 (Heap.ReprNode h) fs ls ->
    (forall a, In a fs -> (nodeSize a <= k)%nat) ->
    exists h' out,
      Heap.mapNodes rec h ls = Some (h', out)
      /\ Heap.unchanged h h'
      /\ Forall2 (Heap.ReprNode h') (map (withSorted sortBookmarksByPage) fs) out.
Proof using rec_spec.
induction fs as [|a fs IH]; intros ls h H Hk; inversion H as [|a' n fs' ls' Ha Hfs]; subst.
- exists h, []. split; [reflexivity|]. split; [apply unchanged_refl | constructor].
- destruct (spreadNode_spec h a n Ha (Hk a (or_introl eq_refl)))
    as (h1 & n' & Hspread & Hun1 & Hn').
  destruct (IH ls' h1) as (h2 & out & Hmap & Hun2 & Hout).
  { eapply ReprNodes_sameObjects; [|exact Hfs]. now apply unchanged_sameObjects. }
  { intros b Hb. apply Hk. now right. }
  exists h2, (n' :: out). split; [|split].
  + cbn [Heap.mapNodes]. now rewrite Hspread, Hmap.
  + now apply (unchanged_trans h h1 h2).
  + cbn [map]. constructor; [|exact Hout].
    eapply ReprNode_sameObjects; [|exact Hn']. now apply unchanged_sameObjects.
Qed.
End Step.

(** On a store that holds a forest at [l], [sortBookmarksByPage] returns,
    given fuel above the size of the forest; it leaves every location that
    existed as it was, and the array it returns is a new location that
    holds the sorted forest. *)
Lemma heap_sortBookmarksByPage_spec (fuel : nat) :
  forall (h : list Heap.Cell) (f : list Bookmark) (l : nat),
    Heap.ReprForest h f l -> (forestSize f < fuel)%nat ->
    exists h' r,
      Heap.sortBookmarksByPage fuel h l = Some (h', r)
      /\ Heap.unchanged h h'
      /\ Heap.ReprForest h' (sortBookmarksByPage f) r
      /\ (length h <= r)%nat.
Proof.
induction fuel as [|fuel IH]; intros h f l (ls & Hl & Hf) Hfuel; [lia|].
set (h1 := h ++ [Heap.Arr ls]).
set (h2 := Heap.write h1 (length h) (Heap.Arr (sort (Heap.byPageAt h1) ls))).
assert (Hun1 : Heap.unchanged h h1) by apply (unchanged_alloc h).
assert (Hun2 : Heap.unchanged h h2).
{ apply unchanged_write; [lia | exact Hun1]. }
assert (Hcopy : h2 !! length h = Some (Heap.Arr (sort (Heap.byPageAt h1) ls))).
{ apply list_lookup_insert_eq. unfold h1. rewrite length_app. simpl. lia. }
assert (Hsorted : Forall2 (Heap.ReprNode h2) (sort byPage f) (sort (Heap.byPageAt h1) ls)).
{ eapply ReprNodes_sameObjects; [apply unchanged_sameObjects, Hun2|].
  now apply sort_ReprNodes. }
destruct (mapNodes_spec (Heap.sortBookmarksByPage fuel) fuel IH (sort byPage f)
            (sort (Heap.byPageAt h1) ls) h2 Hsorted)
  as (h3 & out & Hmap & Hun3 & Hout).
{ intros a Ha. apply sort_In, nodeSize_In in Ha. lia. }
exists (h3 ++ [Heap.Arr out]), (length h3). split; [|split; [|split]].
- cbn [Heap.sortBookmarksByPage]. rewrite Hl. cbn [Heap.alloc].
  fold h1. fold h2. rewrite Hcopy, Hmap. reflexivity.
- eapply unchanged_trans; [exact Hun2|].
  eapply unchanged_trans; [exact Hun3 | apply (unchanged_alloc h3)].
- rewrite sortBookmarksByPage_eq. exists out. split.
  + now apply list_lookup_middle.
  + eapply ReprNodes_sameObjects; [|exact Hout].
    apply unchanged_sameObjects, (unchanged_alloc h3).
- apply unchanged_length. now apply (unchanged_trans h h2 h3).
Qed.
End HeapSort.

Section HeapBuild.
Import JS Serializer Outline.
Local Open Scope string_scope.
Local Open Scope list_scope.

Lemma write_write (h : list Heap.Cell) (l : nat) (c c' : Heap.Cell) :
  Heap.write (Heap.write h l c') l c = Heap.write h l c.
Proof. apply list_insert_insert_eq. Qed.

Lemma lookup_write (h : list Heap.Cell) (l : nat) (c c' : Heap.Cell) :
  h !! l = Some c' -> Heap.write h l c !! l = Some c.
Proof. intros H. apply list_lookup_insert_eq. now apply lookup_lt_Some in H. Qed.

Section Step.
Variable rec : list Heap.Cell -> nat -> nat -> nat -> option (list Heap.Cell).
Variable k : nat.
Hypothesis rec_spec :
  forall h g bs d lines acc,
    Heap.ReprForest h g bs -> h !! lines = Some (Heap.Lines acc) ->
    (forestSize g < k)%nat ->
    rec h bs d lines = Some (Heap.write h lines (Heap.Lines (forEachPush d g acc))).

Lemma visit_spec (d lines : nat) (h : list Heap.Cell) (a : Bookmark) (b : nat)
  (acc : list string) :
  Heap.ReprNode h a b -> h !! lines = Some (Heap.Lines acc) ->
  (nodeSize a <= k)%nat ->
  Heap.visit rec d lines h b
  = Some (Heap.write h lines (Heap.Lines (pushBookmark d a acc))).
Proof using rec_spec.
intros H Hlines Hk.
inversion H as [t p c l' Hl Hna | t p ch lc ls l' Hl Hlc Hch]; subst;
  unfold Heap.visit, Heap.pushLine; rewrite Hl, Hlines.
- change (pushBookmark d (mkBookmark t p None) acc)
    with (acc ++ [printedLine d (mkBookmark t p None)]).
  destruct c as [lc|]; [|reflexivity].
  destruct Hna as (cell & Hc & Hn).
  destruct (Nat.eq_dec lines lc) as [<-|Hne].
  + now rewrite (lookup_write _ _ _ _ Hlines).
  + unfold Heap.write at 1. rewrite list_lookup_insert_ne by exact Hne. rewrite Hc.
    destruct cell as [t' p' c'|ls|ls]; try reflexivity. now contradiction (Hn ls).
- assert (Hne : lines <> lc) by (intros <-; congruence).
  unfold Heap.write at 1. rewrite list_lookup_insert_ne by exact Hne. rewrite Hlc.
  rewrite pushBookmark_eq. cbn [children buildPrintedOutline fst].
  rewrite <- (List.Forall2_length Hch).
  change (printedLine d (mkBookmark t p (Some ch)))
    with (printedLine d (mkBookmark t p None)).
  destruct (0 <? length ch)%nat; [|reflexivity].
  rewrite (rec_spec _ ch lc (S d) lines (acc ++ [printedLine d (mkBookmark t p None)])).
  + now rewrite write_write.
  + eapply ReprForest_sameObjects; [now apply (sameObjects_push h lines acc)|].
    now exists ls.
  + now apply (lookup_write _ _ _ _ Hlines).
  + rewrite nodeSize_eq in Hk. cbn [siblingsBelow children] in Hk. lia.
Qed.

Lemma forEach_spec (d lines : nat) (gs : list Bookmark) :
  forall (ls : list nat) (h : list Heap.Cell) (acc : list string),
    Forall2 (Heap.ReprNode h) gs ls -> h !! lines = Some (Heap.Lines acc) ->
    (forall a, In a gs -> (nodeSize a <= k)%nat) ->
    Heap.forEach rec d lines h ls
    = Some (Heap.write h lines (Heap.Lines (forEachPush d gs acc))).
Proof using rec_spec.
induction gs as [|a gs IH]; intros ls h acc H Hlines Hk;
  inversion H as [|a' b gs' ls' Ha Hgs]; subst.
- cbn. f_equal. symmetry. now apply list_insert_id.
- cbn [Heap.forEach]. rewrite (visit_spec d lines h a b acc Ha Hlines (Hk a (or_introl eq_refl))).
  rewrite (IH ls' _ (pushBookmark d a acc)).
  + now rewrite write_write, forEachPush_cons.
  + eapply ReprNodes_sameObjects; [now apply (sameObjects_push h lines acc) | exact Hgs].
  + now apply (lookup_write _ _ _ _ Hlines).
  + intros x Hx. apply Hk. now right.
Qed.
End Step.

(** On a store that holds a forest at [bs] and an array of strings at
    [lines], [buildPrintedOutline] returns, given fuel above the size of the
    forest; it writes [lines] and nothing else, and what it pushes and
    returns is what the function on forests computes. *)
Lemma heap_buildPrintedOutline_spec (fuel : nat) :
  forall (h : list Heap.Cell) (g : list Bookmark) (bs d lines : nat) (acc : list string),
    Heap.ReprForest h g bs -> h !! lines = Some (Heap.Lines acc) ->
    (forestSize g < fuel)%nat ->
    Heap.buildPrintedOutline fuel h bs d lines
    = Some (Heap.write h lines (Heap.Lines (fst (buildPrintedOutline g d acc))),
            snd (buildPrintedOutline g d acc)).
Proof.
induction fuel as [|fuel IH]; intros h g bs d lines acc (ls & Hbs & Hg) Hlines Hfuel; [lia|].
cbn [Heap.buildPrintedOutline buildPrintedOutline fst snd]. rewrite Hbs.
rewrite (forEach_spec _ fuel) with (gs := g) (acc := acc); try assumption.
- now rewrite (lookup_write _ _ _ _ Hlines).
- intros h' g' bs' d' lines' acc' Hrepr Hl' Hsize.
  now rewrite (IH h' g' bs' d' lines' acc' Hrepr Hl' Hsize).
- intros a Ha. apply nodeSize_In in Ha. lia.
Qed.
End HeapBuild.

Section SerializerStoreClaim.
Import JS Serializer Outline.
Local Open Scope string_scope.
Local Open Scope list_scope.

(** The handler's outline on a store that holds the forest: it returns the
    descriptor of the forest and leaves every location as it was. *)
Lemma heap_printedOutline_spec (fuel : nat) (h : list Heap.Cell)
  (forest : list Bookmark) (l : nat) :
  Heap.ReprForest h forest l -> (forestSize forest < fuel)%nat ->
  exists h',
    Heap.printedOutline fuel h (Some l) = Some (h', serialize forest)
    /\ Heap.unchanged h h'.
Proof.
intros Hrepr Hfuel.
destruct (heap_sortBookmarksByPage_spec fuel h forest l Hrepr Hfuel)
  as (h1 & r & Hsort & Hun1 & Hsorted & _).
destruct Hrepr as (ls & Hl & Hf).
pose proof Hsorted as (ls' & Hr & Hf').
unfold Heap.printedOutline, serialize, printedOutline.
rewrite Hl, Hsort, Hr, <- (List.Forall2_length Hf').
destruct (0 <? length (sortBookmarksByPage forest))%nat; [|now exists h1].
cbn [Heap.alloc].
rewrite (heap_buildPrintedOutline_spec fuel _ (sortBookmarksByPage forest) r 0
           (length h1) []).
- eexists. split; [reflexivity|].
  eapply unchanged_trans; [exact Hun1|].
  apply unchanged_write; [lia | apply (unchanged_alloc h1)].
- eapply ReprForest_sameObjects; [|exact Hsorted].
  apply unchanged_sameObjects, (unchanged_alloc h1).
- now apply list_lookup_middle.
- now rewrite sortBookmarksByPage_size.
Qed.

(** C9.  On a store that holds a forest, serializing returns the
    descriptor of the forest and leaves every object and array that existed
    as it was, so the store still holds the same forest and serializing
    again returns the same descriptor; the sorting pass returns a new array
    and leaves the one it was given in place. *)
Theorem C9_serialization_repeatable_and_mutation_free (fuel : nat)
  (h : list Heap.Cell) (forest : list Bookmark) (l : nat) :
  Heap.ReprForest h forest l ->
  (forestSize forest < fuel)%nat ->
  (exists h1 h2,
      Heap.printedOutline fuel h (Some l) = Some (h1, serialize forest)
      /\ Heap.unchanged h h1
      /\ Heap.ReprForest h1 forest l
      /\ Heap.printedOutline fuel h1 (Some l) = Some (h2, serialize forest)
      /\ Heap.unchanged h h2)
  /\ (exists hs r,
        Heap.sortBookmarksByPage fuel h l = Some (hs, r)
        /\ Heap.unchanged h hs
        /\ h !! r = None
        /\ Heap.ReprForest hs (sortBookmarksByPage forest) r).
Proof.
intros Hrepr Hfuel. split.
- destruct (heap_printedOutline_spec fuel h forest l Hrepr Hfuel) as (h1 & Hrun1 & Hun1).
  assert (Hrepr1 : Heap.ReprForest h1 forest l).
  { eapply ReprForest_sameObjects; [|exact Hrepr]. now apply unchanged_sameObjects. }
  destruct (heap_printedOutline_spec fuel h1 forest l Hrepr1 Hfuel) as (h2 & Hrun2 & Hun2).
  exists h1, h2. repeat split; try assumption.
  now apply (unchanged_trans h h1 h2).
- destruct (heap_sortBookmarksByPage_spec fuel h forest l Hrepr Hfuel)
    as (hs & r & Hsort & Hun & Hsorted & Hfresh).
  exists hs, r. repeat split; try assumption.
  now apply lookup_ge_None_2.
Qed.

Lemma sampleHeap_holds_sampleForest :
  Heap.ReprForest Heap.sampleHeap Heap.sampleForest 6.
Proof.
exists [4%nat; 5%nat]. split; [reflexivity|].
constructor; [|constructor; [|constructor]].
- eapply Heap.ReprNode_inner with (lc := 3%nat) (ls := [2%nat]); try reflexivity.
  constructor; [|constructor].
  eapply Heap.ReprNode_inner with (lc := 1%nat) (ls := [0%nat]); try reflexivity.
  constructor; [|constructor].
  eapply Heap.ReprNode_leaf with (c := None); [reflexivity | exact I].
- eapply Heap.ReprNode_leaf with (c := None); [reflexivity | exact I].
Defined.

Lemma C9_serialization_repeatable_and_mutation_free_witness :
  Heap.ReprForest Heap.sampleHeap Heap.sampleForest 6
  /\ (Outline.forestSize Heap.sampleForest < 5)%nat
  /\ exists h1,
       Heap.printedOutline 5 Heap.sampleHeap (Some 6%nat)
       = Some (h1, serialize Heap.sampleForest)
       /\ Heap.unchanged Heap.sampleHeap h1.
Proof.
assert (Hsize : (Outline.forestSize Heap.sampleForest < 5)%nat) by (cbv; lia).
split; [exact sampleHeap_holds_sampleForest|]. split; [exact Hsize|].
destruct (C9_serialization_repeatable_and_mutation_free 5 Heap.sampleHeap
            Heap.sampleForest 6 sampleHeap_holds_sampleForest Hsize)
  as [(h1 & h2 & Hrun & Hun & _) _].
exists h1. split; [exact Hrun | exact Hun].
Defined.

(** The run on the sample store: the first seven locations are those of the
    store before; the sorted copy of the root array is at location 7. *)
Example heap_run_on_sample :
  option_map (fun r => (firstn 8 (fst r), snd r))
             (Heap.printedOutline 5 Heap.sampleHeap (Some 6%nat))
  = Some (Heap.sampleHeap ++ [Heap.Arr [5%nat; 4%nat]],
          ("1||Other" ++ newline ++ "4||Root" ++ newline ++ "2|-|Child"
           ++ newline ++ "3|--|Grandchild")%string).
Proof. reflexivity. Qed.
End SerializerStoreClaim.

(* ================================================================== *)
(** ** More about the serializer *)
(* ================================================================== *)

Section SortAgain.
Import JS Serializer Outline.
Local Open Scope string_scope.

(** Sorting commutes with a map that the comparator does not see. *)
Lemma sort_map {A B : Type} (cmpA : A -> A -> jsnum) (cmpB : B -> B -> jsnum)
  (g : A -> B) (l : list A) :
  (forall a b, cmpB (g a) (g b) = cmpA a b) ->
  sort cmpB (map g l) = map g (sort cmpA l).
Proof.
intros Hg.
assert (Hins : forall x s, sortInsert cmpB (g x) (map g s) = map g (sortInsert cmpA x s)).
{ intros x s. induction s as [|y s IH]; [reflexivity|].
  cbn [map sortInsert]. rewrite Hg. destruct (positive (cmpA x y)); [|reflexivity].
  cbn [map]. now rewrite IH. }
induction l as [|x l IH]; [reflexivity|].
cbn [map sort]. now rewrite IH, Hins.
Qed.

(** Sorting what is in order changes nothing. *)
Lemma sort_inOrder {A : Type} (cmp : A -> A -> jsnum) (l : list A) :
  StronglySorted (inOrder cmp) l -> sort cmp l = l.
Proof.
induction 1 as [|x l Hl IH Hx]; [reflexivity|].
cbn [sort]. rewrite IH. destruct l as [|y l]; [reflexivity|].
cbn [sortInsert]. apply Forall_inv in Hx. unfold inOrder in Hx. now rewrite Hx.
Qed.

Lemma sort_byPage_inOrder (f : list Bookmark) :
  StronglySorted (inOrder byPage) (sort byPage f).
Proof.
apply (sort_sorted byPage).
- intros a b H. unfold inOrder. rewrite byPage_positive in *.
  apply negb_true_iff in H. apply negb_false_iff.
  apply numLeb_total; [apply orElse_not_NaN | apply orElse_not_NaN | exact H].
- intros a b c. unfold inOrder. rewrite !byPage_inOrder. apply numLeb_trans.
Qed.

Lemma sortBookmarksByPage_twice_upto (k : nat) :
  forall f, (forestDepth f < k)%nat ->
            sortBookmarksByPage (sortBookmarksByPage f) = sortBookmarksByPage f.
Proof.
induction k as [|k IH]; intros f Hk; [lia|].
rewrite (sortBookmarksByPage_eq f).
rewrite (sortBookmarksByPage_eq (map _ _)).
rewrite (sort_map byPage byPage (withSorted sortBookmarksByPage)) by reflexivity.
rewrite (sort_inOrder byPage (sort byPage f)) by apply sort_byPage_inOrder.
rewrite map_map. apply map_ext_in. intros n Hn.
unfold withSorted. cbn [title page children]. f_equal. f_equal.
destruct (children n) as [ch|] eqn:E; [|reflexivity].
apply IH. apply sort_In, forestDepth_In in Hn.
rewrite (nodeDepth_children _ _ E) in Hn. lia.
Qed.

(** X1.  The sorting pass is idempotent: sorting a forest that the pass has
    sorted returns it as it is, so serializing the sorted forest gives the
    descriptor of the forest. *)
Theorem X1_sorting_twice_is_sorting_once (forest : list Bookmark) :
  sortBookmarksByPage (sortBookmarksByPage forest) = sortBookmarksByPage forest
  /\ serialize (sortBookmarksByPage forest) = serialize forest.
Proof.
assert (H : sortBookmarksByPage (sortBookmarksByPage forest)
            = sortBookmarksByPage forest)
  by (apply (sortBookmarksByPage_twice_upto (S (forestDepth forest))); lia).
split; [exact H|]. unfold serialize, printedOutline. now rewrite H.
Qed.
End SortAgain.

Section DepthSteps.
Import JS Serializer Outline Descriptor.
Local Open Scope string_scope.

Lemma risesByOne_cons (a : nat) (l : list nat) :
  risesByOne (a :: l) <-> match l with [] => True | b :: _ => (b <= S a)%nat end /\ risesByOne l.
Proof. destruct l as [|b l]; simpl; tauto. Qed.

Lemma blockAt_app (d : nat) (l1 l2 : list nat) :
  blockAt d l1 -> blockAt d l2 -> blockAt d (l1 ++ l2).
Proof.
intros (H1 & A1 & R1) (H2 & A2 & R2). split; [|split].
- destruct l1; [exact H2 | exact H1].
- apply Forall_app. now split.
- clear H1. induction l1 as [|a l1 IH]; [exact R2|].
  cbn [app]. apply risesByOne_cons. apply risesByOne_cons in R1 as [Hstep R1].
  pose proof (Forall_inv A1) as Ha. apply Forall_inv_tail in A1.
  split; [|now apply IH].
  destruct l1 as [|b l1]; cbn [app]; [|exact Hstep].
  destruct l2 as [|c l2]; [exact I|]. cbn in H2. subst c. cbn in Ha. lia.
Qed.

Lemma blockAt_children (d : nat) (ch : list Bookmark) :
  Forall (fun b => forall d, blockAt d (map fst (preorderNode d b))) ch ->
  blockAt d (map fst (flat_map (preorderNode d) ch)).
Proof.
induction 1 as [|c ch Hc Hch IH]; cbn [flat_map map].
- repeat split; constructor.
- rewrite map_app. apply blockAt_app; [apply Hc | exact IH].
Qed.

Lemma blockAt_node (b : Bookmark) :
  forall d, blockAt d (map fst (preorderNode d b)).
Proof.
induction b as [t p | t p ch IH] using Bookmark_nested_ind; intros d.
- repeat split; repeat constructor.
- cbn [preorderNode children map fst].
  destruct (blockAt_children (S d) ch IH) as (Hhd & Hall & Hrise).
  split; [reflexivity|]. split.
  + constructor; [lia|]. eapply List.Forall_impl; [|exact Hall]. intros x Hx. cbn in Hx. lia.
  + apply risesByOne_cons. split; [|exact Hrise].
    destruct (map fst _) as [|c l]; [exact I|]. subst c. lia.
Qed.

Lemma entryLine_entryOf (v : nat * Bookmark) : entryLine (entryOf v) = lineOf v.
Proof. destruct v as [d b]. reflexivity. Qed.

(** X2.  The descriptor of any forest is made of the lines of its entries,
    and in it the first line has depth 0 and the dash run of a line is at
    most one dash longer than that of the line before: the dash runs that
    the serializer prints always describe a tree. *)
Theorem X2_depths_rise_by_one (forest : list Bookmark) :
  serialize forest = join newline (map entryLine (entries forest))
  /\ hd O (map (fun e => snd (fst e)) (entries forest)) = O
  /\ risesByOne (map (fun e => snd (fst e)) (entries forest)).
Proof.
split.
- rewrite serialize_preorder. unfold entries. rewrite map_map.
  f_equal; apply map_ext; intros v; symmetry; apply entryLine_entryOf.
- unfold entries. rewrite map_map.
  assert (H : blockAt 0 (map fst (preorder 0 (sortBookmarksByPage forest)))).
  { apply blockAt_children. apply List.Forall_forall. intros b _. apply blockAt_node. }
  change (map (fun x => snd (fst (entryOf x))) (preorder 0 (sortBookmarksByPage forest)))
    with (map fst (preorder 0 (sortBookmarksByPage forest))).
  destruct H as (Hhd & _ & Hrise). split; [|exact Hrise].
  destruct (map fst _); [reflexivity | exact Hhd].
Qed.
End DepthSteps.

Section Decoding.
Import JS Serializer Outline Descriptor.
Local Open Scope string_scope.

Lemma lacks_app (c : ascii) (a b : string) :
  lacks c a -> lacks c b -> lacks c (a ++ b).
Proof. induction a as [|x a IH]; simpl; [tauto|]. intros [Hx Ha] Hb. split; auto. Qed.

(** Two strings cut at the first occurrence of a character are equal part
    by part. *)
Lemma cut_at_first (c : ascii) (a a' r r' : string) :
  lacks c a -> lacks c a' ->
  a ++ String c r = a' ++ String c r' -> a = a' /\ r = r'.
Proof.
revert a'. induction a as [|x a IH]; intros [|x' a'] Ha Ha' H; simpl in *.
- injection H as <-. now split.
- injection H as H _. destruct Ha' as [Hx _]. congruence.
- injection H as H _. destruct Ha as [Hx _]. congruence.
- injection H as <- H. destruct Ha as [_ Ha], Ha' as [_ Ha'].
  destruct (IH a' Ha Ha' H) as [-> ->]. now split.
Qed.

Lemma lacks_not_cut (c : ascii) (a r s : string) :
  lacks c s -> s = a ++ String c r -> False.
Proof.
revert s. induction a as [|x a IH]; intros s Hs ->; simpl in Hs.
- now destruct Hs.
- destruct Hs as [_ Hs]. now apply (IH _ Hs).
Qed.

Lemma lacks_uint (c : ascii) (d : Decimal.uint) :
  (forall k, (0 <= k <= 9)%Z -> Forest.digitChar k <> c) ->
  lacks c (NilEmpty.string_of_uint d).
Proof.
intros Hc.
induction d; simpl; try exact I; (split; [|exact IHd]).
- apply (Hc 0%Z); lia.
- apply (Hc 1%Z); lia.
- apply (Hc 2%Z); lia.
- apply (Hc 3%Z); lia.
- apply (Hc 4%Z); lia.
- apply (Hc 5%Z); lia.
- apply (Hc 6%Z); lia.
- apply (Hc 7%Z); lia.
- apply (Hc 8%Z); lia.
- apply (Hc 9%Z); lia.
Qed.

(** The decimal print of an integer is made of digits and a minus sign. *)
Lemma lacks_ToString (c : ascii) (z : Z) :
  (forall k, (0 <= k <= 9)%Z -> Forest.digitChar k <> c) -> c <> "-"%char ->
  lacks c (ToString z).
Proof.
intros Hc Hminus. unfold ToString, NilZero.string_of_int, NilZero.string_of_uint.
assert (H0 : "0"%char <> c) by (apply (Hc 0%Z); lia).
destruct (Z.to_int z) as [d|d]; destruct d; simpl; repeat split;
  try congruence; try (apply lacks_uint; exact Hc);
  try (now apply (Hc 1%Z)); try (now apply (Hc 2%Z)); try (now apply (Hc 3%Z));
  try (now apply (Hc 4%Z)); try (now apply (Hc 5%Z)); try (now apply (Hc 6%Z));
  try (now apply (Hc 7%Z)); try (now apply (Hc 8%Z)); try (now apply (Hc 9%Z)).
Qed.

Lemma digitChar_not_bar (k : Z) : (0 <= k <= 9)%Z -> Forest.digitChar k <> "|"%char.
Proof.
intros Hk. assert (Hc : In k [0;1;2;3;4;5;6;7;8;9]%Z) by (simpl; lia).
simpl in Hc. decompose [or] Hc; subst; try discriminate. contradiction.
Qed.

Lemma lacks_repeatDash (c : ascii) (d : nat) : c <> "-"%char -> lacks c (repeatDash d).
Proof. intros Hc. induction d; simpl; [exact I | split; [congruence | exact IHd]]. Qed.

Lemma ToString_inj (z z' : Z) : ToString z = ToString z' -> z = z'.
Proof.
intros H. apply (f_equal parseInt) in H. rewrite !parseInt_ToString in H. congruence.
Qed.

Lemma repeatDash_inj (d d' : nat) : repeatDash d = repeatDash d' -> d = d'.
Proof. intros H. apply (f_equal String.length) in H. now rewrite !repeatDash_length in H. Qed.

(** A line says one thing: the page, the depth and the title can be read
    back from it. *)
Lemma printedLine_inj (d d' : nat) (b b' : Bookmark) :
  printedLine d b = printedLine d' b' ->
  printedPage b = printedPage b' /\ d = d' /\ printedTitle b = printedTitle b'.
Proof.
unfold printedLine. cbn [String.append]. intros H.
destruct (cut_at_first "|" _ _ _ _
            (lacks_ToString "|" _ digitChar_not_bar ltac:(discriminate))
            (lacks_ToString "|" _ digitChar_not_bar ltac:(discriminate)) H)
  as [Hp Hrest].
destruct (cut_at_first "|" _ _ _ _
            (lacks_repeatDash "|" d ltac:(discriminate))
            (lacks_repeatDash "|" d' ltac:(discriminate)) Hrest)
  as [Hd Ht].
split; [now apply ToString_inj|]. split; [now apply repeatDash_inj | exact Ht].
Qed.

Lemma lacks_newline (s : string) : countNewlines s = O -> lacks "010" s.
Proof.
induction s as [|c s IH]; simpl; [trivial|].
destruct (nat_of_ascii c =? 10)%nat eqn:E; [discriminate|].
intros H. split; [|now apply IH].
intros ->. discriminate E.
Qed.

(** The lines of a joined text can be read back, when no line is empty and
    no line holds a newline. *)
Lemma join_newline_inj (l1 : list string) :
  forall l2,
    Forall (fun s => s <> "" /\ lacks "010" s) l1 ->
    Forall (fun s => s <> "" /\ lacks "010" s) l2 ->
    join newline l1 = join newline l2 -> l1 = l2.
Proof.
induction l1 as [|x l1 IH]; intros [|y l2] H1 H2 H.
- reflexivity.
- symmetry in H. now apply join_nonempty in H; [|apply (Forall_inv H2)].
- now apply join_nonempty in H; [|apply (Forall_inv H1)].
- rewrite !join_cons in H.
  pose proof (Forall_inv H1) as [_ Hx]. pose proof (Forall_inv H2) as [_ Hy].
  apply Forall_inv_tail in H1, H2.
  destruct l1 as [|x1 l1], l2 as [|y1 l2].
  + now subst.
  + exfalso. exact (lacks_not_cut "010" _ _ _ Hx H).
  + exfalso. symmetry in H. exact (lacks_not_cut "010" _ _ _ Hy H).
  + unfold newline in H. cbn [String.append] in H.
    destruct (cut_at_first "010" _ _ _ _ Hx Hy H) as [-> Hrest].
    f_equal. now apply IH.
Qed.

Lemma lineOf_entryOf (v v' : nat * Bookmark) :
  lineOf v = lineOf v' <-> entryOf v = entryOf v'.
Proof.
destruct v as [d b], v' as [d' b']. unfold lineOf, entryOf. cbn [fst snd]. split.
- intros H. apply printedLine_inj in H as (-> & -> & ->). reflexivity.
- intros [= Hp Hd Ht]. unfold printedLine. now rewrite Hp, Hd, Ht.
Qed.

Lemma map_lineOf_entryOf (l : list (nat * Bookmark)) :
  forall l', map lineOf l = map lineOf l' <-> map entryOf l = map entryOf l'.
Proof.
induction l as [|v l IH]; intros [|v' l']; cbn [map]; split; intros H;
  try reflexivity; try discriminate.
- injection H as Hv Hl.
  f_equal; [exact (proj1 (lineOf_entryOf v v') Hv) | exact (proj1 (IH l') Hl)].
- assert (Hv : entryOf v = entryOf v') by congruence.
  assert (Hl : map entryOf l = map entryOf l') by congruence.
  f_equal; [exact (proj2 (lineOf_entryOf v v') Hv) | exact (proj2 (IH l') Hl)].
Qed.

Lemma lines_well_formed (l : list (nat * Bookmark)) :
  Forall (fun s => s <> "" /\ lacks "010" s) (map lineOf l).
Proof.
apply List.Forall_forall. intros s Hs. apply in_map_iff in Hs as ([d b] & <- & _).
split; [apply printedLine_nonempty | apply lacks_newline, printedLine_no_newline].
Qed.

(** X3.  The descriptor can be decoded: two forests have the same
    descriptor exactly when their lines say the same pages, depths and
    titles in the same order. *)
Theorem X3_descriptor_decodes (f g : list Bookmark) :
  serialize f = serialize g <-> entries f = entries g.
Proof.
rewrite !serialize_preorder. unfold entries. rewrite <- map_lineOf_entryOf. split.
- apply join_newline_inj; apply lines_well_formed.
- now intros ->.
Qed.
End Decoding.

(* ================================================================== *)
(** ** The lookup of the store, for any callback *)
(* ================================================================== *)

Section Lookup.
Import JS Store Forest.
Local Open Scope string_scope.
Local Open Scope list_scope.

Variable target : string.
Variable op : Op.

Lemma scan_found (below : Node -> bool * Node) (rest : list Node) :
  Forall (fun n => fst (below n) = true <-> In target (forestIds (children n)))
         rest ->
  forall done,
    fst (scan target op below done rest) = true <-> In target (forestIds rest).
Proof.
induction 1 as [|n rest Hn Hrest IH]; intros done.
- simpl. split; [discriminate | tauto].
- cbn [scan]. rewrite forestIds_cons.
  destruct (String.eqb (id n) target) eqn:E.
  + apply String.eqb_eq in E. simpl. split; [now left | reflexivity].
  + apply String.eqb_neq in E.
    destruct (0 <? length (children n))%nat eqn:Hlen.
    * destruct (below n) as [found n'] eqn:Eb. cbn [fst] in Hn.
      destruct found.
      -- simpl. split; [|reflexivity]. intros _. right. apply in_or_app.
         left. now apply Hn.
      -- rewrite IH. split.
         ++ intros Hin. right. apply in_or_app. now right.
         ++ intros [Hin|Hin]; [contradiction|].
            apply in_app_or in Hin as [Hin|Hin]; [|exact Hin].
            apply Hn in Hin. discriminate.
    * rewrite IH. split.
      -- intros Hin. right. apply in_or_app. now right.
      -- intros [Hin|Hin]; [contradiction|].
         apply in_app_or in Hin as [Hin|Hin]; [|exact Hin].
         destruct (children n); [destruct Hin | discriminate].
Qed.

Lemma findBelow_found (n : Node) :
  fst (findBelow target op n) = true <-> In target (forestIds (children n)).
Proof.
induction n as [i t p ch IH] using Node_nested_ind.
cbn [findBelow children].
pose proof (scan_found (findBelow target op) ch IH []) as H.
destruct (scan target op (findBelow target op) [] ch) as [found ch'].
exact H.
Qed.

(** X4.  [findAndOperate] returns [true] exactly when some node of the
    forest, at any depth, carries the id; this holds for every callback. *)
Theorem X4_lookup_finds_every_present_id (nodes : list Node) :
  fst (findAndOperate nodes target op) = true <-> In target (forestIds nodes).
Proof.
unfold findAndOperate. apply scan_found.
apply List.Forall_forall. intros n _. apply findBelow_found.
Qed.

End Lookup.

(* ================================================================== *)
(** ** Callbacks that change the node found *)
(* ================================================================== *)

Section Amend.
Import JS Store Forest Editor.
Local Open Scope string_scope.
Local Open Scope list_scope.

Variable target : string.
Variable g : Node -> Node.

Lemma amend_cons (n : Node) (f : list Node) :
  amend target g (n :: f)
  = (let n' := withChildren (amend target g (children n)) n in
     if String.eqb (id n) target then g n' else n')
    :: amend target g f.
Proof. destruct n; reflexivity. Qed.

Lemma amend_absent (f : list Node) :
  ~ In target (forestIds f) -> amend target g f = f.
Proof.
induction f as [|n f IHch IHf] using forest_ind; [reflexivity|].
intros Habs. rewrite amend_cons. cbv zeta. rewrite (eqb_absent _ _ _ Habs).
rewrite forestIds_cons in Habs.
rewrite IHch, IHf, withChildren_same; [reflexivity | |];
  intros H; apply Habs; right; apply in_or_app; auto.
Qed.

Lemma existsb_In (l : list string) :
  existsb (String.eqb target) l = true <-> In target l.
Proof.
rewrite existsb_exists. split.
- intros (x & Hx & E). apply String.eqb_eq in E. now subst x.
- intros H. exists target. split; [exact H | apply String.eqb_refl].
Qed.

Lemma scan_alter (below : Node -> bool * Node) (rest : list Node) :
  Forall (fun n => below n
                   = if existsb (String.eqb target) (forestIds (children n))
                     then (true, withChildren (amend target g (children n)) n)
                     else (false, n)) rest ->
  List.NoDup (forestIds rest) -> In target (forestIds rest) ->
  forall done,
    scan target (fun arr i => alter g i arr) below done rest
    = (true, done ++ amend target g rest).
Proof.
induction 1 as [|n rest Hn Hrest IH]; intros Hnd Hin done; [destruct Hin|].
apply NoDup_forestIds_cons in Hnd as (Hch & Hf & Hndch & Hndf & Hdisj).
cbn [scan]. rewrite amend_cons. cbv zeta.
destruct (String.eqb (id n) target) eqn:E.
- apply String.eqb_eq in E. rewrite E in Hch, Hf.
  rewrite <- (Nat.add_0_r (length done)), alter_app_r. cbn [alter list_alter].
  now rewrite (amend_absent (children n) Hch), (amend_absent rest Hf),
    withChildren_same.
- rewrite forestIds_cons in Hin. destruct Hin as [Hin|Hin];
    [apply String.eqb_neq in E; congruence|].
  rewrite Hn.
  destruct (existsb (String.eqb target) (forestIds (children n))) eqn:Ex.
  + apply existsb_In in Ex.
    assert (Hlen : (0 <? length (children n))%nat = true).
    { destruct (children n); [destruct Ex | reflexivity]. }
    rewrite Hlen. rewrite (amend_absent rest); [reflexivity|].
    now apply Hdisj.
  + assert (Hnot : ~ In target (forestIds (children n))).
    { intros Hx. apply existsb_In in Hx. congruence. }
    apply in_app_or in Hin. destruct Hin as [Hin|Hin]; [contradiction|].
    rewrite (IH Hndf Hin), (amend_absent (children n) Hnot), withChildren_same.
    rewrite <- app_assoc. now destruct (0 <? length (children n))%nat.
Qed.

Lemma findBelow_alter (n : Node) :
  List.NoDup (forestIds (children n)) ->
  findBelow target (fun arr i => alter g i arr) n
  = if existsb (String.eqb target) (forestIds (children n))
    then (true, withChildren (amend target g (children n)) n)
    else (false, n).
Proof.
induction n as [i t p ch IH] using Node_nested_ind. cbn [children]. intros Hnd.
destruct (existsb (String.eqb target) (forestIds ch)) eqn:Ex.
- apply existsb_In in Ex.
  cbn [findBelow children]. rewrite scan_alter; [reflexivity | | exact Hnd | exact Ex].
  clear Ex. induction IH as [|c ch Hc Hch IHch]; constructor.
  + apply Hc. now apply NoDup_forestIds_cons in Hnd.
  + apply IHch. now apply NoDup_forestIds_cons in Hnd.
- apply findBelow_absent. cbn [children]. intros Hx.
  apply existsb_In in Hx. congruence.
Qed.

(** With unique ids, a callback that changes [arr[i]] in place leaves the
    forest with the change applied to the node of that id. *)
Lemma findAndOperate_alter (f : list Node) :
  List.NoDup (forestIds f) ->
  snd (findAndOperate f target (fun arr i => alter g i arr)) = amend target g f.
Proof.
intros Hnd.
destruct (existsb (String.eqb target) (forestIds f)) eqn:Ex.
- apply existsb_In in Ex. unfold findAndOperate.
  rewrite scan_alter; [reflexivity | | exact Hnd | exact Ex].
  clear Ex. induction f as [|n f IH]; constructor.
  + apply findBelow_alter. now apply NoDup_forestIds_cons in Hnd.
  + apply IH. now apply NoDup_forestIds_cons in Hnd.
- assert (Hnot : ~ In target (forestIds f)).
  { intros Hx. apply existsb_In in Hx. congruence. }
  now rewrite findAndOperate_absent, amend_absent.
Qed.

End Amend.

(* ================================================================== *)
(** ** The entries of a forest *)
(* ================================================================== *)

Section EntryFacts.
Import JS Store Forest Editor.
Local Open Scope string_scope.
Local Open Scope list_scope.

Lemma forestEntries_cons (n : Node) (f : list Node) :
  forestEntries (n :: f)
  = (id n, title n, page n) :: forestEntries (children n) ++ forestEntries f.
Proof. destruct n; reflexivity. Qed.

Lemma forestEntries_app (f1 f2 : list Node) :
  forestEntries (f1 ++ f2) = forestEntries f1 ++ forestEntries f2.
Proof. apply List.flat_map_app. Qed.

Lemma forestIds_app (f1 f2 : list Node) :
  forestIds (f1 ++ f2) = forestIds f1 ++ forestIds f2.
Proof. apply List.flat_map_app. Qed.

Lemma detach_app (target : string) (f1 f2 : list Node) :
  detach target (f1 ++ f2) = detach target f1 ++ detach target f2.
Proof. apply List.flat_map_app. Qed.

Lemma forestIds_entries (f : list Node) :
  forestIds f = map (fun e => fst (fst e)) (forestEntries f).
Proof.
induction f as [|n f IHch IHf] using forest_ind; [reflexivity|].
rewrite forestIds_cons, forestEntries_cons. cbn [map fst].
rewrite map_app. congruence.
Qed.

Lemma forestCount_entries (f : list Node) :
  forestCount f = length (forestEntries f).
Proof.
induction f as [|n f IHch IHf] using forest_ind; [reflexivity|].
rewrite forestCount_cons, forestEntries_cons. cbn [length].
rewrite List.length_app. lia.
Qed.

Lemma amend_retitled_entries (t a : string) (b : Z) (f : list Node) :
  forestEntries (amend t (retitled a b) f)
  = map (fun e => if String.eqb (fst (fst e)) t then (fst (fst e), a, b) else e)
        (forestEntries f).
Proof.
induction f as [|n f IHch IHf] using forest_ind; [reflexivity|].
rewrite amend_cons. cbv zeta. rewrite (forestEntries_cons n f).
cbn [map fst]. rewrite map_app, <- IHch, <- IHf.
destruct (String.eqb (id n) t); rewrite forestEntries_cons;
  destruct n; reflexivity.
Qed.

Lemma amend_retitled_bare (t a : string) (b : Z) (f : list Node) :
  map bare (amend t (retitled a b) f) = map bare f.
Proof.
induction f as [|n f IHch IHf] using forest_ind; [reflexivity|].
rewrite amend_cons. cbv zeta. cbn [map]. rewrite IHf. f_equal.
destruct n as [i ti p ch]. cbn [id children withChildren] in *.
destruct (String.eqb i t);
  cbn [retitled withChildren bare id children title page]; now rewrite IHch.
Qed.

(** With unique ids, a child adopted by the node of id [t] adds its own
    entries to those of the forest. *)
Lemma amend_adopting_entries (t : string) (c : Node) (f : list Node) :
  List.NoDup (forestIds f) -> In t (forestIds f) ->
  Permutation (forestEntries (amend t (adopting c) f))
              (forestEntries [c] ++ forestEntries f).
Proof.
induction f as [|n f IHch IHf] using forest_ind; intros Hnd Hin; [destruct Hin|].
apply NoDup_forestIds_cons in Hnd as (Hch & Hf & Hndch & Hndf & Hdisj).
rewrite amend_cons. cbv zeta. rewrite (forestEntries_cons n f).
destruct (String.eqb (id n) t) eqn:E.
- apply String.eqb_eq in E. subst t.
  rewrite (amend_absent _ _ (children n) Hch), (amend_absent _ _ f Hf),
    withChildren_same.
  rewrite forestEntries_cons.
  cbn [adopting withChildren id title page children].
  rewrite forestEntries_app.
  apply Permutation_cons_app.
  rewrite (app_assoc (forestEntries [c])).
  apply Permutation_app_tail. apply Permutation_app_comm.
- rewrite forestIds_cons in Hin. destruct Hin as [Hin|Hin];
    [apply String.eqb_neq in E; congruence|].
  rewrite forestEntries_cons.
  cbn [withChildren id title page children].
  apply Permutation_cons_app.
  apply in_app_or in Hin as [Hin|Hin].
  + rewrite (amend_absent _ _ f); [|now apply Hdisj].
    rewrite app_assoc. apply Permutation_app_tail. now apply IHch.
  + rewrite (amend_absent _ _ (children n));
      [|intros Hx; exact (Hdisj _ Hx Hin)].
    rewrite (Permutation_app_comm (forestEntries [c])), <- app_assoc.
    apply Permutation_app_head.
    rewrite (IHf Hndf Hin). apply Permutation_app_comm.
Qed.

Lemma id_amendNode (t : string) (g : Node -> Node) (n : Node) :
  (forall m, id (g m) = id m) ->
  id (let n' := withChildren (amend t g (children n)) n in
      if String.eqb (id n) t then g n' else n') = id n.
Proof.
intros Hg. cbv zeta. destruct (String.eqb (id n) t); [rewrite Hg|];
  now destruct n.
Qed.

(** With unique ids, the node of id [t] of the changed forest is the
    changed node. *)
Lemma locate_amend (t : string) (g : Node -> Node) (f : list Node) :
  (forall m, id (g m) = id m) ->
  List.NoDup (forestIds f) ->
  locate t (amend t g f) = option_map g (locate t f).
Proof.
intros Hg.
induction f as [|n f IHch IHf] using forest_ind; intros Hnd; [reflexivity|].
apply NoDup_forestIds_cons in Hnd as (Hch & Hf & Hndch & Hndf & Hdisj).
rewrite amend_cons. cbv zeta. rewrite !locate_cons.
destruct (String.eqb (id n) t) eqn:E.
- rewrite Hg. cbn [withChildren id]. rewrite E.
  apply String.eqb_eq in E. subst t.
  now rewrite (amend_absent _ _ (children n) Hch), withChildren_same.
- cbn [withChildren id children]. rewrite E, (IHch Hndch), (IHf Hndf).
  now destruct (locate t (children n)).
Qed.

(** Taking the node of a fresh id out again undoes its adoption. *)
Lemma detach_adopted (t uuid ti : string) (pg : Z) (f : list Node) :
  ~ In uuid (forestIds f) ->
  detach uuid (amend t (adopting (createNode uuid ti pg)) f) = f.
Proof.
induction f as [|n f IHch IHf] using forest_ind; intros Habs; [reflexivity|].
rewrite amend_cons. cbv zeta.
pose proof (eqb_absent _ _ _ Habs) as E.
rewrite forestIds_cons in Habs.
assert (Hch : ~ In uuid (forestIds (children n)))
  by (intros H; apply Habs; right; apply in_or_app; now left).
assert (Hf : ~ In uuid (forestIds f))
  by (intros H; apply Habs; right; apply in_or_app; now right).
destruct (String.eqb (id n) t); rewrite detach_cons;
  cbn [adopting withChildren id title page children]; rewrite E.
- rewrite detach_app, (IHch Hch), (IHf Hf).
  cbn [detach flat_map createNode id]. rewrite String.eqb_refl, app_nil_r.
  now destruct n.
- rewrite (IHch Hch), (IHf Hf). now destruct n.
Qed.

Lemma detach_ids_incl (t : string) (f : list Node) :
  incl (forestIds (detach t f)) (forestIds f).
Proof.
induction f as [|n f IHch IHf] using forest_ind; [intros x Hx; exact Hx|].
rewrite detach_cons, (forestIds_cons n f).
destruct (String.eqb (id n) t).
- intros x Hx. right. apply in_or_app. right. now apply IHf.
- rewrite forestIds_cons. cbn [withChildren id children].
  intros x [Hx|Hx]; [now left|]. right.
  apply in_app_or in Hx as [Hx|Hx]; apply in_or_app; [left|right]; auto.
Qed.

Lemma detach_entries_incl (t : string) (f : list Node) :
  incl (forestEntries (detach t f)) (forestEntries f).
Proof.
induction f as [|n f IHch IHf] using forest_ind; [intros x Hx; exact Hx|].
rewrite detach_cons, (forestEntries_cons n f).
destruct (String.eqb (id n) t).
- intros x Hx. right. apply in_or_app. right. now apply IHf.
- rewrite forestEntries_cons. cbn [withChildren id title page children].
  intros x [Hx|Hx]; [now left|]. right.
  apply in_app_or in Hx as [Hx|Hx]; apply in_or_app; [left|right]; auto.
Qed.

Lemma NoDup_detach (t : string) (f : list Node) :
  List.NoDup (forestIds f) -> List.NoDup (forestIds (detach t f)).
Proof.
induction f as [|n f IHch IHf] using forest_ind; intros Hnd; [exact Hnd|].
apply NoDup_forestIds_cons in Hnd as (Hch & Hf & Hndch & Hndf & Hdisj).
rewrite detach_cons. destruct (String.eqb (id n) t); [now apply IHf|].
rewrite forestIds_cons. cbn [withChildren id children].
apply List.NoDup_cons.
- intros Hx. apply in_app_or in Hx as [Hx|Hx];
    apply detach_ids_incl in Hx; contradiction.
- apply List.NoDup_app; [now apply IHch | now apply IHf |].
  intros x Hx Hy. apply detach_ids_incl in Hx, Hy. exact (Hdisj _ Hx Hy).
Qed.

(** With unique ids, [removeNode] leaves the forest without the node of
    the id, whether the id is there or not. *)
Lemma removeNode_tree (target : string) (st : AppState) :
  List.NoDup (forestIds (tree st)) ->
  tree (removeNode target st) = detach target (tree st).
Proof.
intros Hnd.
destruct (existsb (String.eqb target) (forestIds (tree st))) eqn:Ex.
- apply existsb_In in Ex. now apply removeNode_detach.
- assert (Hnot : ~ In target (forestIds (tree st))).
  { intros Hx. apply existsb_In in Hx. congruence. }
  unfold removeNode. cbn [tree showToast setTree]. rewrite deepCopy_same.
  now rewrite findIndex_absent, findAndOperate_absent, detach_absent.
Qed.

End EntryFacts.

(* ================================================================== *)
(** ** Commits of the modal on a store with unique ids *)
(* ================================================================== *)

Section TrimFacts.
Import JS.
Local Open Scope string_scope.

Lemma trimEnd_cons (c : ascii) (s : string) :
  trimEnd (String c s)
  = match trimEnd s with
    | EmptyString => if isWhiteSpace c then EmptyString else String c EmptyString
    | t => String c t
    end.
Proof. reflexivity. Qed.

Lemma trimEnd_idem (s : string) : trimEnd (trimEnd s) = trimEnd s.
Proof.
induction s as [|c s IH]; [reflexivity|]. rewrite trimEnd_cons.
destruct (trimEnd s) as [|d t] eqn:E.
- destruct (isWhiteSpace c) eqn:W; [reflexivity|].
  rewrite trimEnd_cons. cbn [trimEnd]. now rewrite W.
- rewrite trimEnd_cons, IH. reflexivity.
Qed.

Lemma trimEnd_keeps_head (c : ascii) (r : string) :
  isWhiteSpace c = false -> trimEnd (String c r) = String c (trimEnd r).
Proof.
intros W. rewrite trimEnd_cons. destruct (trimEnd r); [now rewrite W | reflexivity].
Qed.

Lemma trimStart_head (s : string) :
  trimStart s = ""
  \/ exists c r, trimStart s = String c r /\ isWhiteSpace c = false.
Proof.
induction s as [|c s IH]; [now left|]. cbn [trimStart].
destruct (isWhiteSpace c) eqn:W; [exact IH|]. right. now exists c, s.
Qed.

(** Trimming a trimmed string changes nothing. *)
Lemma trim_idem (s : string) : trim (trim s) = trim s.
Proof.
unfold trim. destruct (trimStart_head s) as [E | (c & r & E & W)]; rewrite E.
- reflexivity.
- rewrite (trimEnd_keeps_head c r W). cbn [trimStart]. rewrite W.
  rewrite <- (trimEnd_keeps_head c r W). apply trimEnd_idem.
Qed.

End TrimFacts.

Section CommitFacts.
Import JS Store Forest Editor.
Local Open Scope string_scope.
Local Open Scope list_scope.

(** The form passes the test of [saveModal]. *)
Lemma accepted (t : string) (p : Z) (st : AppState) :
  t <> "" -> (1 <= p)%Z ->
  (forall k, knownPageCount st = Some k -> (p <= k)%Z) ->
  rejected t (Some p) (numPages st) = false.
Proof.
intros Ht Hp Hk. unfold rejected.
apply String.eqb_neq in Ht. rewrite Ht. cbn [orb].
assert (E0 : (p =? 0)%Z = false) by (apply Z.eqb_neq; lia).
assert (E1 : (p <? 1)%Z = false) by (apply Z.ltb_ge; lia).
rewrite E0, E1. cbn [orb].
unfold knownPageCount in Hk. destruct (numPages st) as [n|]; [|reflexivity].
destruct (n =? 0)%Z; [reflexivity|]. apply Z.ltb_ge. now apply Hk.
Qed.

(** What passes the test of [saveModal] is fit for the store. *)
Lemma rejected_false (i t : string) (p : Z) (st : AppState) :
  rejected (trim t) (Some p) (numPages st) = false ->
  goodEntry (knownPageCount st) (i, trim t, p).
Proof.
unfold rejected, goodEntry. intros H.
apply orb_false_iff in H as [Ht H]. apply orb_false_iff in H as [H Hn].
apply orb_false_iff in H as [_ H1]. apply Z.ltb_ge in H1.
split; [exact H1|]. split; [|split; [now apply String.eqb_neq | apply trim_idem]].
intros k Hk. unfold knownPageCount in Hk.
destruct (numPages st) as [n|]; [|discriminate].
destruct (n =? 0)%Z; [discriminate|]. injection Hk as ->. now apply Z.ltb_ge.
Qed.

Lemma truthyId_Some (i : string) : i <> "" -> truthyId (Some i) = Some i.
Proof. intros H. apply String.eqb_neq in H. unfold truthyId. now rewrite H. Qed.

Lemma knownPageCount_commit (uuid t : string) (p : Z) (st : AppState) :
  knownPageCount (commit uuid t p st) = knownPageCount st.
Proof.
unfold commit.
destruct (modalMode st), (truthyId (modalParentId st)),
  (truthyId (editingId st)); reflexivity.
Qed.

(** The forest after a commit, for unique ids. *)
Lemma commit_tree (uuid t : string) (p : Z) (st : AppState) :
  List.NoDup (forestIds (tree st)) ->
  tree (commit uuid t p st)
  = match modalMode st, truthyId (modalParentId st), truthyId (editingId st) with
    | AddRoot, _, _ => tree st ++ [createNode uuid t p]
    | AddChild, Some parentId, _ =>
        amend parentId (adopting (createNode uuid t p)) (tree st)
    | Edit, _, Some editing => amend editing (retitled t p) (tree st)
    | _, _, _ => tree st
    end.
Proof.
intros Hnd. unfold commit.
destruct (modalMode st), (truthyId (modalParentId st)) as [parentId|],
  (truthyId (editingId st)) as [editing|];
  cbn [tree setModalOpen showToast setTree]; try reflexivity;
  rewrite deepCopy_same.
1, 2: exact (findAndOperate_alter parentId (adopting (createNode uuid t p)) _ Hnd).
all: exact (findAndOperate_alter editing (retitled t p) _ Hnd).
Qed.

Lemma locate_present (target : string) (f : list Node) :
  In target (forestIds f) -> exists n, locate target f = Some n.
Proof.
induction f as [|n f IHch IHf] using forest_ind; intros Hin; [destruct Hin|].
rewrite locate_cons. destruct (String.eqb (id n) target) eqn:E; [now exists n|].
rewrite forestIds_cons in Hin. destruct Hin as [Hin|Hin];
  [apply String.eqb_neq in E; congruence|].
apply in_app_or in Hin as [Hin|Hin].
- destruct (IHch Hin) as (m & ->). now exists m.
- destruct (locate target (children n)) as [m|]; [now exists m | now apply IHf].
Qed.

Lemma saveModal_accepted (uuid : string) (p : Z) (st : AppState) :
  trim (formTitle st) <> "" ->
  parseInt (formPage st) = Some p ->
  (1 <= p)%Z ->
  (forall k, knownPageCount st = Some k -> (p <= k)%Z) ->
  saveModal uuid st = commit uuid (trim (formTitle st)) p st.
Proof.
intros Ht Hp H1 Hk. unfold saveModal. rewrite Hp.
now rewrite (accepted _ _ _ Ht H1 Hk).
Qed.

End CommitFacts.

Section CommitProperties.
Import JS Store Forest Editor.
Local Open Scope string_scope.
Local Open Scope list_scope.





(** X7.  In a store with unique ids, removing a node that a valid commit
    has just added, as a root or as a child, gives back the forest from
    before the commit. *)
Theorem X7_remove_undoes_add (uuid : string) (p : Z) (st : AppState) :
  List.NoDup (forestIds (tree st)) ->
  ~ In uuid (forestIds (tree st)) ->
  modalMode st <> Edit ->
  trim (formTitle st) <> "" ->
  parseInt (formPage st) = Some p ->
  (1 <= p)%Z ->
  (forall k, knownPageCount st = Some k -> (p <= k)%Z) ->
  tree (removeNode uuid (saveModal uuid st)) = tree st.
Proof.
intros Hnd Hfresh Hmode Ht Hp H1 Hk.
rewrite (saveModal_accepted uuid p st Ht Hp H1 Hk).
set (node := createNode uuid (trim (formTitle st)) p).
assert (Htree : tree (commit uuid (trim (formTitle st)) p st) = tree st ++ [node]
                \/ (exists parent,
                       tree (commit uuid (trim (formTitle st)) p st)
                       = amend parent (adopting node) (tree st))
                \/ tree (commit uuid (trim (formTitle st)) p st) = tree st).
{ rewrite (commit_tree _ _ _ _ Hnd).
  destruct (modalMode st); [now left | | contradiction].
  destruct (truthyId (modalParentId st)) as [parent|];
    [right; left; now exists parent | right; right;
     now destruct (truthyId (editingId st))]. }
assert (Hdetach : detach uuid (tree (commit uuid (trim (formTitle st)) p st))
                  = tree st).
{ destruct Htree as [E | [(parent & E) | E]]; rewrite E.
  - rewrite detach_app, (detach_absent _ _ Hfresh).
    cbn [detach flat_map node createNode id]. rewrite String.eqb_refl.
    now rewrite app_nil_r.
  - now apply detach_adopted.
  - now apply detach_absent. }
rewrite removeNode_tree; [exact Hdetach|].
destruct Htree as [E | [(parent & E) | E]]; rewrite E.
- rewrite forestIds_app. cbn [forestIds flat_map nodeIds node createNode id children].
  rewrite app_nil_r.
  apply List.NoDup_app; [exact Hnd | repeat constructor; simpl; tauto |].
  intros x Hx [<-|[]]. contradiction.
- destruct (existsb (String.eqb parent) (forestIds (tree st))) eqn:Ex.
  + apply existsb_In in Ex.
    pose proof (amend_adopting_entries parent node (tree st) Hnd Ex) as Hperm.
    rewrite forestIds_entries.
    apply (Permutation_NoDup
             (l := uuid :: map (fun e => fst (fst e)) (forestEntries (tree st)))).
    * symmetry. exact (Permutation_map _ Hperm).
    * rewrite <- forestIds_entries. now apply List.NoDup_cons.
  + rewrite amend_absent; [exact Hnd|].
    intros Hx. apply existsb_In in Hx. congruence.
- exact Hnd.
Qed.

(** Adding D under B of A(children: B, C) and removing D again. *)
Lemma X7_remove_undoes_add_witness :
  tree (removeNode "id-d"
          (saveModal "id-d" (sampleForm AddChild (Some "id-b") None "D" "4")))
  = [nodeA].
Proof.
apply (X7_remove_undoes_add "id-d" 4
         (sampleForm AddChild (Some "id-b") None "D" "4")).
- exact sampleState_NoDup.
- change (~ In "id-d" (forestIds (tree sampleState))).
  rewrite sampleState_ids. simpl.
  intros H; repeat (destruct H as [H|H]; [discriminate H|]); exact H.
- discriminate.
- discriminate.
- reflexivity.
- lia.
- intros k [= <-]. lia.
Defined.

End CommitProperties.

(* ================================================================== *)
(** ** What the store keeps *)
(* ================================================================== *)

Section Invariant.
Import JS Store Forest Editor.
Local Open Scope string_scope.
Local Open Scope list_scope.

Lemma goodEntry_id (count : option Z) (i j t : string) (p : Z) :
  goodEntry count (i, t, p) -> goodEntry count (j, t, p).
Proof. exact (fun H => H). Qed.

Lemma NoDup_adopted (parent uuid t : string) (p : Z) (f : list Node) :
  List.NoDup (forestIds f) -> ~ In uuid (forestIds f) ->
  List.NoDup (forestIds (amend parent (adopting (createNode uuid t p)) f)).
Proof.
intros Hnd Hfresh.
destruct (existsb (String.eqb parent) (forestIds f)) eqn:Ex.
- apply existsb_In in Ex.
  pose proof (amend_adopting_entries parent (createNode uuid t p) f Hnd Ex)
    as Hperm.
  rewrite forestIds_entries.
  apply (Permutation_NoDup
           (l := uuid :: map (fun e => fst (fst e)) (forestEntries f))).
  + symmetry. exact (Permutation_map _ Hperm).
  + rewrite <- forestIds_entries. now apply List.NoDup_cons.
- rewrite amend_absent; [exact Hnd|].
  intros Hx. apply existsb_In in Hx. congruence.
Qed.

Lemma good_adopted (count : option Z) (parent uuid t : string) (p : Z)
  (f : list Node) :
  List.NoDup (forestIds f) ->
  goodEntry count (uuid, t, p) ->
  Forall (goodEntry count) (forestEntries f) ->
  Forall (goodEntry count)
         (forestEntries (amend parent (adopting (createNode uuid t p)) f)).
Proof.
intros Hnd Hnew Hold.
destruct (existsb (String.eqb parent) (forestIds f)) eqn:Ex.
- apply existsb_In in Ex.
  pose proof (amend_adopting_entries parent (createNode uuid t p) f Hnd Ex)
    as Hperm.
  apply List.Forall_forall. intros e He.
  apply (Permutation_in _ Hperm) in He. destruct He as [<-|He]; [exact Hnew|].
  revert e He. apply List.Forall_forall. exact Hold.
- rewrite amend_absent; [exact Hold|].
  intros Hx. apply existsb_In in Hx. congruence.
Qed.

Lemma NoDup_retitled (target t : string) (p : Z) (f : list Node) :
  List.NoDup (forestIds f) ->
  List.NoDup (forestIds (amend target (retitled t p) f)).
Proof.
intros Hnd. rewrite forestIds_entries, amend_retitled_entries, map_map.
rewrite forestIds_entries in Hnd.
erewrite map_ext; [exact Hnd|].
intros e. now destruct (String.eqb (fst (fst e)) target).
Qed.

Lemma good_retitled (count : option Z) (target t : string) (p : Z)
  (f : list Node) :
  (forall i, goodEntry count (i, t, p)) ->
  Forall (goodEntry count) (forestEntries f) ->
  Forall (goodEntry count) (forestEntries (amend target (retitled t p) f)).
Proof.
intros Hnew Hold. rewrite amend_retitled_entries.
apply List.Forall_forall. intros e He. apply in_map_iff in He as (e0 & <- & He0).
destruct (String.eqb (fst (fst e0)) target); [apply Hnew|].
revert e0 He0. apply List.Forall_forall. exact Hold.
Qed.

Lemma wellFormed_commit (uuid t : string) (p : Z) (st : AppState) :
  wellFormed st ->
  ~ In uuid (forestIds (tree st)) ->
  (forall i, goodEntry (knownPageCount st) (i, t, p)) ->
  wellFormed (commit uuid t p st).
Proof.
intros [Hnd Hgood] Hfresh Hnew. unfold wellFormed.
rewrite knownPageCount_commit, (commit_tree _ _ _ _ Hnd).
destruct (modalMode st).
- split.
  + rewrite forestIds_app.
    cbn [forestIds flat_map nodeIds createNode id children]. rewrite app_nil_r.
    apply List.NoDup_app; [exact Hnd | repeat constructor; simpl; tauto |].
    intros x Hx [<-|[]]. contradiction.
  + rewrite forestEntries_app. apply Forall_app. split; [exact Hgood|].
    constructor; [apply Hnew | constructor].
- destruct (truthyId (modalParentId st)) as [parent|].
  + split; [now apply NoDup_adopted | now apply good_adopted].
  + now destruct (truthyId (editingId st)).
- destruct (truthyId (modalParentId st)), (truthyId (editingId st));
    try (split; [now apply NoDup_retitled | now apply good_retitled]);
    now split.
Qed.

(** X8.  [saveModal] keeps the store well formed: if the ids are unique,
    every page is at least 1 and within the known page count, and every
    title is trimmed and not empty, then the same holds after [saveModal],
    whatever the form holds, provided the id handed out is a new one. *)
Theorem X8_commit_keeps_store_well_formed (uuid : string) (st : AppState) :
  wellFormed st ->
  ~ In uuid (forestIds (tree st)) ->
  wellFormed (saveModal uuid st).
Proof.
intros Hwf Hfresh. unfold saveModal.
destruct (rejected (trim (formTitle st)) (parseInt (formPage st)) (numPages st))
  eqn:Hrej.
- exact Hwf.
- destruct (parseInt (formPage st)) as [p|].
  + apply wellFormed_commit; [exact Hwf | exact Hfresh |].
    intros i. now apply rejected_false.
  + unfold rejected in Hrej. now rewrite orb_true_r in Hrej.
Qed.

Lemma sampleState_wellFormed (mode : ModalMode) (parent editing : option string)
  (t p : string) :
  wellFormed (sampleForm mode parent editing t p).
Proof.
split; [exact sampleState_NoDup|].
change (Forall (goodEntry (Some 10%Z))
               [("id-a", "A", 1%Z); ("id-b", "B", 2%Z); ("id-c", "C", 3%Z)]).
repeat (constructor;
        [repeat split; [lia | intros k [= <-]; lia | discriminate] |]).
constructor.
Defined.

Lemma sampleState_safePages : safePages (tree sampleState).
Proof.
change (Forall (fun e : string * string * Z => safeInteger (snd e))
               [("id-a", "A", 1%Z); ("id-b", "B", 2%Z); ("id-c", "C", 3%Z)]).
repeat (constructor; [unfold safeInteger; cbn [snd]; lia|]). constructor.
Defined.

(** Adding a child to A(children: B, C) leaves a well-formed store. *)
Lemma X8_commit_keeps_store_well_formed_witness :
  wellFormed (saveModal "id-d" (sampleForm AddChild (Some "id-b") None "D" "4")).
Proof.
apply (X8_commit_keeps_store_well_formed "id-d"
         (sampleForm AddChild (Some "id-b") None "D" "4")).
- apply sampleState_wellFormed.
- change (~ In "id-d" (forestIds (tree sampleState))).
  rewrite sampleState_ids. simpl.
  intros H; repeat (destruct H as [H|H]; [discriminate H|]); exact H.
Defined.

(** X9.  [removeNode] keeps the store well formed, for an id of the forest
    and for any other. *)
Theorem X9_remove_keeps_store_well_formed (target : string) (st : AppState) :
  wellFormed st -> wellFormed (removeNode target st).
Proof.
intros [Hnd Hgood]. unfold wellFormed.
rewrite (removeNode_tree _ _ Hnd).
split; [now apply NoDup_detach|].
change (knownPageCount (removeNode target st)) with (knownPageCount st).
apply List.Forall_forall. intros e He. apply detach_entries_incl in He.
revert e He. apply List.Forall_forall. exact Hgood.
Qed.

Lemma X9_remove_keeps_store_well_formed_witness :
  wellFormed (removeNode "id-b" sampleState).
Proof.
apply (X9_remove_keeps_store_well_formed "id-b" sampleState).
apply sampleState_wellFormed.
Defined.

End Invariant.

(* ================================================================== *)
(** ** The import of the document's outline and the store *)
(* ================================================================== *)

Section ImportInvariant.
Import JS Store Forest Editor.
Local Open Scope string_scope.
Local Open Scope list_scope.

Variable doc : DocumentProxy.
Variable uuids : nat -> string.

Lemma outlineCount_cons (it : OutlineItem) (its : list OutlineItem) :
  outlineCount (it :: its) = (S (outlineCount (items it)) + outlineCount its)%nat.
Proof. destruct it; reflexivity. Qed.

Lemma outlineCount_single (it : OutlineItem) :
  outlineCount [it] = S (outlineCount (items it)).
Proof. rewrite outlineCount_cons. cbn. lia. Qed.

Lemma totalPagesOf_pos : (0 <= docNumPages doc)%Z -> (1 <= totalPagesOf doc)%Z.
Proof.
intros H. unfold totalPagesOf.
destruct (docNumPages doc =? 0)%Z eqn:E; [lia|]. apply Z.eqb_neq in E. lia.
Qed.

Lemma safePage_range (total : Z) (p : option Z) :
  (1 <= total)%Z -> (1 <= safePage total p <= total)%Z.
Proof.
intros H. unfold safePage. destruct p as [p|]; [|lia].
destruct (negb (p =? 0)%Z && (1 <=? p)%Z && (p <=? total)%Z) eqn:E; [|lia].
apply andb_true_iff in E as [E E2]. apply andb_true_iff in E as [_ E1].
apply Z.leb_le in E1, E2. lia.
Qed.

Lemma importedTitle_good (t : option string) :
  importedTitle t <> "" /\ trim (importedTitle t) = importedTitle t.
Proof.
unfold importedTitle.
destruct (String.eqb (trim match t with Some s => s | None => "" end) "") eqn:E.
- split; [discriminate | reflexivity].
- apply String.eqb_neq in E. split; [exact E | apply trim_idem].
Qed.

Lemma mapItems_well (its : list OutlineItem) :
  (0 <= docNumPages doc)%Z ->
  Forall (fun it => forall k,
            importedWell doc uuids [it] k
              ([fst (mapItem doc uuids it k)], snd (mapItem doc uuids it k)))
         its ->
  forall k, importedWell doc uuids its k (mapItems (mapItem doc uuids) its k).
Proof.
intros Hdoc.
induction 1 as [|it its Hit Hits IH]; intros k; cbn [mapItems].
- unfold importedWell, outlineCount.
  cbn. split; [lia|]. split; [reflexivity | constructor].
- destruct (Hit k) as (Hk1 & Hids1 & Hgood1).
  destruct (mapItem doc uuids it k) as [n k1]. cbn [fst snd] in *.
  destruct (IH k1) as (Hk2 & Hids2 & Hgood2).
  destruct (mapItems (mapItem doc uuids) its k1) as [ns k2]. cbn [fst snd] in *.
  rewrite outlineCount_single in Hk1, Hids1.
  unfold importedWell. cbn [fst snd]. rewrite outlineCount_cons.
  split; [lia|]. split.
  + change (n :: ns) with ([n] ++ ns). rewrite forestIds_app, Hids1, Hids2.
    rewrite List.seq_app, map_app. now rewrite Hk1.
  + change (n :: ns) with ([n] ++ ns). rewrite forestEntries_app.
    apply Forall_app. now split.
Qed.

Lemma mapItem_well (it : OutlineItem) :
  (0 <= docNumPages doc)%Z ->
  forall k,
    importedWell doc uuids [it] k
      ([fst (mapItem doc uuids it k)], snd (mapItem doc uuids it k)).
Proof.
intros Hdoc.
induction it as [t d its IH] using OutlineItem_nested_ind. intros k.
destruct (mapItems_well its Hdoc IH (S k)) as (Hk & Hids & Hgood).
cbn [mapItem items dest itemTitle].
destruct (mapItems (mapItem doc uuids) its (S k)) as [ch k'].
cbn [fst snd] in *. unfold importedWell. cbn [fst snd].
rewrite outlineCount_single. cbn [items].
split; [lia|]. split.
- rewrite forestIds_cons. cbn [withChildren createNode id children].
  cbn [forestIds flat_map]. rewrite app_nil_r. cbn [seq map].
  now rewrite Hids.
- rewrite forestEntries_cons.
  cbn [withChildren createNode id title page children].
  cbn [forestEntries flat_map]. rewrite app_nil_r. constructor; [|exact Hgood].
  pose proof (safePage_range (totalPagesOf doc) (destToPageNumber doc d)
                (totalPagesOf_pos Hdoc)) as Hp.
  destruct (importedTitle_good t) as [Ht1 Ht2].
  split; [lia|]. split; [intros j [= <-]; lia|]. now split.
Qed.

Lemma mapOutline_well (its : list OutlineItem) (k : nat) :
  (0 <= docNumPages doc)%Z ->
  importedWell doc uuids its k (mapOutline doc uuids its k).
Proof.
intros Hdoc. unfold mapOutline. apply mapItems_well; [exact Hdoc|].
apply List.Forall_forall. intros it _. now apply mapItem_well.
Qed.

Lemma NoDup_map_injective (l : list nat) :
  (forall i j, uuids i = uuids j -> i = j) ->
  List.NoDup l -> List.NoDup (map uuids l).
Proof.
intros Hinj. induction 1 as [|x l Hx Hl IH]; cbn [map]; constructor; [|exact IH].
intros Hin. apply in_map_iff in Hin as (y & Hy & Hin).
apply Hinj in Hy. now subst y.
Qed.

(** X10.  Loading a document into an editor with an empty tree leaves a
    well-formed store, whatever outline the document has: the imported nodes
    have distinct ids, pages within the document and trimmed titles that
    are not empty. *)
Theorem X10_import_gives_well_formed_store
  (outline : Outcome (option (list OutlineItem))) (st : AppState) :
  (0 <= docNumPages doc)%Z ->
  (forall i j, uuids i = uuids j -> i = j) ->
  tree st = [] ->
  wellFormed (onDocumentLoadSuccess uuids doc outline st).
Proof.
intros Hdoc Hinj Hempty.
assert (Hst1 : wellFormed (setNumPages (Some (totalPagesOf doc)) st)).
{ unfold wellFormed. cbn [tree setNumPages]. rewrite Hempty.
  split; constructor. }
unfold onDocumentLoadSuccess. rewrite Hempty.
destruct outline as [[[|it its]|]|]; try exact Hst1.
destruct (mapOutline_well (it :: its) 0 Hdoc) as (_ & Hids & Hgood).
destruct (fst (mapOutline doc uuids (it :: its) 0)) as [|n ns] eqn:E;
  [exact Hst1|].
unfold wellFormed. cbn [tree showToast setTree setNumPages].
split.
- rewrite Hids. apply NoDup_map_injective; [exact Hinj | apply List.seq_NoDup].
- assert (Hk : knownPageCount
                 (showToast
                    ("Imported " ++ ToString (Z.of_nat (length (n :: ns)))
                     ++ " existing bookmark"
                     ++ (if (1 <? length (n :: ns))%nat then "s" else ""))
                    Info
                    (setTree (n :: ns)
                       (setNumPages (Some (totalPagesOf doc)) st)))
               = Some (totalPagesOf doc)).
  { unfold knownPageCount. cbn [numPages showToast setTree setNumPages].
    pose proof (totalPagesOf_pos Hdoc) as Hpos.
    destruct (totalPagesOf doc =? 0)%Z eqn:E0; [|reflexivity].
    apply Z.eqb_eq in E0. lia. }
  rewrite Hk. exact Hgood.
Qed.

End ImportInvariant.

Section ImportInvariantExample.
Import JS Store Forest Editor.
Local Open Scope string_scope.
Local Open Scope list_scope.

Lemma dashes_injective (i j : nat) :
  ("id" ++ repeatDash i)%string = ("id" ++ repeatDash j)%string -> i = j.
Proof. intros [= H]. now apply repeatDash_inj. Defined.

(** A document of 5 pages with a nested outline. *)
Lemma X10_import_gives_well_formed_store_witness :
  wellFormed
    (onDocumentLoadSuccess
       (fun k => ("id" ++ repeatDash k)%string)
       (mkDoc 5 (fun _ => Rejects) (fun r => Resolves (num r)))
       (Resolves (Some
          [ mkItem (Some "Part") (DestExplicit [ElemRef (mkRef 3 0)])
              [ mkItem (Some "  ") (DestNamed "sec1") [] ] ]))
       (setTree [] sampleState)).
Proof.
apply X10_import_gives_well_formed_store.
- cbn. lia.
- exact dashes_injective.
- reflexivity.
Defined.

End ImportInvariantExample.

(* ================================================================== *)
(** ** The dialogs of the editor *)
(* ================================================================== *)

Section Dialogs.
Import JS Store Forest Editor.
Local Open Scope string_scope.
Local Open Scope list_scope.

Lemma scanCapture_locate (target : string)
  (below : Node -> string * Z -> bool * (string * Z)) (rest : list Node) :
  Forall (fun n => forall s,
            below n s = match locate target (children n) with
                        | Some m => (true, (title m, page m))
                        | None => (false, s)
                        end) rest ->
  forall done s,
    scanCapture target readTitlePage below (done ++ rest) (length done) rest s
    = match locate target rest with
      | Some m => (true, (title m, page m))
      | None => (false, s)
      end.
Proof.
induction 1 as [|n rest Hn Hrest IH]; intros done s; [reflexivity|].
cbn [scanCapture]. rewrite locate_cons.
assert (Hnext : scanCapture target readTitlePage below (done ++ n :: rest)
                  (S (length done)) rest s
                = match locate target rest with
                  | Some m => (true, (title m, page m))
                  | None => (false, s)
                  end).
{ specialize (IH (done ++ [n]) s).
  rewrite <- app_assoc, List.length_app, Nat.add_1_r in IH. exact IH. }
destruct (String.eqb (id n) target).
- unfold readTitlePage.
  now rewrite (list_lookup_middle done rest n (length done) eq_refl).
- destruct (0 <? length (children n))%nat eqn:Hlen.
  + rewrite Hn. destruct (locate target (children n)); [reflexivity | exact Hnext].
  + destruct (children n); [exact Hnext | discriminate].
Qed.

Lemma captureBelow_locate (target : string) (n : Node) (s : string * Z) :
  captureBelow target readTitlePage n s
  = match locate target (children n) with
    | Some m => (true, (title m, page m))
    | None => (false, s)
    end.
Proof.
revert s. induction n as [i t p ch IH] using Node_nested_ind. intros s.
cbn [captureBelow children].
exact (scanCapture_locate target _ ch IH [] s).
Qed.

(** The traversal of [openEdit] reads the node that [locate] gives. *)
Lemma findAndCapture_locate (target : string) (f : list Node) (s : string * Z) :
  findAndCapture target readTitlePage f s
  = match locate target f with
    | Some m => (true, (title m, page m))
    | None => (false, s)
    end.
Proof.
unfold findAndCapture.
apply (scanCapture_locate target _ f) with (done := []).
apply List.Forall_forall. intros n _ s'. apply captureBelow_locate.
Qed.

Lemma openEdit_eq (target : string) (st : AppState) :
  openEdit target st
  = let '(t, p) := match locate target (tree st) with
                   | Some m => (title m, page m)
                   | None => ("", 1%Z)
                   end in
    {| tree := tree st; numPages := numPages st; modalOpen := true;
       modalMode := Edit; modalParentId := None; editingId := Some target;
       formTitle := t; formPage := ToString p; toasts := toasts st |}.
Proof.
unfold openEdit. rewrite findAndCapture_locate.
now destruct (locate target (tree st)).
Qed.

Lemma locate_entry (target : string) (f : list Node) (n : Node) :
  locate target f = Some n -> In (id n, title n, page n) (forestEntries f).
Proof.
induction f as [|m f IHch IHf] using forest_ind; [discriminate|].
rewrite locate_cons, forestEntries_cons.
destruct (String.eqb (id m) target).
- intros [= ->]. now left.
- destruct (locate target (children m)) as [x|].
  + intros [= ->]. right. apply in_or_app. left. now apply IHch.
  + intros H. right. apply in_or_app. right. now apply IHf.
Qed.

Lemma locate_In (target : string) (f : list Node) (n : Node) :
  locate target f = Some n -> In target (forestIds f).
Proof.
intros H. destruct (locate_incl target f n H) as [Hid Hincl].
apply Hincl. rewrite nodeIds_eq. now left.
Qed.

(** With unique ids, giving a node the title and the page it has changes
    nothing. *)
Lemma amend_retitled_same (target : string) (f : list Node) (n : Node) :
  List.NoDup (forestIds f) -> locate target f = Some n ->
  amend target (retitled (title n) (page n)) f = f.
Proof.
induction f as [|m f IHch IHf] using forest_ind; intros Hnd; [discriminate|].
apply NoDup_forestIds_cons in Hnd as (Hch & Hf & Hndch & Hndf & Hdisj).
rewrite locate_cons, amend_cons. cbv zeta.
destruct (String.eqb (id m) target) eqn:E.
- intros [= <-]. apply String.eqb_eq in E. subst target.
  rewrite (amend_absent _ _ (children m) Hch), (amend_absent _ _ f Hf),
    withChildren_same.
  now destruct m.
- destruct (locate target (children m)) as [x|] eqn:Ex.
  + intros [= ->]. rewrite (IHch Hndch eq_refl), withChildren_same.
    rewrite (amend_absent _ _ f); [reflexivity|].
    apply Hdisj. now apply (locate_In target _ n).
  + intros H. rewrite (IHf Hndf H), (amend_absent _ _ (children m)),
      withChildren_same; [reflexivity|].
    intros Hin. destruct (locate_present _ _ Hin) as (x & Hx). congruence.
Qed.

(** X11.  In a well-formed store whose pages are integers that a number
    holds exactly, opening the edit dialog for a node of the forest and
    saving it as it is changes no node: the form takes the title and the
    page of the node, both pass the validation, and the commit writes them
    back; the only trace is the toast "Bookmark updated". *)
Theorem X11_edit_dialog_saved_unchanged (uuid target : string) (st : AppState) :
  wellFormed st ->
  safePages (tree st) ->
  In target (forestIds (tree st)) ->
  target <> "" ->
  saveModal uuid (openEdit target st)
  = setModalOpen false (showToast "Bookmark updated" Info (openEdit target st)).
Proof.
intros [Hnd Hgood] _ Hin Hne.
destruct (locate_present _ _ Hin) as (n & Hn).
pose proof (locate_entry _ _ _ Hn) as He.
assert (Hg : goodEntry (knownPageCount st) (id n, title n, page n)).
{ revert He. apply List.Forall_forall. exact Hgood. }
destruct Hg as (H1 & Hk & Ht & Htrim).
rewrite openEdit_eq, Hn.
set (st' := {| tree := tree st; numPages := numPages st; modalOpen := true;
               modalMode := Edit; modalParentId := None;
               editingId := Some target; formTitle := title n;
               formPage := ToString (page n); toasts := toasts st |}).
assert (Hsave : saveModal uuid st' = commit uuid (trim (formTitle st')) (page n) st').
{ apply saveModal_accepted.
  - cbn [formTitle st']. now rewrite Htrim.
  - apply parseInt_ToString.
  - exact H1.
  - exact Hk. }
rewrite Hsave. cbn [formTitle st']. rewrite Htrim.
unfold commit. cbn [modalMode modalParentId editingId st'].
rewrite (truthyId_Some _ Hne). cbn [truthyId tree st'].
rewrite deepCopy_same.
change (editOp (title n) (page n))
  with (fun (arr : list Node) (i : nat) =>
          alter (retitled (title n) (page n)) i arr).
rewrite (findAndOperate_alter target (retitled (title n) (page n)) _ Hnd).
rewrite (amend_retitled_same _ _ _ Hnd Hn).
reflexivity.
Qed.

(** Opening the dialog for B of A(children: B, C) and saving. *)
Lemma X11_edit_dialog_saved_unchanged_witness :
  tree (saveModal "u1" (openEdit "id-b" sampleState)) = [nodeA].
Proof.
rewrite (X11_edit_dialog_saved_unchanged "u1" "id-b" sampleState).
- reflexivity.
- apply sampleState_wellFormed.
- apply sampleState_safePages.
- rewrite sampleState_ids. simpl. auto.
- discriminate.
Defined.

(** X12.  Opening the edit dialog for an id that the forest does not have
    leaves the form with an empty title, and saving it is refused with the
    error toast: nothing is written. *)
Theorem X12_edit_dialog_of_missing_id_is_refused (uuid target : string)
  (st : AppState) :
  ~ In target (forestIds (tree st)) ->
  formTitle (openEdit target st) = ""
  /\ formPage (openEdit target st) = "1"
  /\ saveModal uuid (openEdit target st)
     = showToast "Please provide a valid title and page number" Error
         (openEdit target st).
Proof.
intros Habs. rewrite openEdit_eq, (locate_absent _ _ Habs).
split; [reflexivity|]. split; reflexivity.
Qed.

Lemma X12_edit_dialog_of_missing_id_is_refused_witness :
  tree (saveModal "u1" (openEdit "id-x" sampleState)) = [nodeA].
Proof.
destruct (X12_edit_dialog_of_missing_id_is_refused "u1" "id-x" sampleState)
  as (_ & _ & H).
- rewrite sampleState_ids. simpl.
  intros H; repeat (destruct H as [H|H]; [discriminate H|]); exact H.
- rewrite H. reflexivity.
Defined.

(** X13.  The add dialogs offer the page on view: with a title typed that
    is not blank, and the page on view an integer within the document that
    a number holds exactly, saving the dialog for a root appends to the
    roots a node without children that has the new id, the trimmed title
    and that page, and saving the dialog for a child of a node of the forest
    appends such a node to the children of that node. *)
Theorem X13_add_dialogs_use_page_on_view (uuid typed parent : string)
  (pageView : Z) (st : AppState) :
  trim typed <> "" ->
  (1 <= pageView)%Z ->
  safeInteger pageView ->
  (forall k, knownPageCount st = Some k -> (pageView <= k)%Z) ->
  (exists n,
     tree (saveModal uuid (setFormTitle typed (openAddRoot pageView st)))
     = tree st ++ [n]
     /\ id n = uuid /\ title n = trim typed /\ page n = pageView
     /\ children n = [])
  /\ (List.NoDup (forestIds (tree st)) -> parent <> "" ->
      In parent (forestIds (tree st)) ->
      exists p n,
        locate parent (tree st) = Some p
        /\ locate parent
             (tree (saveModal uuid
                      (setFormTitle typed (openAddChild pageView parent st))))
           = Some (withChildren (children p ++ [n]) p)
        /\ id n = uuid /\ title n = trim typed /\ page n = pageView
        /\ children n = []).
Proof.
intros Ht H1 _ Hk. split; [|intros Hnd Hne Hin].
- exists (createNode uuid (trim typed) pageView).
  rewrite (saveModal_accepted uuid pageView);
    [now repeat split | exact Ht | | exact H1 | exact Hk].
  apply parseInt_ToString.
- destruct (locate_present parent (tree st) Hin) as (p & Hp).
  exists p, (createNode uuid (trim typed) pageView).
  split; [exact Hp|]. split; [|now repeat split].
  rewrite (saveModal_accepted uuid pageView); [| exact Ht | | exact H1 | exact Hk].
  + rewrite commit_tree; [|exact Hnd].
    cbn [modalMode modalParentId setFormTitle openAddChild].
    rewrite (truthyId_Some _ Hne). cbv iota.
    cbn [formTitle setFormTitle openAddChild tree].
    rewrite locate_amend, Hp; [reflexivity | | exact Hnd].
    intros m. now destruct m.
  + apply parseInt_ToString.
Qed.

Lemma X13_add_dialogs_use_page_on_view_witness :
  exists n,
    tree (saveModal "id-d" (setFormTitle " D " (openAddRoot 7 sampleState)))
    = [nodeA] ++ [n]
    /\ id n = "id-d" /\ title n = "D" /\ page n = 7%Z /\ children n = [].
Proof.
destruct (X13_add_dialogs_use_page_on_view "id-d" " D " "id-a" 7 sampleState)
  as [H _].
- discriminate.
- lia.
- unfold safeInteger. lia.
- intros k [= <-]. lia.
- exact H.
Defined.

End Dialogs.

(* ================================================================== *)
(** ** Moving through the pages *)
(* ================================================================== *)

Section Navigation.
Import JS Store Forest Editor.
Local Open Scope string_scope.
Local Open Scope list_scope.
Local Open Scope Z_scope.

Lemma lastPage_pos (numPages : option Z) :
  (forall n, numPages = Some n -> 0 <= n) -> 1 <= lastPage numPages.
Proof.
intros H. unfold lastPage. destruct numPages as [n|]; [|lia].
specialize (H n eq_refl). destruct (n =? 0) eqn:E; [lia|].
apply Z.eqb_neq in E. lia.
Qed.

(** X14.  Page navigation stays within the document.  With a page count
    [n] of at least 1, [goToPage] lands between 1 and [n] whatever it is
    given, and leaves a page between 1 and [n] as it is; from such a page
    Prev goes one page back and stops at page 1, and Next goes one page on
    and stops at page [n].  Without a page count, or with the count 0,
    [goToPage] lands on page 1. *)
Theorem X14_navigation_stays_in_document (n p : Z) :
  1 <= n ->
  1 <= goToPage (Some n) p <= n
  /\ (n <= p -> goToPage (Some n) p = n)
  /\ (1 <= p <= n ->
      goToPage (Some n) p = p
      /\ prevPage p = (if p =? 1 then 1 else p - 1)
      /\ nextPage (Some n) p = (if p =? n then n else p + 1))
  /\ goToPage None p = 1
  /\ goToPage (Some 0) p = 1.
Proof.
intros Hn. unfold goToPage, prevPage, nextPage, lastPage.
assert (E : (n =? 0) = false) by (apply Z.eqb_neq; lia). rewrite E.
cbn [Z.eqb].
split; [destruct (p =? 0); lia|].
split; [intros Hp; destruct (p =? 0) eqn:E0;
        [apply Z.eqb_eq in E0|]; lia|].
split; [|split; destruct (p =? 0); lia].
intros Hp. assert (E0 : (p =? 0) = false) by (apply Z.eqb_neq; lia).
rewrite E0. split; [lia|]. split.
- destruct (p =? 1) eqn:E1; [apply Z.eqb_eq in E1 | apply Z.eqb_neq in E1]; lia.
- destruct (p =? n) eqn:E1; [apply Z.eqb_eq in E1 | apply Z.eqb_neq in E1]; lia.
Qed.

(** A document of 10 pages: a jump to page 25 lands on page 10. *)
Lemma X14_navigation_stays_in_document_witness :
  goToPage (Some 10) 25 = 10.
Proof.
destruct (X14_navigation_stays_in_document 10 25) as (_ & H & _).
- lia.
- apply H. lia.
Defined.

(** X15.  In a well-formed store of a loaded document, the Go action of a
    bookmark shows exactly the page of the bookmark. *)
Theorem X15_go_shows_bookmark_page (st : AppState) (k : Z)
  (e : string * string * Z) :
  wellFormed st ->
  knownPageCount st = Some k ->
  In e (forestEntries (tree st)) ->
  goToPage (numPages st) (snd e) = snd e.
Proof.
intros [_ Hgood] Hk He.
assert (Hg : goodEntry (knownPageCount st) e).
{ revert He. apply List.Forall_forall. exact Hgood. }
destruct e as [[i t] p]. destruct Hg as (H1 & Hle & _). cbn [snd].
specialize (Hle k Hk). unfold knownPageCount in Hk.
unfold goToPage, lastPage. destruct (numPages st) as [n|]; [|discriminate].
destruct (n =? 0); [discriminate|]. injection Hk as ->.
destruct (p =? 0) eqn:E; [apply Z.eqb_eq in E|]; lia.
Qed.

Lemma X15_go_shows_bookmark_page_witness :
  goToPage (numPages sampleState) 3 = 3.
Proof.
apply (X15_go_shows_bookmark_page sampleState 10 ("id-c", "C"%string, 3)).
- apply sampleState_wellFormed.
- reflexivity.
- simpl. auto.
Defined.

End Navigation.

(* ================================================================== *)
(** ** The name of the download *)
(* ================================================================== *)

Section DownloadName.
Import JS Store Editor Descriptor.
Local Open Scope string_scope.

Lemma lastIndexOf_lacks (c : ascii) (s : string) :
  lacks c s -> lastIndexOf c s = None.
Proof.
induction s as [|x s IH]; [reflexivity|]. intros [Hx Hs]. cbn [lastIndexOf].
rewrite (IH Hs). apply Ascii.eqb_neq in Hx. now rewrite Hx.
Qed.

Lemma lastIndexOf_last (c : ascii) (base ext : string) :
  lacks c ext -> lastIndexOf c (base ++ String c ext) = Some (String.length base).
Proof.
intros Hext. induction base as [|x b IH]; cbn [append lastIndexOf String.length].
- now rewrite (lastIndexOf_lacks _ _ Hext), Ascii.eqb_refl.
- now rewrite IH.
Qed.

Lemma substring_all (s : string) : substring 0 (String.length s) s = s.
Proof. induction s as [|x s IH]; [reflexivity|]. cbn. now rewrite IH. Qed.

Lemma substring_prefix (a b : string) :
  substring 0 (String.length a) (a ++ b) = a.
Proof.
induction a as [|x a IH]; cbn; [now destruct b | now rewrite IH].
Qed.

Lemma substring_suffix (a b : string) (c : ascii) :
  substring (String.length a + 1) (String.length b) (a ++ String c b) = b.
Proof.
induction a as [|x a IH]; cbn [String.length append Nat.add substring].
- apply substring_all.
- exact IH.
Qed.

Lemma length_append (a b : string) :
  String.length (a ++ b) = (String.length a + String.length b)%nat.
Proof. induction a as [|x a IH]; cbn; [reflexivity | now rewrite IH]. Qed.

Lemma makeBookmarkedName_eq (name : string) :
  name <> "" ->
  makeBookmarkedName (Some name)
  = match lastIndexOf "." name with
    | Some lastDot =>
        if (0 <? lastDot)%nat && (lastDot <? String.length name - 1)%nat then
          substring 0 lastDot name ++ " bookmarked."
          ++ substring (lastDot + 1) (String.length name - (lastDot + 1)) name
        else name ++ " bookmarked.pdf"
    | None => name ++ " bookmarked.pdf"
    end.
Proof. destruct name; [congruence | reflexivity]. Qed.

(** X16.  The name of the download: a name with an extension gets
    " bookmarked" put before the last dot; a name without a dot, a name whose
    only dot comes first and a name that ends with its last dot get
    " bookmarked.pdf" put after them. *)
Theorem X16_download_name (base ext : string) :
  lacks "." ext -> ext <> "" ->
  (base <> "" ->
   makeBookmarkedName (Some (base ++ "." ++ ext)) = base ++ " bookmarked." ++ ext)
  /\ makeBookmarkedName (Some ext) = ext ++ " bookmarked.pdf"
  /\ makeBookmarkedName (Some ("." ++ ext)) = "." ++ ext ++ " bookmarked.pdf"
  /\ makeBookmarkedName (Some (ext ++ ".")) = ext ++ ". bookmarked.pdf".
Proof.
intros Hext Hne.
assert (Hlen : (0 < String.length ext)%nat)
  by (destruct ext; [congruence | cbn; lia]).
split; [intros Hbase | split; [|split]].
- assert (Hb : (0 < String.length base)%nat)
    by (destruct base; [congruence | cbn; lia]).
  rewrite makeBookmarkedName_eq by (destruct base; [congruence | discriminate]).
  change (base ++ "." ++ ext) with (base ++ String "." ext).
  rewrite (lastIndexOf_last _ base ext Hext), length_append.
  cbn [String.length].
  assert (E1 : (0 <? String.length base)%nat = true) by (apply Nat.ltb_lt; lia).
  assert (E2 : (String.length base <? String.length base + S (String.length ext) - 1)%nat
               = true) by (apply Nat.ltb_lt; lia).
  rewrite E1, E2. cbn [andb].
  replace (String.length base + S (String.length ext) - (String.length base + 1))%nat
    with (String.length ext) by lia.
  now rewrite substring_prefix, substring_suffix.
- rewrite makeBookmarkedName_eq by exact Hne.
  now rewrite (lastIndexOf_lacks _ _ Hext).
- rewrite makeBookmarkedName_eq by discriminate.
  change ("." ++ ext) with ("" ++ String "." ext).
  rewrite (lastIndexOf_last _ "" ext Hext). reflexivity.
- rewrite makeBookmarkedName_eq by (destruct ext; [congruence | discriminate]).
  change (ext ++ ".") with (ext ++ String "." "").
  rewrite (lastIndexOf_last _ ext "" I), length_append. cbn [String.length].
  assert (E2 : (String.length ext <? String.length ext + 1 - 1)%nat = false)
    by (apply Nat.ltb_ge; lia).
  rewrite E2, andb_false_r. clear. induction ext as [|x ext IH]; cbn;
    [reflexivity | now rewrite IH].
Qed.

Lemma X16_download_name_witness :
  makeBookmarkedName (Some "notes.v2.pdf") = "notes.v2 bookmarked.pdf"
  /\ makeBookmarkedName (Some "pdf") = "pdf bookmarked.pdf".
Proof.
destruct (X16_download_name "notes.v2" "pdf") as (H1 & H2 & _).
- cbn. repeat split; discriminate.
- discriminate.
- split; [apply H1; discriminate | exact H2].
Defined.

End DownloadName.

(* ================================================================== *)
(** ** The upload directory *)
(* ================================================================== *)

Section ServerFacts.
Import JS Serializer Server.
Local Open Scope string_scope.
Local Open Scope list_scope.

Variable pf : Platform.

(** What [safeUnlink] leaves at each path. *)
Lemma safeUnlink_at (fs : FS) (p q : string) :
  safeUnlink pf fs p q
  = if String.eqb q p && negb (String.eqb p "")
       && match fs p with Some (File _ _) => true | _ => false end
    then None else fs q.
Proof.
unfold safeUnlink, existsSync, unlinkSync, without.
destruct (String.eqb p "") eqn:Ep; cbn [negb andb];
  [now rewrite andb_false_r|].
rewrite andb_true_r.
destruct (fs p) as [[b m|m]|] eqn:Efs; cbn [andb];
  rewrite ?andb_false_r, ?andb_true_r; try reflexivity.
Qed.

Lemma safeUnlink_file (fs : FS) (p bytes : string) (m : Q) :
  p <> "" -> fs p = Some (File bytes m) -> safeUnlink pf fs p = without p fs.
Proof.
intros Hp Hfs. apply String.eqb_neq in Hp.
unfold safeUnlink, existsSync, unlinkSync. now rewrite Hp, Hfs.
Qed.

Lemma sweepOne_at (ttl : option Z) (now : Z) (fs : FS) (name q : string) :
  join pf (uploadDir pf) name <> "" ->
  sweepOne pf ttl now fs name q
  = match fs q with
    | Some (File b m) =>
        if String.eqb (join pf (uploadDir pf) name) q && expired ttl now m
        then None else Some (File b m)
    | other => other
    end.
Proof.
intros Hp. apply String.eqb_neq in Hp. unfold sweepOne, statSync.
set (p := join pf (uploadDir pf) name) in *.
assert (Hother : String.eqb p q = false ->
                 fs q = match fs q with
                        | Some (File b m) =>
                            if String.eqb p q && expired ttl now m
                            then None else Some (File b m)
                        | other => other
                        end).
{ intros E. rewrite E. now destruct (fs q) as [[|]|]. }
destruct (fs p) as [[b m|m]|] eqn:Efs.
- destruct (expired ttl now m) eqn:Ex.
  + rewrite safeUnlink_at, Efs, Hp. cbn [negb]. rewrite !andb_true_r.
    destruct (String.eqb q p) eqn:E.
    * apply String.eqb_eq in E. subst q.
      now rewrite Efs, String.eqb_refl, Ex.
    * apply Hother. now rewrite String.eqb_sym.
  + destruct (String.eqb p q) eqn:E; [|now apply Hother].
    apply String.eqb_eq in E. subst q. now rewrite Efs, Ex.
- destruct (expired ttl now m) eqn:Ex.
  + rewrite safeUnlink_at, Efs, andb_false_r.
    destruct (String.eqb p q) eqn:E; [|now apply Hother].
    apply String.eqb_eq in E. subst q. now rewrite Efs.
  + destruct (String.eqb p q) eqn:E; [|now apply Hother].
    apply String.eqb_eq in E. subst q. now rewrite Efs.
- destruct (String.eqb p q) eqn:E; [|now apply Hother].
  apply String.eqb_eq in E. subst q. now rewrite Efs.
Qed.

Lemma sweep_fold_at (ttl : option Z) (now : Z) (files : list string) :
  (forall name, join pf (uploadDir pf) name <> "") ->
  forall (fs : FS) (q : string),
    fold_left (sweepOne pf ttl now) files fs q
    = match fs q with
      | Some (File b m) =>
          if listed pf files q && expired ttl now m then None
          else Some (File b m)
      | other => other
      end.
Proof.
intros Hjoin. induction files as [|name files IH]; intros fs q; cbn [fold_left].
- now destruct (fs q) as [[|]|].
- rewrite IH, (sweepOne_at _ _ _ _ _ (Hjoin name)).
  unfold listed. cbn [existsb].
  destruct (fs q) as [[b m|m]|]; try reflexivity. cbv beta iota.
  destruct (String.eqb (join pf (uploadDir pf) name) q),
    (expired ttl now m) eqn:Ex;
    cbn [andb orb]; cbv beta iota; rewrite ?Ex;
    rewrite ?andb_false_r, ?andb_true_r; reflexivity.
Qed.

Lemma expired_hours (h now : Z) (m : Q) :
  expired (Some h) now m = true
  <-> (inject_Z (h * 3600000) < inject_Z now - m)%Q.
Proof.
unfold expired. replace (h * 60 * 60 * 1000)%Z with (h * 3600000)%Z by lia.
rewrite negb_true_iff. split.
- intros H. apply Qnot_le_lt. intros Hle. apply Qle_bool_iff in Hle. congruence.
- intros H. destruct (Qle_bool (inject_Z now - m) (inject_Z (h * 3600000))) eqn:E;
    [|reflexivity].
  apply Qle_bool_iff in E. apply Qle_not_lt in E. contradiction.
Qed.

(** X17.  With a time to live of [h] hours, the sweep deletes exactly the
    regular files that the listing of the upload directory names and that
    were modified more than [h * 3600000] milliseconds before now; every
    other path holds what it held: directories stay, files outside the
    listing stay, files modified later stay, and nothing is created or
    changed. *)
Theorem X17_sweep_deletes_expired_uploads (h now : Z) (fs : FS)
  (files : list string) (q : string) :
  readdirSync pf fs (uploadDir pf) = inr files ->
  (forall name, join pf (uploadDir pf) name <> "") ->
  match fs q with
  | Some (File b m) =>
      (listed pf files q = true
       /\ (inject_Z (h * 3600000) < inject_Z now - m)%Q ->
       sweepUploadsDirectory pf (Some h) now fs q = None)
      /\ (listed pf files q = false
          \/ (inject_Z now - m <= inject_Z (h * 3600000))%Q ->
          sweepUploadsDirectory pf (Some h) now fs q = Some (File b m))
  | other => sweepUploadsDirectory pf (Some h) now fs q = other
  end.
Proof.
intros Hdir Hjoin. unfold sweepUploadsDirectory. rewrite Hdir.
rewrite (sweep_fold_at (Some h) now files Hjoin fs q).
destruct (fs q) as [[b m|m]|]; try reflexivity.
split.
- intros [Hl Hage]. apply expired_hours in Hage. now rewrite Hl, Hage.
- intros [Hl | Hage]; [now rewrite Hl|].
  destruct (expired (Some h) now m) eqn:E; [|now rewrite andb_false_r].
  apply expired_hours in E. apply Qle_not_lt in Hage. contradiction.
Qed.

(** X18.  The time to live comes from [parseInt]: a variable that is unset
    or empty gives 6 hours, the decimal numeral of an integer that a number
    holds exactly gives that integer (["0"] gives 0, not the default), and
    when the variable does not parse, so that the time to live is NaN, the
    sweep deletes nothing. *)
Theorem X18_time_to_live (now : Z) (fs : FS) (q : string) :
  UPLOAD_TTL_HOURS None = Some 6%Z
  /\ UPLOAD_TTL_HOURS (Some "") = Some 6%Z
  /\ (forall z, safeInteger z -> UPLOAD_TTL_HOURS (Some (ToString z)) = Some z)
  /\ UPLOAD_TTL_HOURS (Some "six") = None
  /\ sweepUploadsDirectory pf None now fs q = fs q.
Proof.
split; [reflexivity|]. split; [reflexivity|]. split; [|split; [reflexivity|]].
- intros z _. unfold UPLOAD_TTL_HOURS.
  pose proof (ToString_nonempty z) as Hne. apply String.eqb_neq in Hne.
  rewrite Hne. apply parseInt_ToString.
- unfold sweepUploadsDirectory.
  destruct (readdirSync pf fs (uploadDir pf)) as [e|files]; [reflexivity|].
  generalize fs. induction files as [|name files IH]; intros fs0; [reflexivity|].
  cbn [fold_left]. rewrite IH. unfold sweepOne, expired.
  now destruct (statSync pf fs0 (join pf (uploadDir pf) name)).
Qed.

End ServerFacts.

Section SweepExample.
Import JS Serializer Server.
Local Open Scope string_scope.
Local Open Scope list_scope.

(** With a time to live of 6 hours, 25 hours after the first upload and 0
    hours after the second, the first goes and the second stays. *)
Lemma X17_sweep_deletes_expired_uploads_witness :
  sweepUploadsDirectory samplePlatform (Some 6%Z) 90000000 sampleFS "up/a.pdf"
  = None
  /\ sweepUploadsDirectory samplePlatform (Some 6%Z) 90000000 sampleFS "up/b.pdf"
     = Some (File "B" (inject_Z 90000000)).
Proof.
split.
- pose proof (X17_sweep_deletes_expired_uploads samplePlatform 6 90000000
                sampleFS ["a.pdf"; "b.pdf"] "up/a.pdf" eq_refl
                ltac:(intros name; discriminate)) as H.
  apply (proj1 H). split; [reflexivity | reflexivity].
- pose proof (X17_sweep_deletes_expired_uploads samplePlatform 6 90000000
                sampleFS ["a.pdf"; "b.pdf"] "up/b.pdf" eq_refl
                ltac:(intros name; discriminate)) as H.
  apply (proj2 H). right. discriminate.
Defined.

End SweepExample.

(* ================================================================== *)
(** ** The request handlers *)
(* ================================================================== *)

Section HandlerFacts.
Import JS Serializer Server.
Local Open Scope string_scope.
Local Open Scope list_scope.

Variable pf : Platform.

Lemma printedOutline_empty (bookmarks : option (list Bookmark)) :
  printedOutline bookmarks = "" <-> bookmarks = None \/ bookmarks = Some [].
Proof.
split.
- destruct bookmarks as [[|b bs]|]; [now right | | now left].
  intros H. now apply (serialize_nonempty b bs) in H.
- intros [->| ->]; reflexivity.
Qed.

Lemma safeUnlink_cases (fs : FS) (p q : string) :
  safeUnlink pf fs p q = fs q \/ (safeUnlink pf fs p q = None /\ q = p).
Proof.
rewrite safeUnlink_at.
destruct (String.eqb q p) eqn:E; [|now left].
apply String.eqb_eq in E. cbn [andb].
destruct (negb (String.eqb p "")); cbn [andb]; [|now left].
destruct (fs p) as [[b m|m]|]; [now right | now left | now left].
Qed.

(** X19.  [POST /api/process] deletes nothing unless it answers with a PDF
    and [KEEP_AFTER_PROCESS] is off, and then nothing but the upload and its
    outlined copy: at every other path, and in every other case, the file
    system is as the request found it or, once the outline library has run
    (which it only does with a non-empty outline), as the library left it. *)
Theorem X19_process_deletes_only_its_own_files (keep : bool) (fs : FS)
  (id : option string) (bookmarks : option (list Bookmark)) :
  exists base,
    (base = fs
     \/ exists i outline,
          id = Some i /\ outline <> ""
          /\ base = fst (outlinePdf pf fs (join pf (uploadDir pf) i)
                           (join pf (uploadDir pf)
                              (parsedName pf i ++ "-outlined.pdf"))
                           outline))
    /\ forall q,
         snd (process pf keep fs id bookmarks) q = base q
         \/ (snd (process pf keep fs id bookmarks) q = None
             /\ keep = false
             /\ (exists bytes, fst (process pf keep fs id bookmarks) = Pdf bytes)
             /\ exists i,
                  id = Some i
                  /\ (q = join pf (uploadDir pf) i
                      \/ q = join pf (uploadDir pf)
                               (parsedName pf i ++ "-outlined.pdf"))).
Proof.
unfold process. destruct id as [i|]; [|exists fs; split; [now left | intros q; now left]].
destruct (String.eqb i ""); [exists fs; split; [now left | intros q; now left]|].
destruct (existsSync fs (join pf (uploadDir pf) i)); cbn [negb];
  [|exists fs; split; [now left | intros q; now left]].
destruct (String.eqb (printedOutline bookmarks) "") eqn:Eout.
- exists fs. split; [now left|]. intros q.
  destruct (readFileSync pf fs (join pf (uploadDir pf) i)) as [e|bytes];
    [now left|].
  destruct keep; [now left|]. cbn [fst snd].
  destruct (safeUnlink_cases fs (join pf (uploadDir pf) i) q) as [H|[H ->]];
    [now left|].
  right. split; [exact H|]. split; [reflexivity|]. split; [now exists bytes|].
  exists i. split; [reflexivity | now left].
- apply String.eqb_neq in Eout.
  set (filePath := join pf (uploadDir pf) i).
  set (savePath := join pf (uploadDir pf) (parsedName pf i ++ "-outlined.pdf")).
  exists (fst (outlinePdf pf fs filePath savePath (printedOutline bookmarks))).
  split; [right; exists i, (printedOutline bookmarks); now repeat split|].
  intros q.
  destruct (outlinePdf pf fs filePath savePath (printedOutline bookmarks))
    as [fs1 [e|]]; cbn [fst snd]; [now left|].
  destruct (readFileSync pf fs1 savePath) as [e|bytes]; [now left|].
  destruct keep; [now left|]. cbn [fst snd].
  destruct (safeUnlink_cases (safeUnlink pf fs1 savePath) filePath q)
    as [H|[H ->]].
  + rewrite H.
    destruct (safeUnlink_cases fs1 savePath q) as [H'|[H' ->]]; [now left|].
    right. split; [exact H'|]. split; [reflexivity|].
    split; [now exists bytes|]. exists i. split; [reflexivity | now right].
  + right. split; [exact H|]. split; [reflexivity|].
    split; [now exists bytes|]. exists i. split; [reflexivity | now left].
Qed.

(** X20.  A request for an uploaded file without bookmarks, that is with a
    [bookmarks] field that is not an array or is the empty array, is
    answered with the bytes of the upload as they are, the outline library
    taking no part; afterwards the upload is gone, unless
    [KEEP_AFTER_PROCESS] is on, and every other path is as before. *)
Theorem X20_no_bookmarks_returns_upload (keep : bool) (fs : FS) (i : string)
  (bookmarks : option (list Bookmark)) (bytes : string) (m : Q) :
  i <> "" ->
  join pf (uploadDir pf) i <> "" ->
  fs (join pf (uploadDir pf) i) = Some (File bytes m) ->
  bookmarks = None \/ bookmarks = Some [] ->
  process pf keep fs (Some i) bookmarks
  = (Pdf bytes, if keep then fs else without (join pf (uploadDir pf) i) fs).
Proof.
intros Hi Hpath Hfs Hb. unfold process, existsSync, readFileSync.
apply String.eqb_neq in Hi. rewrite Hi, Hfs. cbn [negb].
apply printedOutline_empty in Hb. rewrite Hb. cbn [String.eqb].
now rewrite (safeUnlink_file pf fs _ bytes m Hpath Hfs).
Qed.


(** X22.  An upload can be processed under the id that the upload handler
    answers with: [POST /api/upload] of a file that multer has stored,
    followed by [POST /api/process] with that id and without bookmarks,
    returns the bytes that were uploaded. *)
Theorem X22_upload_then_process (keep : bool) (fs : FS) (file : UploadedFile)
  (bytes : string) (m : Q) :
  fs (path file) = Some (File bytes m) ->
  (forall m', fs (join pf (uploadDir pf) (filename file ++ ".pdf"))
              <> Some (Dir m')) ->
  join pf (uploadDir pf) (filename file ++ ".pdf") <> "" ->
  exists fs1,
    upload pf fs (Some file)
    = (Uploaded (filename file ++ ".pdf") (originalname file), fs1)
    /\ fst (process pf keep fs1 (Some (filename file ++ ".pdf")%string) None)
       = Pdf bytes.
Proof.
intros Hfile Hnew Hpath. unfold upload, renameSync. rewrite Hfile.
set (newPath := join pf (uploadDir pf) (filename file ++ ".pdf")) in *.
assert (Hid : (filename file ++ ".pdf")%string <> "")
  by (destruct (filename file); discriminate).
apply String.eqb_neq in Hid.
destruct (fs newPath) as [[b0 m0|m0]|] eqn:E;
  try (now destruct (Hnew m0));
  (eexists; split; [reflexivity|];
   unfold process, existsSync, readFileSync; fold newPath;
   rewrite Hid, String.eqb_refl; cbn [negb printedOutline length Nat.ltb];
   now destruct keep).
Qed.

End HandlerFacts.

Section HandlerExample.
Import JS Serializer Server.
Local Open Scope string_scope.
Local Open Scope list_scope.

(** The first upload of the sample, requested with an empty array. *)
Lemma X20_no_bookmarks_returns_upload_witness :
  process samplePlatform false sampleFS (Some "a.pdf") (Some [])
  = (Pdf "A", without "up/a.pdf" sampleFS).
Proof.
apply (X20_no_bookmarks_returns_upload samplePlatform false sampleFS "a.pdf"
         (Some []) "A" 0).
- discriminate.
- discriminate.
- reflexivity.
- now right.
Defined.


(** The file that multer stored at [tmp/x] under the name [x]. *)
Lemma X22_upload_then_process_witness :
  exists fs1,
    upload samplePlatform sampleFS (Some (mkUpload "tmp/x" "x" "doc.pdf"))
    = (Uploaded "x.pdf" "doc.pdf", fs1)
    /\ fst (process samplePlatform true fs1 (Some "x.pdf") None) = Pdf "X".
Proof.
apply (X22_upload_then_process samplePlatform true sampleFS
         (mkUpload "tmp/x" "x" "doc.pdf") "X" 0).
- reflexivity.
- intros m'. discriminate.
- discriminate.
Defined.

End HandlerExample.

(* ================================================================== *)
(** ** The descriptor of the store *)
(* ================================================================== *)

Section StoreDescriptor.
Import JS Serializer Outline Descriptor Store Forest Editor.
Local Open Scope string_scope.
Local Open Scope list_scope.

Lemma forestLines_cons (d : nat) (n : Node) (f : list Node) :
  forestLines d (n :: f)
  = (Store.page n, d, replaceNewlines (Store.title n))
    :: forestLines (S d) (Store.children n) ++ forestLines d f.
Proof. destruct n; reflexivity. Qed.

(** The entries of a sorted forest are those of its nodes taken as they
    come, up to the order. *)
Lemma entries_sorted_perm (d : nat) (bs : list Bookmark) :
  Permutation
    (map entryOf (preorder d (sortBookmarksByPage bs)))
    (map entryOf
       (flat_map (preorderNode d) (map (withSorted sortBookmarksByPage) bs))).
Proof.
rewrite sortBookmarksByPage_eq. unfold preorder.
apply Permutation_map, Permutation_flat_map, Permutation_map.
symmetry. apply sort_perm.
Qed.

(** The entries of one stripped node whose children are then sorted. *)
Lemma entries_stripped_node (d : nat) (n : Node) :
  Store.page n <> 0%Z ->
  map entryOf (preorderNode d (withSorted sortBookmarksByPage (strip n)))
  = (Store.page n, d, replaceNewlines (Store.title n))
    :: map entryOf
         (preorder (S d) (sortBookmarksByPage (map strip (Store.children n)))).
Proof.
intros Hp. destruct n as [i t p ch]. cbn [Store.page Store.title Store.children] in *.
cbn [strip Store.title Store.page Store.children].
unfold withSorted.
cbn [Serializer.title Serializer.page Serializer.children preorderNode map].
f_equal.
- unfold entryOf. cbn [fst snd]. rewrite printedPage_PageNum.
  apply Z.eqb_neq in Hp. now rewrite Hp.
- destruct ch as [|c ch]; reflexivity.
Qed.

Lemma nonzero_cons (n : Node) (f : list Node) :
  Forall (fun e => snd e <> 0%Z) (forestEntries (n :: f)) ->
  Store.page n <> 0%Z
  /\ Forall (fun e => snd e <> 0%Z) (forestEntries (Store.children n))
  /\ Forall (fun e => snd e <> 0%Z) (forestEntries f).
Proof.
rewrite forestEntries_cons. intros H.
apply List.Forall_cons_iff in H as [Hp H]. apply Forall_app in H as [Hch Hf].
now repeat split.
Qed.

Lemma entries_stripped_perm (f : list Node) :
  Forall (fun e => snd e <> 0%Z) (forestEntries f) ->
  forall d,
    Permutation
      (map entryOf
         (flat_map (preorderNode d)
            (map (withSorted sortBookmarksByPage) (map strip f))))
      (forestLines d f).
Proof.
induction f as [|n f IHch IHf] using forest_ind; intros Hnz d; [constructor|].
apply nonzero_cons in Hnz as (Hp & Hch & Hf).
cbn [map flat_map]. rewrite map_app, (entries_stripped_node d n Hp).
rewrite forestLines_cons. cbn [app]. apply perm_skip.
apply Permutation_app; [|now apply IHf].
rewrite entries_sorted_perm. now apply IHch.
Qed.

Lemma serialize_entryLines (f : list Bookmark) :
  serialize f = join newline (map entryLine (entries f)).
Proof.
rewrite serialize_preorder. unfold entries. rewrite map_map.
f_equal; apply map_ext; intros [d b]; reflexivity.
Qed.

Lemma wellFormed_nonzero (st : AppState) :
  wellFormed st -> Forall (fun e => snd e <> 0%Z) (forestEntries (tree st)).
Proof.
intros [_ Hgood]. apply List.Forall_forall. intros [[i t] p] He.
assert (Hg : goodEntry (knownPageCount st) (i, t, p)).
{ revert He. apply List.Forall_forall. exact Hgood. }
destruct Hg as [H1 _]. cbn [snd]. lia.
Qed.

(** X23.  The descriptor that a download submits for a well-formed store,
    whose pages are integers that a number holds exactly, is made of the
    lines of its entries, and these say every bookmark of the store exactly
    once, with its page, its depth in the tree and its title (line feeds as
    spaces), and nothing else: they are the entries of the nodes of the
    store, up to the order. *)
Theorem X23_descriptor_lists_every_bookmark_once (st : AppState) :
  wellFormed st ->
  safePages (tree st) ->
  descriptor st = join newline (map entryLine (entries (map strip (tree st))))
  /\ Permutation (entries (map strip (tree st))) (forestLines 0 (tree st)).
Proof.
intros Hwf _. split; [apply serialize_entryLines|].
unfold entries. rewrite entries_sorted_perm. apply entries_stripped_perm.
now apply wellFormed_nonzero.
Qed.

Lemma X23_descriptor_lists_every_bookmark_once_witness :
  descriptor sampleState
  = ("1||A" ++ newline ++ "2|-|B" ++ newline ++ "3|-|C")%string
  /\ Permutation (entries (map strip (tree sampleState)))
                 [(1%Z, 0%nat, "A"); (2%Z, 1%nat, "B"); (3%Z, 1%nat, "C")].
Proof.
destruct (X23_descriptor_lists_every_bookmark_once sampleState) as [H1 H2].
- apply sampleState_wellFormed.
- apply sampleState_safePages.
- split; [rewrite H1; reflexivity | exact H2].
Defined.

Lemma ascendingPages_sorted (f : list Node) :
  ascendingPages f ->
  StronglySorted (fun a b => (Store.page a <= Store.page b)%Z) f.
Proof.
induction f as [|a f IH]; intros H; [constructor|].
destruct f as [|b f]; [repeat constructor|].
destruct H as [Hab H]. specialize (IH H). constructor; [exact IH|].
constructor; [exact Hab|].
apply StronglySorted_inv in IH as [_ Hb].
revert Hb. apply List.Forall_impl. intros c Hc. lia.
Qed.

Lemma sortKey_strip (n : Node) : sortKey (strip n) = ofZ (Store.page n).
Proof.
destruct n as [i t p ch]. unfold sortKey, orElse.
cbn [strip Serializer.page Number Store.page Store.title Store.children].
unfold truthy, ofZ.
destruct (Qeq_bool (inject_Z p) 0) eqn:E; [|reflexivity]. cbn [negb].
apply Qeq_bool_iff in E. f_equal.
assert (Hp : p = 0%Z)
  by (apply (proj1 (inject_Z_injective p 0)); exact E).
now subst p.
Qed.

Lemma inOrder_strip (a b : Node) :
  (Store.page a <= Store.page b)%Z -> inOrder byPage (strip a) (strip b).
Proof.
intros H. unfold inOrder. apply byPage_inOrder. unfold numLe.
rewrite !sortKey_strip. cbn [numLeb ofZ]. apply Qle_bool_iff.
now rewrite <- Zle_Qle.
Qed.

Lemma sort_stripped (f : list Node) :
  ascendingPages f -> sort byPage (map strip f) = map strip f.
Proof.
intros H. apply sort_inOrder. apply ascendingPages_sorted in H.
induction H as [|a f Hf IH Ha]; cbn [map]; constructor; [exact IH|].
apply List.Forall_forall. intros x Hx. apply in_map_iff in Hx as (b & <- & Hb).
apply inOrder_strip. revert b Hb. apply List.Forall_forall. exact Ha.
Qed.

Lemma orderedForest_cons (n : Node) (f : list Node) :
  orderedForest (n :: f) ->
  orderedForest (Store.children n) /\ orderedForest f.
Proof.
intros [Hasc Hall]. cbn [fold_right] in Hall. destruct Hall as [Hn Hall].
split.
- destruct n as [i t p ch]. exact Hn.
- split; [|exact Hall]. destruct f as [|b f]; [exact I | now destruct Hasc].
Qed.

Lemma entries_ordered (f : list Node) :
  Forall (fun e => snd e <> 0%Z) (forestEntries f) ->
  orderedForest f ->
  forall d,
    map entryOf (preorder d (sortBookmarksByPage (map strip f)))
    = forestLines d f.
Proof.
induction f as [|n f IHch IHf] using forest_ind; intros Hnz Hord d;
  [reflexivity|].
apply nonzero_cons in Hnz as (Hp & Hch & Hf).
pose proof (orderedForest_cons n f Hord) as [Hoch Hof].
specialize (IHf Hf Hof d).
rewrite sortBookmarksByPage_eq, (sort_stripped f (proj1 Hof)) in IHf.
rewrite sortBookmarksByPage_eq, (sort_stripped (n :: f) (proj1 Hord)).
unfold preorder in IHf. unfold preorder at 1. cbn [map flat_map].
rewrite map_app, IHf, (entries_stripped_node d n Hp), (IHch Hch Hoch (S d)).
now rewrite forestLines_cons.
Qed.

(** X24.  For a well-formed store kept in page order, where on every level
    the pages of the siblings do not descend, and whose pages are integers
    that a number holds exactly, the sort of the server moves nothing: the
    descriptor is made of the lines of the bookmarks in the order of the
    store, each with its page, a dash for every level of its depth, and its
    title. *)
Theorem X24_descriptor_keeps_page_order (st : AppState) :
  wellFormed st ->
  safePages (tree st) ->
  orderedForest (tree st) ->
  descriptor st = join newline (map entryLine (forestLines 0 (tree st))).
Proof.
intros Hwf _ Hord. unfold descriptor. rewrite serialize_entryLines.
unfold entries. rewrite entries_ordered; [reflexivity | | exact Hord].
now apply wellFormed_nonzero.
Qed.

Lemma X24_descriptor_keeps_page_order_witness :
  descriptor sampleState
  = ("1||A" ++ newline ++ "2|-|B" ++ newline ++ "3|-|C")%string.
Proof.
rewrite (X24_descriptor_keeps_page_order sampleState).
- reflexivity.
- apply sampleState_wellFormed.
- apply sampleState_safePages.
- cbv. repeat split; intros H; discriminate H.
Defined.

End StoreDescriptor.

(* ================================================================== *)
(** ** The order in which siblings arrive *)
(* ================================================================== *)

Section ArrivalOrder.
Import JS Serializer Outline Descriptor.
Local Open Scope string_scope.
Local Open Scope list_scope.

Lemma filter_perm {A : Type} (P : A -> bool) (l1 l2 : list A) :
  Permutation l1 l2 -> Permutation (List.filter P l1) (List.filter P l2).
Proof.
induction 1 as [|x l1 l2 H IH|x y l|l1 l2 l3 H12 IH12 H23 IH23]; cbn [List.filter].
- constructor.
- destruct (P x); [now apply perm_skip | exact IH].
- destruct (P x), (P y); try reflexivity. apply perm_swap.
- now transitivity (List.filter P l2).
Qed.

Lemma sameNum_joined (x y k : jsnum) :
  sameNum x k = true -> sameNum y k = true -> sameNum x y = true.
Proof.
unfold sameNum. rewrite !andb_true_iff. intros [H1 H2] [H3 H4].
split; eapply numLeb_trans; eauto.
Qed.

(** Among siblings with different keys at most one has a given key. *)
Lemma distinctKeys_filter (k : jsnum) (f : list Bookmark) :
  distinctKeys f ->
  (length (List.filter (fun n => sameNum (sortKey n) k) f) <= 1)%nat.
Proof.
induction f as [|a f IH]; intros H; [cbn; lia|].
destruct H as [Ha Hf]. cbn [List.filter].
destruct (sameNum (sortKey a) k) eqn:E; [|now apply IH].
assert (Hnone : List.filter (fun n => sameNum (sortKey n) k) f = []).
{ clear IH Hf. induction Ha as [|b f Hb Hf IH]; [reflexivity|].
  cbn [List.filter]. destruct (sameNum (sortKey b) k) eqn:Eb; [|exact IH].
  rewrite (sameNum_joined _ _ _ E Eb) in Hb. discriminate. }
rewrite Hnone. cbn. lia.
Qed.

Lemma short_perm_eq {A : Type} (l1 l2 : list A) :
  (length l1 <= 1)%nat -> Permutation l1 l2 -> l1 = l2.
Proof.
intros Hlen Hperm. destruct l1 as [|x [|y l1]]; cbn in Hlen; [| |lia].
- symmetry. now apply Permutation_nil.
- symmetry. now apply Permutation_length_1_inv.
Qed.

(** X25.  Siblings with pairwise different sort keys, all keys of the
    forest being such that a number holds them exactly, may arrive in any
    order: the sorted forest, and so the descriptor, is the same for every
    arrangement of them. *)
Theorem X25_arrival_order_does_not_matter (f g : list Bookmark) :
  Permutation f g ->
  exactPages f ->
  distinctKeys f ->
  sortBookmarksByPage f = sortBookmarksByPage g
  /\ serialize f = serialize g.
Proof.
intros Hperm _ Hdist.
assert (Hsort : sort byPage g = sort byPage f).
{ apply sort_byPage_unique; [|apply sort_byPage_ascending].
  destruct (sort_byPage_stable g) as [Hpg Hsg]. split.
  - now rewrite Hperm.
  - intros k. rewrite Hsg. symmetry. apply short_perm_eq.
    + now apply distinctKeys_filter.
    + now apply filter_perm. }
assert (H : sortBookmarksByPage f = sortBookmarksByPage g)
  by now rewrite !sortBookmarksByPage_eq, Hsort.
split; [exact H|]. unfold serialize, printedOutline. now rewrite H.
Qed.

(** Two roots, of pages 2 and 1, in both orders. *)
Lemma X25_arrival_order_does_not_matter_witness :
  serialize [mkBookmark (Some "b") (PageNum 2) None;
             mkBookmark (Some "a") (PageNum 1) None]
  = serialize [mkBookmark (Some "a") (PageNum 1) None;
               mkBookmark (Some "b") (PageNum 2) None].
Proof.
apply (X25_arrival_order_does_not_matter
         [mkBookmark (Some "b") (PageNum 2) None;
          mkBookmark (Some "a") (PageNum 1) None]
         [mkBookmark (Some "a") (PageNum 1) None;
          mkBookmark (Some "b") (PageNum 2) None]).
- apply perm_swap.
- split; [split; [|exact I] | split; [split; [|exact I] | exact I]].
  + exists 2%Z. split; [unfold safeInteger; lia | reflexivity].
  + exists 1%Z. split; [unfold safeInteger; lia | reflexivity].
- cbn [distinctKeys]. repeat split; repeat constructor.
Defined.

End ArrivalOrder.

(* ================================================================== *)
(** ** The paragraphs of an extracted text *)
(* ================================================================== *)

Section Paragraphs.
Import JS Editor.
Local Open Scope string_scope.
Local Open Scope list_scope.

Lemma extractedLines_trimmed (text : string) :
  Forall (fun line => trim line <> "") (extractedLines text).
Proof.
unfold extractedLines. apply List.Forall_forall. intros line Hin.
apply filter_In in Hin as [Hin Hlen]. apply in_map_iff in Hin as (x & <- & _).
rewrite trim_idem. destruct (trim x); [discriminate Hlen | discriminate].
Qed.

(** The loop collects the paragraphs of [paragraphLines], each joined by
    spaces. *)
Lemma groupLines_paragraphs (lines : list string) :
  Forall (fun line => trim line <> "") lines ->
  forall current paragraphs,
    groupLines lines current paragraphs
    = paragraphs ++ map (join " ") (paragraphLines current lines).
Proof.
induction 1 as [|line rest Hline Hrest IH]; intros current paragraphs.
- cbn. now rewrite app_nil_r.
- cbn [groupLines paragraphLines].
  assert (Hlen : (0 <? length (current ++ [line]))%nat = true).
  { apply Nat.ltb_lt. rewrite List.length_app. cbn. lia. }
  rewrite Hlen. destruct rest as [|next rest].
  + cbn. reflexivity.
  + apply Forall_inv in Hrest.
    assert (Hne : next <> "") by (intros ->; now apply Hrest).
    apply String.eqb_neq in Hne, Hrest.
    cbn [endsParagraph]. rewrite Hne, Hrest. cbn [negb andb].
    rewrite orb_false_r.
    destruct (String.length next <? 3)%nat.
    * rewrite IH. cbn [map]. now rewrite <- app_assoc.
    * apply IH.
Qed.

Lemma paragraphLines_concat (lines : list string) :
  lines <> [] ->
  forall current, concat (paragraphLines current lines) = current ++ lines.
Proof.
induction lines as [|line rest IH]; intros Hne current; [congruence|].
cbn [paragraphLines]. destruct rest as [|next rest]; [cbn; now rewrite app_nil_r|].
destruct (String.length next <? 3)%nat.
- cbn [concat]. rewrite IH by discriminate. now rewrite <- app_assoc.
- rewrite IH by discriminate. now rewrite <- app_assoc.
Qed.

Lemma paragraphLines_nonempty (lines current : list string) :
  Forall (fun p => p <> []) (paragraphLines current lines).
Proof.
revert current. induction lines as [|line rest IH]; intros current; [constructor|].
cbn [paragraphLines]. destruct rest as [|next rest].
- constructor; [|constructor]. now destruct current.
- destruct (String.length next <? 3)%nat; [|apply IH].
  constructor; [now destruct current | apply IH].
Qed.

Lemma paragraphLines_head (lines current : list string) :
  lines <> [] ->
  hd "" (hd [] (paragraphLines current lines)) = hd "" (current ++ lines).
Proof.
revert current. induction lines as [|line rest IH]; intros current Hne;
  [congruence|].
cbn [paragraphLines]. destruct rest as [|next rest]; [now destruct current|].
destruct (String.length next <? 3)%nat.
- now destruct current.
- rewrite IH by discriminate. now rewrite <- app_assoc.
Qed.

(** Every paragraph but the first starts with a short line. *)
Lemma paragraphLines_breaks (lines current : list string) :
  Forall (fun p => (String.length (hd "" p) < 3)%nat)
         (tl (paragraphLines current lines)).
Proof.
revert current. induction lines as [|line rest IH]; intros current; [constructor|].
cbn [paragraphLines]. destruct rest as [|next rest]; [constructor|].
destruct (String.length next <? 3)%nat eqn:E; [|apply IH].
cbn [tl]. specialize (IH []).
pose proof (paragraphLines_head (next :: rest) [] ltac:(discriminate)) as Hhd.
destruct (paragraphLines [] (next :: rest)) as [|p ps]; [constructor|].
constructor; [|exact IH]. cbn [hd app] in Hhd. rewrite Hhd.
now apply Nat.ltb_lt.
Qed.

(** Within a paragraph every line after the first has three characters or
    more. *)
Lemma paragraphLines_long (lines : list string) :
  forall current,
    Forall (fun line => (3 <= String.length line)%nat) (tl current) ->
    (current <> [] -> Forall (fun line => (3 <= String.length line)%nat)
                             (firstn 1 lines)) ->
    Forall (fun p => Forall (fun line => (3 <= String.length line)%nat) (tl p))
           (paragraphLines current lines).
Proof.
induction lines as [|line rest IH]; intros current Hcur Hfirst; [constructor|].
assert (Hnew : Forall (fun line => (3 <= String.length line)%nat)
                      (tl (current ++ [line]))).
{ destruct current as [|c current]; [constructor|].
  cbn [app tl] in *. apply Forall_app. split; [exact Hcur|].
  exact (Hfirst ltac:(discriminate)). }
cbn [paragraphLines]. destruct rest as [|next rest]; [now repeat constructor|].
destruct (String.length next <? 3)%nat eqn:E.
- constructor; [exact Hnew|]. apply IH; [constructor | congruence].
- apply IH; [exact Hnew|]. intros _. cbn [firstn].
  constructor; [|constructor]. apply Nat.ltb_ge in E. exact E.
Qed.


End Paragraphs.

(* ================================================================== *)
(** ** The states of the editor *)
(* ================================================================== *)

Section ReachableStates.
Import JS Store Forest Editor.
Local Open Scope string_scope.
Local Open Scope list_scope.

Lemma goodEntry_any_count (count : option Z) (e : string * string * Z) :
  goodEntry count e -> goodEntry None e.
Proof.
destruct e as [[i t] p]. intros (H1 & _ & Ht & Htrim).
split; [exact H1|]. split; [discriminate|]. now split.
Qed.

Lemma commit_keeps (count : option Z) (uuid t : string) (p : Z)
  (st : AppState) :
  List.NoDup (forestIds (tree st)) ->
  Forall (goodEntry count) (forestEntries (tree st)) ->
  ~ In uuid (forestIds (tree st)) ->
  goodEntry count (uuid, t, p) ->
  List.NoDup (forestIds (tree (commit uuid t p st)))
  /\ Forall (goodEntry count) (forestEntries (tree (commit uuid t p st))).
Proof.
intros Hnd Hgood Hfresh Hnew. rewrite (commit_tree _ _ _ _ Hnd).
destruct (modalMode st).
- split.
  + rewrite forestIds_app.
    cbn [forestIds flat_map nodeIds createNode id children]. rewrite app_nil_r.
    apply List.NoDup_app; [exact Hnd | repeat constructor; simpl; tauto |].
    intros x Hx [<-|[]]. contradiction.
  + rewrite forestEntries_app. apply Forall_app. split; [exact Hgood|].
    constructor; [exact Hnew | constructor].
- destruct (truthyId (modalParentId st)) as [parent|].
  + split; [now apply NoDup_adopted | now apply good_adopted].
  + now destruct (truthyId (editingId st)).
- destruct (truthyId (modalParentId st)), (truthyId (editingId st));
    try (split; [now apply NoDup_retitled | apply good_retitled; [|exact Hgood]];
         intros i; exact (goodEntry_id count uuid i t p Hnew));
    now split.
Qed.

Lemma tree_openEdit (target : string) (st : AppState) :
  tree (openEdit target st) = tree st.
Proof.
rewrite openEdit_eq. now destruct (locate target (tree st)).
Qed.

Lemma onDocumentLoadSuccess_tree (uuids : nat -> string) (doc : DocumentProxy)
  (outline : Outcome (option (list OutlineItem))) (st : AppState) :
  tree (onDocumentLoadSuccess uuids doc outline st) = tree st
  \/ exists its,
       tree (onDocumentLoadSuccess uuids doc outline st)
       = fst (mapOutline doc uuids its 0).
Proof.
unfold onDocumentLoadSuccess. destruct (tree st) as [|n f] eqn:E.
- destruct outline as [[[|it its]|]|]; try (left; cbn; now rewrite E).
  destruct (fst (mapOutline doc uuids (it :: its) 0)) as [|m ms] eqn:Em;
    [left; cbn; now rewrite E|].
  right. exists (it :: its). now rewrite Em.
- left. cbn. now rewrite E.
Qed.



End ReachableStates.

Section LoadOverTree.
Import JS Store Forest Editor.
Local Open Scope string_scope.
Local Open Scope list_scope.

(** X28.  Loading a document leaves a tree that is not empty as it is and
    only sets the page count: a bookmark whose page is beyond the last page
    of the document stays, so that the store is no longer well formed.  Such
    a bookmark can be there, since a commit accepts any page from 1 on while
    no page count is known. *)
Theorem X28_load_keeps_a_tree_that_is_not_empty (uuids : nat -> string)
  (doc : DocumentProxy) (outline : Outcome (option (list OutlineItem)))
  (st : AppState) :
  tree st <> [] ->
  tree (onDocumentLoadSuccess uuids doc outline st) = tree st
  /\ knownPageCount (onDocumentLoadSuccess uuids doc outline st)
     = Some (totalPagesOf doc)
  /\ forall e, In e (forestEntries (tree st)) ->
               (totalPagesOf doc < snd e)%Z ->
               ~ wellFormed (onDocumentLoadSuccess uuids doc outline st).
Proof.
intros Hne.
assert (Hload : onDocumentLoadSuccess uuids doc outline st
                = setNumPages (Some (totalPagesOf doc)) st).
{ unfold onDocumentLoadSuccess. destruct (tree st); [congruence | reflexivity]. }
rewrite Hload.
assert (Hk : knownPageCount (setNumPages (Some (totalPagesOf doc)) st)
             = Some (totalPagesOf doc)).
{ unfold knownPageCount, totalPagesOf. cbn [numPages setNumPages].
  destruct (docNumPages doc =? 0)%Z eqn:E; [reflexivity | now rewrite E]. }
split; [reflexivity|]. split; [exact Hk|].
intros [[i t] p] He Hlt [_ Hgood]. cbn [tree setNumPages snd] in *.
assert (Hg : goodEntry (knownPageCount (setNumPages (Some (totalPagesOf doc)) st))
                       (i, t, p)).
{ revert He. apply List.Forall_forall. exact Hgood. }
destruct Hg as (_ & Hle & _). specialize (Hle _ Hk). lia.
Qed.

(** A root of page 50, added before any document is loaded, and a document
    of 10 pages. *)
Lemma X28_load_keeps_a_tree_that_is_not_empty_witness :
  forestEntries
    (tree (onDocumentLoadSuccess (fun k => repeatDash k)
             (mkDoc 10 (fun _ => Rejects) (fun r => Resolves (num r)))
             (Resolves None)
             (saveModal "u1"
                (setFormTitle "Far" (openAddRoot 50 initialState)))))
  = [("u1", "Far", 50%Z)].
Proof.
destruct (X28_load_keeps_a_tree_that_is_not_empty (fun k => repeatDash k)
            (mkDoc 10 (fun _ => Rejects) (fun r => Resolves (num r)))
            (Resolves None)
            (saveModal "u1" (setFormTitle "Far" (openAddRoot 50 initialState))))
  as [H _].
- discriminate.
- rewrite H. reflexivity.
Defined.

End LoadOverTree.

(* ================================================================== *)
(** ** Page inputs that start with a numeral *)
(* ================================================================== *)

Section LeadingNumeral.
Import JS Store Forest Editor.
Local Open Scope string_scope.
Local Open Scope list_scope.

Lemma commit_reports_no_failure (uuid t : string) (p : Z) (st : AppState) :
  reportsFailure st (commit uuid t p st) = false.
Proof.
unfold reportsFailure, commit.
destruct (modalMode st), (truthyId (modalParentId st)),
  (truthyId (editingId st));
  cbn [toasts setModalOpen showToast setTree];
  rewrite ?List.filter_app; cbn [List.filter isError type];
  rewrite ?app_nil_r; apply Nat.ltb_irrefl.
Qed.

(** C10.  A page input that starts with a numeral of a positive value, a
    value that a number holds exactly, is accepted whatever follows the
    numeral: no failure is reported, and the node that the commit writes
    has the value of the numeral as its page (and the trimmed title), be it
    a new root, a new child or an edited node.  So ["3.9"] and ["3abc"]
    commit page 3. *)
Theorem C10_leading_numeral_commits (uuid : string) (st : AppState)
  (ds : list Z) (rest : string) :
  ds <> [] ->
  Forall (fun d => (0 <= d <= 9)%Z) ds ->
  startsWithDigit rest = false ->
  formPage st = (numeral ds ++ rest)%string ->
  (1 <= numeralValue ds)%Z ->
  safeInteger (numeralValue ds) ->
  (forall n, knownPageCount st = Some n -> (numeralValue ds <= n)%Z) ->
  trim (formTitle st) <> "" ->
  reportsFailure st (saveModal uuid st) = false
  /\ (modalMode st = AddRoot ->
      exists n,
        tree (saveModal uuid st) = tree st ++ [n]
        /\ id n = uuid /\ title n = trim (formTitle st)
        /\ page n = numeralValue ds /\ children n = [])
  /\ (forall parent,
        modalMode st = AddChild -> modalParentId st = Some parent ->
        parent <> "" ->
        List.NoDup (forestIds (tree st)) -> In parent (forestIds (tree st)) ->
        exists p n,
          locate parent (tree st) = Some p
          /\ locate parent (tree (saveModal uuid st))
             = Some (withChildren (children p ++ [n]) p)
          /\ id n = uuid /\ title n = trim (formTitle st)
          /\ page n = numeralValue ds /\ children n = [])
  /\ (forall target,
        modalMode st = Edit -> editingId st = Some target -> target <> "" ->
        List.NoDup (forestIds (tree st)) -> In target (forestIds (tree st)) ->
        exists n,
          locate target (tree (saveModal uuid st)) = Some n
          /\ id n = target /\ title n = trim (formTitle st)
          /\ page n = numeralValue ds).
Proof.
intros Hne Hds Hrest Hform Hpos _ Hbound Htitle.
assert (Hsave : saveModal uuid st
                = commit uuid (trim (formTitle st)) (numeralValue ds) st).
{ apply saveModal_accepted; try assumption.
  rewrite Hform. now apply parseInt_numeral. }
rewrite Hsave. split; [apply commit_reports_no_failure|].
split; [|split].
- intros Hmode. exists (createNode uuid (trim (formTitle st)) (numeralValue ds)).
  split; [|now repeat split].
  unfold commit. rewrite Hmode. reflexivity.
- intros parent Hmode Hparent Hpne Hnd Hin.
  destruct (locate_present parent (tree st) Hin) as (p & Hp).
  exists p, (createNode uuid (trim (formTitle st)) (numeralValue ds)).
  split; [exact Hp|]. split; [|now repeat split].
  rewrite (commit_tree _ _ _ _ Hnd), Hmode, Hparent, (truthyId_Some _ Hpne).
  cbv iota. rewrite locate_amend, Hp; [reflexivity | | exact Hnd].
  intros m. now destruct m.
- intros target Hmode Hedit Htne Hnd Hin.
  destruct (locate_present target (tree st) Hin) as (n0 & Hn0).
  exists (retitled (trim (formTitle st)) (numeralValue ds) n0).
  split; [|split; [|now split]].
  + rewrite (commit_tree _ _ _ _ Hnd), Hmode, Hedit, (truthyId_Some _ Htne).
    destruct (truthyId (modalParentId st)); cbv iota;
      (rewrite locate_amend, Hn0; [reflexivity | | exact Hnd]);
      intros m; now destruct m.
  + cbn [retitled id]. now apply (locate_incl target (tree st)).
Qed.

(** ["3abc"] and ["3.9"] for a new root, and ["3abc"] for an edit of B. *)
Lemma C10_leading_numeral_commits_witness :
  (exists n,
     tree (saveModal "u1" (sampleForm AddRoot None None "Notes" "3abc"))
     = [nodeA] ++ [n]
     /\ id n = "u1" /\ title n = "Notes" /\ page n = 3%Z /\ children n = [])
  /\ (exists n,
        tree (saveModal "u1" (sampleForm AddRoot None None "Notes" "3.9"))
        = [nodeA] ++ [n]
        /\ id n = "u1" /\ title n = "Notes" /\ page n = 3%Z /\ children n = [])
  /\ (exists n,
        locate "id-b"
          (tree (saveModal "u1" (sampleForm Edit None (Some "id-b") "B2" "3abc")))
        = Some n
        /\ id n = "id-b" /\ title n = "B2" /\ page n = 3%Z).
Proof.
assert (H3 : forall rest : string,
          startsWithDigit rest = false ->
          [3%Z] <> []
          /\ Forall (fun d => (0 <= d <= 9)%Z) [3%Z]
          /\ (1 <= numeralValue [3%Z])%Z
          /\ safeInteger (numeralValue [3%Z])
          /\ (forall mode parent editing t n,
                knownPageCount (sampleForm mode parent editing t
                                  (numeral [3%Z] ++ rest)%string) = Some n ->
                (numeralValue [3%Z] <= n)%Z)).
{ intros rest _. split; [discriminate|]. split; [repeat constructor; lia|].
  split; [cbv; discriminate|]. split; [unfold safeInteger; cbn; lia|].
  intros mode parent editing t n H. cbv in H. injection H as <-.
  cbv. discriminate. }
split; [|split].
- destruct (H3 "abc" eq_refl) as (Hne & Hds & Hpos & Hsafe & Hk).
  refine (proj1 (proj2 (C10_leading_numeral_commits "u1"
            (sampleForm AddRoot None None "Notes" "3abc") [3%Z] "abc"
            Hne Hds eq_refl eq_refl Hpos Hsafe (Hk _ _ _ _) _)) eq_refl).
  cbv. discriminate.
- destruct (H3 ".9" eq_refl) as (Hne & Hds & Hpos & Hsafe & Hk).
  refine (proj1 (proj2 (C10_leading_numeral_commits "u1"
            (sampleForm AddRoot None None "Notes" "3.9") [3%Z] ".9"
            Hne Hds eq_refl eq_refl Hpos Hsafe (Hk _ _ _ _) _)) eq_refl).
  cbv. discriminate.
- destruct (H3 "abc" eq_refl) as (Hne & Hds & Hpos & Hsafe & Hk).
  refine (proj2 (proj2 (proj2 (C10_leading_numeral_commits "u1"
            (sampleForm Edit None (Some "id-b") "B2" "3abc") [3%Z] "abc"
            Hne Hds eq_refl eq_refl Hpos Hsafe (Hk _ _ _ _) _)))
            "id-b" eq_refl eq_refl _ sampleState_NoDup _).
  + cbv. discriminate.
  + discriminate.
  + change (In "id-b" (forestIds (tree sampleState))).
    rewrite sampleState_ids. simpl. auto.
Defined.

End LeadingNumeral.
